(** * BoxChamp: live state extraction and the rule-driven action engine

    A shallow embedding of the memory reader, the condition evaluator, the
    rotation scheduler and the macro target resolution of [BoxChamp.py],
    followed by the properties the specification states about them.

    Conventions
    - Python integers are [Z]; the fixed-width values returned by the remote
      reads are reduced to the range of their C type.
    - Python floats are IEEE binary64 values, taken from the standard
      library's executable specification [SpecFloat] (precision 53,
      maximal exponent 1024).
    - Python dictionaries are [gmap]s; exceptions are an explicit error
      result. *)

From Stdlib Require Import ZArith Lia Lqa QArith SpecFloat Ascii String DecimalString.
From stdpp Require Import base option list strings gmap.

Open Scope Z_scope.

(** ** Python runtime: exceptions and results *)

Module Py.

Inductive exn : Type :=
  | MemoryReadError
  | ZeroDivisionError
  | TypeError
  | ValueError
  | OverflowError
  | AttributeError.

Inductive result (A : Type) : Type :=
  | Ok (a : A)
  | Raise (e : exn).
Arguments Ok {A} a.
Arguments Raise {A} e.

#[global] Instance result_ret : MRet result := λ A a, Ok a.
#[global] Instance result_bind : MBind result := λ A B f r,
  match r with
  | Ok a => f a
  | Raise e => Raise e
  end.

#[global] Instance result_fmap : FMap result := λ A B f r,
  match r with
  | Ok a => Ok (f a)
  | Raise e => Raise e
  end.

Definition is_ok {A} (r : result A) : bool :=
  match r with Ok _ => true | Raise _ => false end.

(** *** Floats

    [float] is IEEE binary64 with rounding to nearest, ties to even. *)

Abbreviation float := spec_float.
Definition prec : Z := 53.
Definition emax : Z := 1024.

Definition overflow_check (f : float) : result float :=
  match f with
  | S754_infinity _ => Raise OverflowError
  | _ => Ok f
  end.

(** [float(z)] for an integer [z]: the nearest double, [OverflowError] when
    [z] is too large. *)
Definition float_of_int (z : Z) : result float :=
  overflow_check (binary_normalize prec emax z 0 false).

(** [a / b] on integers: the correctly rounded quotient. *)
Definition int_truediv (a b : Z) : result float :=
  if b =? 0 then Raise ZeroDivisionError
  else if a =? 0 then Ok (S754_zero (b <? 0))
  else
    let '(q, e, l) := SFdiv_core_binary prec emax (Z.abs a) 0 (Z.abs b) 0 in
    overflow_check (binary_round_aux prec emax (xorb (a <? 0) (b <? 0)) q e l).

(** [x * z] for a float [x] and an integer [z]. *)
Definition float_mul_int (x : float) (z : Z) : result float :=
  y ← float_of_int z; Ok (SFmul prec emax x y).

(** The integer nearest to [m * 2 ^ e] for [0 <= m], ties to even. *)
Definition round_half_even (m e : Z) : Z :=
  if 0 <=? e then m * 2 ^ e
  else
    let d := 2 ^ (- e) in
    let q := m / d in
    match Z.compare (2 * (m mod d)) d with
    | Lt => q
    | Gt => q + 1
    | Eq => if Z.even q then q else q + 1
    end.

(** [round(x)] with one argument: an integer, [OverflowError] on an
    infinity and [ValueError] on a NaN. *)
Definition py_round (x : float) : result Z :=
  match x with
  | S754_zero _ => Ok 0
  | S754_finite s m e => Ok (cond_Zopp s (round_half_even (Zpos m) e))
  | S754_infinity _ => Raise OverflowError
  | S754_nan => Raise ValueError
  end.

(** A float that is a zero or finite and below [2 ^ B] in magnitude. *)
Definition fin_le (B : Z) (x : spec_float) : Prop :=
  match x with
  | S754_zero _ => True
  | S754_finite _ m e => Zpos m < 2 ^ (B - e) /\ e <= B
  | _ => False
  end.

(** *** Values *)

Inductive pyval : Type :=
  | PNone
  | PBool (b : bool)
  | PInt (z : Z)
  | PFloat (f : float)
  | PStr (s : string).

(** The two builtins that are not computed here: [float(s)] on a string
    ([None] = [ValueError]) and [str(x)] on a float. *)
Record Builtins : Type := {
  float_of_str : string → option float;
  str_of_float : float → string
}.

(** [s.lower()], on ASCII strings. *)
Definition lower_ascii (c : ascii) : ascii :=
  let n := Ascii.N_of_ascii c in
  if ((65 <=? n) && (n <=? 90))%N then Ascii.ascii_of_N (n + 32) else c.

Fixpoint lower (s : string) : string :=
  match s with
  | EmptyString => EmptyString
  | String c s' => String (lower_ascii c) (lower s')
  end.

(** [x.lower()] on an arbitrary value: only strings have the method. *)
Definition py_lower (x : pyval) : result string :=
  match x with
  | PStr s => Ok (lower s)
  | _ => Raise AttributeError
  end.

(** [str(x)]. *)
Definition py_str (bi : Builtins) (x : pyval) : string :=
  match x with
  | PNone => "None"
  | PBool true => "True"
  | PBool false => "False"
  | PInt z => NilEmpty.string_of_int (Z.to_int z)
  | PFloat f => str_of_float bi f
  | PStr s => s
  end.

(** [float(x)]. *)
Definition py_float (bi : Builtins) (x : pyval) : result float :=
  match x with
  | PNone => Raise TypeError
  | PBool b => float_of_int (Z.b2z b)
  | PInt z => float_of_int z
  | PFloat f => Ok f
  | PStr s =>
      match float_of_str bi s with
      | Some f => Ok f
      | None => Raise ValueError
      end
  end.

(** Numbers compare by value across [bool], [int] and [float]; the
    comparison of an integer with a float is exact.  [None] is the
    unordered case (a NaN is involved). *)
Inductive number : Type :=
  | NInt (z : Z)
  | NFloat (f : float).

Definition as_number (x : pyval) : option number :=
  match x with
  | PBool b => Some (NInt (Z.b2z b))
  | PInt z => Some (NInt z)
  | PFloat f => Some (NFloat f)
  | PNone | PStr _ => None
  end.

Definition compare_int_float (z : Z) (f : float) : option comparison :=
  match f with
  | S754_nan => None
  | S754_infinity s => Some (if s then Gt else Lt)
  | S754_zero _ => Some (z ?= 0)
  | S754_finite s m e =>
      let v := cond_Zopp s (Zpos m) in
      Some (if 0 <=? e then z ?= v * 2 ^ e else z * 2 ^ (- e) ?= v)
  end.

Definition number_compare (x y : number) : option comparison :=
  match x, y with
  | NInt a, NInt b => Some (a ?= b)
  | NInt a, NFloat f => compare_int_float a f
  | NFloat f, NInt b => CompOpp <$> compare_int_float b f
  | NFloat f, NFloat g => SFcompare f g
  end.

(** [x == y] and [x != y] never raise. *)
Definition py_eq (x y : pyval) : bool :=
  match as_number x, as_number y with
  | Some a, Some b =>
      match number_compare a b with Some Eq => true | _ => false end
  | _, _ =>
      match x, y with
      | PNone, PNone => true
      | PStr s, PStr t => String.eqb s t
      | _, _ => false
      end
  end.

Definition py_ne (x y : pyval) : bool := negb (py_eq x y).

(** The ordering comparisons raise [TypeError] unless both sides are
    numbers or both are strings. *)
Definition py_order (holds : comparison → bool) (x y : pyval) : result bool :=
  match as_number x, as_number y with
  | Some a, Some b =>
      Ok match number_compare a b with Some c => holds c | None => false end
  | _, _ =>
      match x, y with
      | PStr s, PStr t => Ok (holds (String.compare s t))
      | _, _ => Raise TypeError
      end
  end.

Definition py_lt := py_order (λ c, match c with Lt => true | _ => false end).
Definition py_gt := py_order (λ c, match c with Gt => true | _ => false end).
Definition py_le := py_order (λ c, match c with Gt => false | _ => true end).
Definition py_ge := py_order (λ c, match c with Lt => false | _ => true end).

End Py.
Import Py.

(** ** The memory reader *)

Module MemoryReader.

(** Memory-layout constants (WoW 3.3.5a 12340). *)
Definition CUR_MGR_POINTER : Z := 0x00C79CE0.
Definition CUR_MGR_OFFSET : Z := 0x2ED0.
Definition FIRST_OBJECT_OFFSET : Z := 0xAC.
Definition NEXT_OBJECT_OFFSET : Z := 0x3C.
Definition LOCAL_GUID_OFFSET : Z := 0xC0.
Definition OBJECT_GUID_OFFSET : Z := 0x30.
Definition M_STORAGE_OFFSET : Z := 0x8.
Definition TARGET_GUID_STATIC : Z := 0x00BD07B0.
Definition COMBO_POINTS_STATIC : Z := 0x00BD084D.

Definition UNIT_FIELD_HEALTH : Z := 0x18 * 4.
Definition UNIT_FIELD_MAXHEALTH : Z := 0x20 * 4.
Definition UNIT_FIELD_POWER1 : Z := 0x19 * 4.
Definition UNIT_FIELD_MAXPOWER1 : Z := 0x21 * 4.
Definition UNIT_FIELD_LEVEL : Z := 0x36 * 4.

Definition UNIT_NAME_1 : Z := 0x964.
Definition UNIT_NAME_2 : Z := 0x5C.

(** The address space of the attached process, seen through the typed reads
    of [pymem]: each view maps an address to the value stored there, or to
    [None] where the read fails (unmapped page, process gone, undecodable
    string). *)
Record Pymem : Type := {
  cell_uint : Z → option Z;
  cell_ulonglong : Z → option Z;
  cell_int : Z → option Z;
  cell_uchar : Z → option Z;
  cell_string : Z → option string
}.

Definition unsigned (bits : Z) (v : Z) : Z := v mod 2 ^ bits.
Definition signed (bits : Z) (v : Z) : Z :=
  (v + 2 ^ (bits - 1)) mod 2 ^ bits - 2 ^ (bits - 1).

Definition read_cell {A B} (conv : A → B) (cell : Z → option A) (address : Z)
  : result B :=
  match cell address with
  | Some v => Ok (conv v)
  | None => Raise MemoryReadError
  end.

Definition read_uint (pm : Pymem) := read_cell (unsigned 32) (cell_uint pm).
Definition read_ulonglong (pm : Pymem) := read_cell (unsigned 64) (cell_ulonglong pm).
Definition read_int (pm : Pymem) := read_cell (signed 32) (cell_int pm).
Definition read_uchar (pm : Pymem) := read_cell (unsigned 8) (cell_uchar pm).
Definition read_string (pm : Pymem) := read_cell (λ s : string, s) (cell_string pm).

(** [self] of the reader: the attached process and the cached object
    manager base ([0] = unresolved). *)
Record MemoryReader : Type := {
  pm : Pymem;
  object_manager_base : Z
}.

Definition set_object_manager_base (self : MemoryReader) (b : Z) : MemoryReader :=
  {| pm := pm self; object_manager_base := b |}.

(** [_get_object_manager_base]: every exception is caught inside, so the
    result is a plain address together with the updated reader. *)
Definition _get_object_manager_base (self : MemoryReader) : Z * MemoryReader :=
  if negb (object_manager_base self =? 0) then (object_manager_base self, self)
  else
    match read_uint (pm self) CUR_MGR_POINTER with
    | Raise _ => (0, set_object_manager_base self 0)
    | Ok client_connection =>
        if client_connection =? 0 then (0, self)
        else
          match read_uint (pm self) (client_connection + CUR_MGR_OFFSET) with
          | Raise _ => (0, set_object_manager_base self 0)
          | Ok b => (b, set_object_manager_base self b)
          end
    end.

(** The [for _ in range(4096)] loop of [_find_object_base_by_guid]; [n] is
    what is left of the range.  The second component counts the loop
    iterations that were entered. *)
Fixpoint walk_objects (p : Pymem) (guid_to_find : Z) (n : nat) (current_obj : Z)
  : Z * nat :=
  match n with
  | O => (0, O)
  | S n' =>
      if current_obj =? 0 then (0, 1%nat)
      else
        match read_ulonglong p (current_obj + OBJECT_GUID_OFFSET) with
        | Raise _ => (0, 1%nat)
        | Ok obj_guid =>
            if obj_guid =? guid_to_find then (current_obj, 1%nat)
            else
              match read_uint p (current_obj + NEXT_OBJECT_OFFSET) with
              | Raise _ => (0, 1%nat)
              | Ok next => let '(r, k) := walk_objects p guid_to_find n' next in (r, S k)
              end
        end
  end.

Definition object_walk_cap : nat := 4096.

(** The object reached from [first] by following [k] next-pointers. *)
Fixpoint nth_object (p : Pymem) (k : nat) (first : Z) : result Z :=
  match k with
  | O => Ok first
  | S k' => read_uint p (first + NEXT_OBJECT_OFFSET) ≫= nth_object p k'
  end.

(** The first [k] objects of the list that starts at [first] let the walk
    pass: each of them is not null, holds an identifier other than the
    searched one, and has a readable link to the next object. *)
Definition passes (p : Pymem) (guid_to_find : Z) (first : Z) (k : nat) : Prop :=
  ∀ j, (j < k)%nat →
    ∃ obj obj_guid next,
      nth_object p j first = Ok obj ∧ obj ≠ 0 ∧
      read_ulonglong p (obj + OBJECT_GUID_OFFSET) = Ok obj_guid ∧
      obj_guid ≠ guid_to_find ∧
      read_uint p (obj + NEXT_OBJECT_OFFSET) = Ok next.

(** [_find_object_base_by_guid], with the number of loop iterations it
    performed.  The read of the first object is outside the [try] and may
    raise. *)
Definition find_object_counted (self : MemoryReader) (guid_to_find : Z)
  : result (Z * nat) * MemoryReader :=
  let '(obj_mgr, self) := _get_object_manager_base self in
  if (obj_mgr =? 0) || (guid_to_find =? 0) then (Ok (0, O), self)
  else
    match read_uint (pm self) (obj_mgr + FIRST_OBJECT_OFFSET) with
    | Raise e => (Raise e, self)
    | Ok current_obj => (Ok (walk_objects (pm self) guid_to_find object_walk_cap current_obj), self)
    end.

Definition _find_object_base_by_guid (self : MemoryReader) (guid_to_find : Z)
  : result Z * MemoryReader :=
  let '(r, self) := find_object_counted self guid_to_find in
  (fst <$> r, self).

(** [round((value / max) * 100)]. *)
Definition percent (value max : Z) : result Z :=
  q ← int_truediv value max;
  p ← float_mul_int q 100;
  py_round p.

(** The body of [get_combat_stats] threads the reader, may leave early with
    [return None] and may raise. *)
Definition M (A : Type) : Type := MemoryReader → result (option A) * MemoryReader.

Definition retM {A} (a : A) : M A := λ self, (Ok (Some a), self).
Definition return_None {A} : M A := λ self, (Ok None, self).
Definition bindM {A B} (m : M A) (k : A → M B) : M B := λ self,
  match m self with
  | (Ok (Some a), self') => k a self'
  | (Ok None, self') => (Ok None, self')
  | (Raise e, self') => (Raise e, self')
  end.
Definition liftM {A} (r : result A) : M A := λ self, (Some <$> r, self).
Definition readM {A} (rd : Pymem → Z → result A) (address : Z) : M A :=
  λ self, (Some <$> rd (pm self) address, self).
Definition callM {A} (f : MemoryReader → result A * MemoryReader) : M A :=
  λ self, let '(r, self') := f self in (Some <$> r, self').
Definition require (b : bool) : M unit := if b then retM tt else return_None.

Notation "x <~ m ;; k" := (bindM m (λ x, k))
  (at level 100, m at next level, right associativity).

Definition initial_stats : gmap string pyval :=
  <["player_hp" := PInt 0]> (<["player_max_hp" := PInt 0]> (
  <["player_mp" := PInt 0]> (<["player_max_mp" := PInt 0]> (
  <["player_hp_percent" := PInt 0]> (<["player_mp_percent" := PInt 0]> (
  <["player_level" := PInt 0]> (
  <["target_hp" := PInt 0]> (<["target_max_hp" := PInt 0]> (
  <["target_hp_percent" := PInt 0]> (<["target_level" := PInt 0]> (
  <["has_target" := PBool false]> (<["target_name" := PStr ""]> (
  <["combo_points" := PInt 0]> ∅))))))))))))).

(** [stats[key] = round((value / max) * 100)] under [if max > 0]. *)
Definition set_percent (key : string) (value max : Z) (stats : gmap string pyval)
  : M (gmap string pyval) :=
  if max >? 0 then
    p <~ liftM (percent value max) ;;
    retM (<[key := PInt p]> stats)
  else retM stats.

(** What [set_percent] leaves in the dictionary when it stores [p]. *)
Definition with_percent (key : string) (max p : Z) (stats : gmap string pyval)
  : gmap string pyval :=
  if max >? 0 then <[key := PInt p]> stats else stats.

(** The keys of the snapshot and the type of the value under each key. *)
Definition numeric_fields : list string :=
  ["player_hp"; "player_max_hp"; "player_mp"; "player_max_mp";
   "player_hp_percent"; "player_mp_percent"; "player_level";
   "target_hp"; "target_max_hp"; "target_hp_percent"; "target_level";
   "combo_points"].

Definition schema : list string := numeric_fields ++ ["has_target"; "target_name"].

Definition field_typed (key : string) (v : pyval) : Prop :=
  match v with
  | PInt _ => key ∈ numeric_fields
  | PBool _ => key = "has_target"
  | PStr _ => key = "target_name"
  | PNone | PFloat _ => False
  end.

Definition has_schema (stats : gmap string pyval) : Prop :=
  ∀ key,
    (key ∈ schema → ∃ v, stats !! key = Some v ∧ field_typed key v) ∧
    (key ∉ schema → stats !! key = None).

(** The dictionary after the player part, when it runs to its end. *)
Definition player_stats (combo hp max_hp mp max_mp level php pmp : Z)
    (stats : gmap string pyval) : gmap string pyval :=
  with_percent "player_mp_percent" max_mp pmp (
  with_percent "player_hp_percent" max_hp php (
  <["player_level" := PInt level]> (<["player_max_mp" := PInt max_mp]> (
  <["player_mp" := PInt mp]> (<["player_max_hp" := PInt max_hp]> (
  <["player_hp" := PInt hp]> (<["combo_points" := PInt combo]> stats))))))).

(** The dictionary after the target's descriptor fields were read. *)
Definition target_stats (hp max_hp level p : Z) (stats : gmap string pyval)
  : gmap string pyval :=
  with_percent "target_hp_percent" max_hp p (
  <["target_level" := PInt level]> (<["target_max_hp" := PInt max_hp]> (
  <["target_hp" := PInt hp]> stats))).

(** The target's descriptor can be read: its pointer, and behind a pointer
    that is not null the three fields. *)
Definition target_fields_readable (p : Pymem) (target_base : Z) : bool :=
  match read_uint p (target_base + M_STORAGE_OFFSET) with
  | Raise _ => false
  | Ok target_desc_ptr =>
      (target_desc_ptr =? 0)
      || (is_ok (read_int p (target_desc_ptr + UNIT_FIELD_HEALTH))
          && is_ok (read_int p (target_desc_ptr + UNIT_FIELD_MAXHEALTH))
          && is_ok (read_int p (target_desc_ptr + UNIT_FIELD_LEVEL)))
  end.

(** The target fields of a snapshot are all at their initial zero. *)
Definition zero_target_stats (stats : gmap string pyval) : Prop :=
  stats !! "target_hp" = Some (PInt 0) ∧
  stats !! "target_max_hp" = Some (PInt 0) ∧
  stats !! "target_hp_percent" = Some (PInt 0) ∧
  stats !! "target_level" = Some (PInt 0).

(** A derived percent field agrees with its value and maximum fields. *)
Definition percent_field_ok (value_key max_key percent_key : string)
    (stats : gmap string pyval) : Prop :=
  ∃ v mx p,
    stats !! value_key = Some (PInt v) ∧
    stats !! max_key = Some (PInt mx) ∧
    stats !! percent_key = Some (PInt p) ∧
    if mx >? 0 then percent v mx = Ok p else p = 0.

(** Lines 410-433: the object manager, the combo points and the player. *)
Definition read_player (stats : gmap string pyval) : M (gmap string pyval) :=
  obj_mgr <~ callM (λ self, let '(b, self') := _get_object_manager_base self in (Ok b, self')) ;;
  _ <~ require (negb (obj_mgr =? 0)) ;;
  combo_points <~ readM read_uchar COMBO_POINTS_STATIC ;;
  let stats := <["combo_points" := PInt combo_points]> stats in
  player_guid <~ readM read_ulonglong (obj_mgr + LOCAL_GUID_OFFSET) ;;
  _ <~ require (negb (player_guid =? 0)) ;;
  player_base <~ callM (λ self, _find_object_base_by_guid self player_guid) ;;
  _ <~ require (negb (player_base =? 0)) ;;
  descriptor_ptr <~ readM read_uint (player_base + M_STORAGE_OFFSET) ;;
  _ <~ require (negb (descriptor_ptr =? 0)) ;;
  player_hp <~ readM read_int (descriptor_ptr + UNIT_FIELD_HEALTH) ;;
  let stats := <["player_hp" := PInt player_hp]> stats in
  player_max_hp <~ readM read_int (descriptor_ptr + UNIT_FIELD_MAXHEALTH) ;;
  let stats := <["player_max_hp" := PInt player_max_hp]> stats in
  player_mp <~ readM read_int (descriptor_ptr + UNIT_FIELD_POWER1) ;;
  let stats := <["player_mp" := PInt player_mp]> stats in
  player_max_mp <~ readM read_int (descriptor_ptr + UNIT_FIELD_MAXPOWER1) ;;
  let stats := <["player_max_mp" := PInt player_max_mp]> stats in
  player_level <~ readM read_int (descriptor_ptr + UNIT_FIELD_LEVEL) ;;
  let stats := <["player_level" := PInt player_level]> stats in
  stats <~ set_percent "player_hp_percent" player_hp player_max_hp stats ;;
  set_percent "player_mp_percent" player_mp player_max_mp stats.

(** Lines 442-446: the target's descriptor fields. *)
Definition read_target_fields (target_desc_ptr : Z) (stats : gmap string pyval)
  : M (gmap string pyval) :=
  target_hp <~ readM read_int (target_desc_ptr + UNIT_FIELD_HEALTH) ;;
  let stats := <["target_hp" := PInt target_hp]> stats in
  target_max_hp <~ readM read_int (target_desc_ptr + UNIT_FIELD_MAXHEALTH) ;;
  let stats := <["target_max_hp" := PInt target_max_hp]> stats in
  target_level <~ readM read_int (target_desc_ptr + UNIT_FIELD_LEVEL) ;;
  let stats := <["target_level" := PInt target_level]> stats in
  set_percent "target_hp_percent" target_hp target_max_hp stats.

(** Lines 448-452, the body of the inner [try]: [Ok None] when a pointer of
    the chain is null and the name is left as it was. *)
Definition target_name_chain (p : Pymem) (target_base : Z) : result (option string) :=
  name_ptr_1 ← read_uint p (target_base + UNIT_NAME_1);
  if name_ptr_1 =? 0 then Ok None
  else
    name_ptr_2 ← read_uint p (name_ptr_1 + UNIT_NAME_2);
    if name_ptr_2 =? 0 then Ok None
    else Some <$> read_string p name_ptr_2.

(** Lines 447-454: the inner [try] with its handler. *)
Definition read_target_name (p : Pymem) (target_base : Z) (stats : gmap string pyval)
  : gmap string pyval :=
  match target_name_chain p target_base with
  | Ok (Some name) => <["target_name" := PStr name]> stats
  | Ok None => stats
  | Raise _ => <["target_name" := PStr ""]> stats
  end.

(** Lines 435-456: the current target. *)
Definition read_target (stats : gmap string pyval) : M (gmap string pyval) :=
  target_guid <~ readM read_ulonglong TARGET_GUID_STATIC ;;
  if target_guid >? 0 then
    let stats := <["has_target" := PBool true]> stats in
    target_base <~ callM (λ self, _find_object_base_by_guid self target_guid) ;;
    if negb (target_base =? 0) then
      target_desc_ptr <~ readM read_uint (target_base + M_STORAGE_OFFSET) ;;
      stats <~ (if negb (target_desc_ptr =? 0)
                then read_target_fields target_desc_ptr stats
                else retM stats) ;;
      λ self, retM (read_target_name (pm self) target_base stats) self
    else retM stats
  else retM (<["has_target" := PBool false]> stats).

(** The [try] block of [get_combat_stats]. *)
Definition get_combat_stats_body : M (gmap string pyval) :=
  stats <~ read_player initial_stats ;;
  read_target stats.

(** Computations of the snapshot that cannot end in a [ZeroDivisionError]. *)
Definition no_zero_division {A} (m : M A) : Prop :=
  ∀ self self', m self ≠ (Raise ZeroDivisionError, self').

(** [get_combat_stats]: the handler turns every exception into [None]. *)
Definition get_combat_stats (self : MemoryReader)
  : option (gmap string pyval) * MemoryReader :=
  match get_combat_stats_body self with
  | (Ok r, self') => (r, self')
  | (Raise _, self') => (None, self')
  end.

(** Computations of the snapshot that leave the reader as it is once the
    object manager was looked up: a reader that a lookup of the manager
    does not change comes out of them unchanged. *)
Definition keeps_reader {A} (m : M A) : Prop :=
  ∀ self, (_get_object_manager_base self).2 = self → (m self).2 = self.

End MemoryReader.
Import MemoryReader.

(** ** The controller *)

Module BoxChampController.

(** *** Configuration records (the fields the engine reads) *)

Record Condition : Type := {
  stat : string;
  operator : string;
  value : pyval
}.

Record RotationRule : Type := {
  keys_to_press : list string;
  conditions : list Condition
}.

Record CombatRotation : Type := {
  rotation_name : string;
  rules : list RotationRule;
  loop_interval : Q
}.

Record SlotConfig : Type := {
  character_name : string;
  assigned_rotation : option string
}.

Record Macro : Type := {
  macro_name : string;
  target : string;
  slots : list string;
  rr_index : Z
}.

Definition set_rr_index (m : Macro) (i : Z) : Macro :=
  {| macro_name := macro_name m; target := target m; slots := slots m; rr_index := i |}.


Definition VALID_OPERATORS : list string := ["<"; ">"; "=="; "!="; "<="; ">="].

(** *** Virtual key codes and posted messages *)

Definition VK_CODE_MAP : gmap string Z :=
  list_to_map [
    ("backspace", 0x08); ("tab", 0x09); ("enter", 0x0D); ("shift", 0x10); ("ctrl", 0x11);
    ("alt", 0x12); ("pause", 0x13); ("caps_lock", 0x14); ("esc", 0x1B); ("space", 0x20);
    ("page_up", 0x21); ("page_down", 0x22); ("end", 0x23); ("home", 0x24);
    ("left", 0x25); ("up", 0x26); ("right", 0x27); ("down", 0x28); ("print_screen", 0x2C);
    ("insert", 0x2D); ("delete", 0x2E);
    ("0", 0x30); ("1", 0x31); ("2", 0x32); ("3", 0x33); ("4", 0x34); ("5", 0x35); ("6", 0x36);
    ("7", 0x37); ("8", 0x38); ("9", 0x39);
    ("a", 0x41); ("b", 0x42); ("c", 0x43); ("d", 0x44); ("e", 0x45); ("f", 0x46); ("g", 0x47);
    ("h", 0x48); ("i", 0x49); ("j", 0x4A); ("k", 0x4B); ("l", 0x4C); ("m", 0x4D); ("n", 0x4E);
    ("o", 0x4F); ("p", 0x50); ("q", 0x51); ("r", 0x52); ("s", 0x53); ("t", 0x54); ("u", 0x55);
    ("v", 0x56); ("w", 0x57); ("x", 0x58); ("y", 0x59); ("z", 0x5A);
    ("f1", 0x70); ("f2", 0x71); ("f3", 0x72); ("f4", 0x73); ("f5", 0x74); ("f6", 0x75);
    ("f7", 0x76); ("f8", 0x77); ("f9", 0x78); ("f10", 0x79); ("f11", 0x7A); ("f12", 0x7B);
    ("numpad_0", 0x60); ("numpad_1", 0x61); ("numpad_2", 0x62); ("numpad_3", 0x63);
    ("numpad_4", 0x64); ("numpad_5", 0x65); ("numpad_6", 0x66); ("numpad_7", 0x67);
    ("numpad_8", 0x68); ("numpad_9", 0x69);
    ("multiply", 0x6A); ("add", 0x6B); ("separator", 0x6C); ("subtract", 0x6D);
    ("decimal", 0x6E); ("divide", 0x6F)
  ].

Definition WM_KEYDOWN : Z := 0x0100.
Definition WM_KEYUP : Z := 0x0101.

(** What the engine does to the outside: a key message posted to a window
    (its [lParam] is a function of the key code and of the message) and the
    pauses between the messages. *)
Inductive event : Type :=
  | PostMessage (hwnd : Z) (msg : Z) (vk_code : Z)
  | sleep (seconds : Q).

(** [_post_key_event]: an unmapped key is logged and posts nothing. *)
Definition _post_key_event (hwnd : Z) (key : string) (event_type : string) : list event :=
  match VK_CODE_MAP !! lower key with
  | None => []
  | Some vk_code =>
      let msg := if String.eqb event_type "down" then WM_KEYDOWN else WM_KEYUP in
      [PostMessage hwnd msg vk_code]
  end.

Definition _broadcast_key_event (key : string) (targets : list Z) (event_type : string)
  : list event :=
  hwnd ← targets; _post_key_event hwnd key event_type.

(** *** Condition evaluation *)

(** [{slot.character_name.lower() for slot in self.cfg.slots.values()
     if slot.character_name}]. *)
Definition own_character_names (cfg_slots : gmap string SlotConfig) : gset string :=
  list_to_set (lower <$> filter (λ n, n ≠ "") (character_name <$> (map_to_list cfg_slots).*2)).

Definition op_map (op : string) : option (pyval → pyval → result bool) :=
  if String.eqb op "<" then Some py_lt
  else if String.eqb op ">" then Some py_gt
  else if String.eqb op "==" then Some (λ a b, Ok (py_eq a b))
  else if String.eqb op "!=" then Some (λ a b, Ok (py_ne a b))
  else if String.eqb op "<=" then Some py_le
  else if String.eqb op ">=" then Some py_ge
  else None.

(** [stats.get(key)] treats a missing key and a stored [None] alike. *)
Definition stats_get (stats : gmap string pyval) (key : string) : pyval :=
  default PNone (stats !! key).

Section Evaluation.

Variable bi : Builtins.
Variable cfg_slots : gmap string SlotConfig.

Definition _check_condition (condition : Condition) (stats : gmap string pyval)
  : result bool :=
  let stat_value := stats_get stats (stat condition) in
  match stat_value with
  | PNone => Ok false
  | _ =>
      if String.eqb (stat condition) "has_target"
         || String.eqb (stat condition) "target_is_own_character"
      then
        expected_bool ← py_gt (value condition) (PInt 0);
        is_true ←
          (if String.eqb (stat condition) "has_target" then Ok stat_value
           else
             target_name ← py_lower (default (PStr "") (stats !! "target_name"));
             if String.eqb target_name "" then Ok (PBool false)
             else Ok (PBool (bool_decide (target_name ∈ own_character_names cfg_slots))));
        if String.eqb (operator condition) "==" then Ok (py_eq is_true (PBool expected_bool))
        else if String.eqb (operator condition) "!=" then Ok (py_ne is_true (PBool expected_bool))
        else Ok false
      else if String.eqb (stat condition) "target_name" then
        let stat_str := lower (py_str bi stat_value) in
        let cond_str := lower (py_str bi (value condition)) in
        if String.eqb (operator condition) "==" then Ok (String.eqb stat_str cond_str)
        else if String.eqb (operator condition) "!=" then Ok (negb (String.eqb stat_str cond_str))
        else Ok false
      else
        match op_map (operator condition) with
        | None => Ok false
        | Some op =>
            match py_float bi (value condition) with
            | Raise ValueError | Raise TypeError => Ok false
            | Raise e => Raise e
            | Ok numeric_value => op stat_value (PFloat numeric_value)
            end
        end
  end.

(** [all(self._check_condition(cond, stats) for cond in rule.conditions)]:
    the generator stops at the first false condition. *)
Fixpoint all_conditions_met (conds : list Condition) (stats : gmap string pyval)
  : result bool :=
  match conds with
  | [] => Ok true
  | cond :: rest =>
      _check_condition cond stats ≫= λ met : bool,
        if met then all_conditions_met rest stats else Ok false
  end.

(** *** The rotation engine *)

(** The key presses of a firing rule (lines 1220-1224). *)
Definition fire_keys (hwnd : Z) (keys : list string) : list event :=
  key_to_press ← keys;
  _broadcast_key_event key_to_press [hwnd] "down" ++ [sleep (5 # 100)]
  ++ _broadcast_key_event key_to_press [hwnd] "up" ++ [sleep (5 # 100)].

(** The [for rule in rotation.rules] loop with its [break]: the rule that
    fired, if any. *)
Fixpoint first_matching_rule (rules : list RotationRule) (stats : gmap string pyval)
  : result (option RotationRule) :=
  match rules with
  | [] => Ok None
  | rule :: rest =>
      all_conditions_met (conditions rule) stats ≫= λ all_met : bool,
        if all_met then Ok (Some rule) else first_matching_rule rest stats
  end.

End Evaluation.

(** What one client meets on one pass of the loop: the two readings of the
    clock (at the interval check and after the keys were sent) and what
    [reader.get_combat_stats() if reader else None] gave. *)
Record client_env : Type := {
  t_check : Q;
  snapshot : option (gmap string pyval);
  t_fire : Q
}.

Record outcome : Type := {
  fired : option RotationRule;
  events : list event
}.

Definition idle : outcome := {| fired := None; events := [] |}.

Definition Qltb (a b : Q) : bool := negb (Qle_bool b a).

(** Lines 1208-1226, the body of [for hwnd, rotation in active_clients.items()]. *)
Definition rotation_client (bi : Builtins) (cfg_slots : gmap string SlotConfig)
    (client_rotation_map : gmap Z (CombatRotation * Q))
    (hwnd : Z) (rotation : CombatRotation) (env : client_env)
  : result (outcome * gmap Z (CombatRotation * Q)) :=
  let last_exec_time := default 0%Q (snd <$> client_rotation_map !! hwnd) in
  if Qltb (t_check env - last_exec_time)%Q (loop_interval rotation)
  then Ok (idle, client_rotation_map)
  else
    match snapshot env with
    | None => Ok (idle, client_rotation_map)
    | Some stats =>
        if bool_decide (stats = ∅) then Ok (idle, client_rotation_map)
        else
          r ← first_matching_rule bi cfg_slots (rules rotation) stats;
          match r with
          | None => Ok (idle, client_rotation_map)
          | Some rule =>
              Ok ({| fired := Some rule; events := fire_keys hwnd (keys_to_press rule) |},
                  <[hwnd := (rotation, t_fire env)]> client_rotation_map)
          end
    end.

(** One client visit of the engine thread: the configuration it sees, the
    window, its rotation and the environment. *)
Record visit : Type := {
  v_slots : gmap string SlotConfig;
  v_hwnd : Z;
  v_rotation : CombatRotation;
  v_env : client_env
}.

(** The engine thread as the sequence of its client visits, in the order in
    which the passes of the [while] loop make them.  An exception that
    escapes a visit ends the thread: the visits after it do not happen. *)
Fixpoint engine_run (bi : Builtins) (visits : list visit)
    (client_rotation_map : gmap Z (CombatRotation * Q))
  : list outcome * gmap Z (CombatRotation * Q) :=
  match visits with
  | [] => ([], client_rotation_map)
  | v :: rest =>
      match rotation_client bi (v_slots v) client_rotation_map
              (v_hwnd v) (v_rotation v) (v_env v) with
      | Raise _ => ([], client_rotation_map)
      | Ok (o, client_rotation_map') =>
          let '(os, final) := engine_run bi rest client_rotation_map' in
          (o :: os, final)
      end
  end.

(** The timestamp that a client visit reads from [client_rotation_map]. *)
Definition last_exec_time (client_rotation_map : gmap Z (CombatRotation * Q)) (hwnd : Z) : Q :=
  default 0%Q (snd <$> client_rotation_map !! hwnd).

(** The clock never runs backwards over a sequence of visits: within a
    visit the second reading is not before the first, and a later visit
    reads the clock after the visits before it. *)
Definition clock_monotone (visits : list visit) : Prop :=
  (∀ i v, visits !! i = Some v → (t_check (v_env v) <= t_fire (v_env v))%Q) ∧
  (∀ i j vi vj, (i < j)%nat → visits !! i = Some vi → visits !! j = Some vj →
     (t_fire (v_env vi) <= t_check (v_env vj))%Q).

(** Lines 1198-1205: the clients with an assigned rotation, as the
    insertion-ordered dictionary [active_clients]. *)
Fixpoint dict_set {V} (k : Z) (v : V) (d : list (Z * V)) : list (Z * V) :=
  match d with
  | [] => [(k, v)]
  | (k', v') :: d' => if k' =? k then (k, v) :: d' else (k', v') :: dict_set k v d'
  end.

Definition active_clients (is_window : Z → bool)
    (cfg_slots : gmap string SlotConfig) (cfg_rotations : gmap string CombatRotation)
    (proc_hwnd : list (string * Z)) : list (Z * CombatRotation) :=
  foldl (λ active '(slot_name, hwnd),
    if negb (is_window hwnd) then active
    else
      match cfg_slots !! slot_name with
      | None => active
      | Some slot_cfg =>
          match assigned_rotation slot_cfg with
          | None => active
          | Some r =>
              if String.eqb r "" then active
              else
                match cfg_rotations !! r with
                | None => active
                | Some rotation => dict_set hwnd rotation active
                end
          end
      end) [] proc_hwnd.

(** One pass of the [while] loop as client visits; [env] is what each
    client meets on this pass. *)
Definition engine_pass (is_window : Z → bool)
    (cfg_slots : gmap string SlotConfig) (cfg_rotations : gmap string CombatRotation)
    (proc_hwnd : list (string * Z)) (env : Z → client_env) : list visit :=
  (λ client : Z * CombatRotation,
     {| v_slots := cfg_slots; v_hwnd := client.1; v_rotation := client.2;
        v_env := env client.1 |})
  <$> active_clients is_window cfg_slots cfg_rotations proc_hwnd.

(** *** Macro targets *)

Record Controller : Type := {
  hwnds : list Z;
  main_hwnd : option Z;
  proc_hwnd : gmap string Z;
  _rr_state : gmap string Z;
  macros : gmap string Macro
}.

Definition set_rr_state (self : Controller) (st : gmap string Z) : Controller :=
  {| hwnds := hwnds self; main_hwnd := main_hwnd self; proc_hwnd := proc_hwnd self;
     _rr_state := st; macros := macros self |}.

(** [[h for h in self.hwnds if h != self.main_hwnd]]. *)
Definition non_main (self : Controller) : list Z :=
  filter (λ h, Some h ≠ main_hwnd self) (hwnds self).

(** [[h for h in self.hwnds if h != self.main_hwnd] or self.hwnds[:1]]. *)
Definition rr_array (self : Controller) : list Z :=
  match non_main self with
  | [] => take 1 (hwnds self)
  | arr => arr
  end.

(** [[arr[idx]]]; the index is always in range where this is used. *)
Definition item (arr : list Z) (idx : Z) : list Z :=
  match arr !! Z.to_nat idx with
  | Some h => [h]
  | None => []
  end.

Definition truthy_handle (h : option Z) : option Z :=
  match h with
  | Some 0 | None => None
  | Some h => Some h
  end.

Definition _targets_for (self : Controller) (target : string) (named_slots : list string)
  : list Z * Controller :=
  match hwnds self with
  | [] => ([], self)
  | _ =>
      if String.eqb target "main" then
        (match truthy_handle (main_hwnd self) with Some h => [h] | None => [] end, self)
      else if String.eqb target "all" then (hwnds self, self)
      else if String.eqb target "all_except_main" then (non_main self, self)
      else if String.eqb target "slots" then
        (omap (λ s, truthy_handle (proc_hwnd self !! s)) named_slots, self)
      else if String.eqb target "round_robin" then
        let arr := rr_array self in
        match arr with
        | [] => ([], self)
        | _ =>
            let key := "__rr_default__" in
            let idx := default 0 (_rr_state self !! key) mod Z.of_nat (length arr) in
            (item arr idx, set_rr_state self (<[key := idx + 1]> (_rr_state self)))
        end
      else (hwnds self, self)
  end.

(** [_run_macro_body] up to the step loop: the windows the steps of the
    macro are then played to ([None] when it returns before playing), the
    controller and the macro object as the call leaves them. *)
Definition _run_macro_body (self : Controller) (m : Macro)
  : option (list Z) * Controller * Macro :=
  let '(targets, self) := _targets_for self (target m) (slots m) in
  match targets with
  | [] => (None, self, m)
  | _ =>
      if String.eqb (target m) "round_robin" then
        let arr := rr_array self in
        match arr with
        | [] => (None, self, m)
        | _ =>
            let idx := rr_index m mod Z.of_nat (length arr) in
            let targets := item arr idx in
            (Some targets, self, set_rr_index m ((rr_index m + 1) mod Z.of_nat (length arr)))
        end
      else (Some targets, self, m)
  end.

(** [_fire]: the macro object is looked up by name in [cfg.macros] and the
    body mutates that very object. *)
Definition _fire (self : Controller) (name : string) : option (list Z) * Controller :=
  match macros self !! name with
  | None => (None, self)
  | Some m =>
      let '(r, self, m) := _run_macro_body self m in
      (r, {| hwnds := hwnds self; main_hwnd := main_hwnd self; proc_hwnd := proc_hwnd self;
             _rr_state := _rr_state self; macros := <[name := m]> (macros self) |})
  end.

(** How often [name] occurs among the first [i] invocations. *)
Definition fired_before (names : list string) (name : string) (i : nat) : Z :=
  Z.of_nat (length (filter (λ n, n = name) (take i names))).

(** Successive invocations, one after the other. *)
Fixpoint fire_all (self : Controller) (names : list string)
  : list (option (list Z)) * Controller :=
  match names with
  | [] => ([], self)
  | name :: rest =>
      let '(r, self) := _fire self name in
      let '(rs, self) := fire_all self rest in
      (r :: rs, self)
  end.

(** *** Conditions that evaluate without an exception *)

(** The literal of a condition is a number that [float] and the comparison
    with 0 accept (an integer below [2 ^ 53] in magnitude, a boolean, a
    float), or it is a string or [None] and the statistic is not
    [has_target]. *)
Definition safe_literal (condition : Condition) : Prop :=
  match value condition with
  | PInt z => Z.abs z < 2 ^ 53
  | PBool _ | PFloat _ => True
  | PStr _ | PNone => stat condition ≠ "has_target"
  end.

Definition safe_rotation (rotation : CombatRotation) : Prop :=
  Forall (λ rule, Forall safe_literal (conditions rule)) (rules rotation).

(** [stats = reader.get_combat_stats() if reader else None]: what a client
    visit sees is [None] or the result of a reader. *)
Definition from_reader (env : client_env) : Prop :=
  snapshot env = None ∨ ∃ reader, snapshot env = (get_combat_stats reader).1.

(** The key messages among the events, as opposed to the pauses. *)
Definition is_post (e : event) : bool :=
  match e with PostMessage _ _ _ => true | sleep _ => false end.

(** The slot [slot_name] has the live window [hwnd] and is assigned the
    existing rotation [rotation]: the tests of lines 1200-1204. *)
Definition drives (is_window : Z → bool)
    (cfg_slots : gmap string SlotConfig) (cfg_rotations : gmap string CombatRotation)
    (slot_name : string) (hwnd : Z) (rotation : CombatRotation) : Prop :=
  is_window hwnd = true ∧
  ∃ slot_cfg r,
    cfg_slots !! slot_name = Some slot_cfg ∧ assigned_rotation slot_cfg = Some r ∧
    r ≠ "" ∧ cfg_rotations !! r = Some rotation.


(** *** The window registry *)

(** [l.remove(x)] where [x] is in [l]: the first occurrence goes. *)
Fixpoint remove_first (x : Z) (l : list Z) : list Z :=
  match l with
  | [] => []
  | y :: l' => if y =? x then l' else y :: remove_first x l'
  end.

(** Lines 702-708 of [refresh_clients]: the live windows of the slots of
    the running set, in the order of the slots, each one once. *)
Definition managed_windows (is_window : Z → bool) (proc_hwnd : gmap string Z)
    (slots : list string) : list Z :=
  foldl (λ sorted_managed_hwnds slot_name,
    match proc_hwnd !! slot_name with
    | Some hwnd =>
        if negb (hwnd =? 0) && is_window hwnd
           && negb (bool_decide (hwnd ∈ sorted_managed_hwnds))
        then sorted_managed_hwnds ++ [hwnd]
        else sorted_managed_hwnds
    | None => sorted_managed_hwnds
    end) [] slots.

(** What [refresh_clients] sees of the outside: which handles are windows,
    the slots of the running set ([None] = no set is running) and the
    result of [enum_windows_by_title]. *)
Record Environment : Type := {
  IsWindow : Z → bool;
  running_set : option (list string);
  enumerated : list Z
}.

(** The list [sorted_managed_hwnds + unmanaged_hwnds] of line 713. *)
Definition found_windows (env : Environment) (self : Controller) : list Z :=
  let sorted_managed_hwnds :=
    match running_set env with
    | Some slots => managed_windows (IsWindow env) (proc_hwnd self) slots
    | None => []
    end in
  sorted_managed_hwnds
  ++ filter (λ h, h ∉ sorted_managed_hwnds) (enumerated env).

Definition set_windows (self : Controller) (l : list Z) (main : option Z) : Controller :=
  {| hwnds := l; main_hwnd := main; proc_hwnd := proc_hwnd self;
     _rr_state := _rr_state self; macros := macros self |}.

(** [refresh_clients], up to the signals it emits. *)
Definition refresh_clients (env : Environment) (self : Controller) : Controller :=
  let hwnds0 := found_windows env self in
  let hwnds1 :=
    match main_hwnd self with
    | Some main =>
        if bool_decide (main ∈ hwnds0) then main :: remove_first main hwnds0 else hwnds0
    | None => hwnds0
    end in
  let main :=
    match hwnds1 with
    | [] => None
    | first :: _ =>
        match main_hwnd self with
        | None => Some first
        | Some main => if bool_decide (main ∈ hwnds1) then Some main else Some first
        end
    end in
  set_windows self hwnds1 main.

(** [make_main]; [apply_layout_ok] tells whether [apply_layout] returns
    (it calls the monitor enumeration, which can raise); when it does not,
    the exception leaves [make_main] before the registry is refreshed.  The
    second component tells whether the call returned. *)
Definition make_main (env : Environment) (apply_layout_ok : bool)
    (self : Controller) (hwnd : Z) : Controller * bool :=
  if negb (bool_decide (hwnd ∈ hwnds self)) then (self, true)
  else
    let self := set_windows self (hwnd :: remove_first hwnd (hwnds self)) (Some hwnd) in
    if apply_layout_ok then (refresh_clients env self, true) else (self, false).

(** [cycle_main]. *)
Definition cycle_main (env : Environment) (apply_layout_ok : bool)
    (self : Controller) : Controller * bool :=
  match hwnds self with
  | _ :: second :: _ => make_main env apply_layout_ok self second
  | _ => (self, true)
  end.


(** *** The keyboard broadcast *)

(** The settings that the keyboard hook reads; [reserved_hotkeys] lists the
    set [_reserved_hotkeys] in the order in which the hook iterates it. *)
Record BroadcastSettings : Type := {
  broadcast_only_when_client_focused : bool;
  broadcast_all_keys : bool;
  broadcast_enabled : bool;
  whitelist : list string;
  auto_assist_enabled : bool;
  auto_assist_prefix_keys : list string;
  reserved_hotkeys : list string
}.

(** What one call of the hook meets: the two readings of the foreground
    window (in [_is_client_fg] and in the hook itself) and
    [keyboard.is_pressed], which raises on a name it cannot parse. *)
Record key_env : Type := {
  fg_at_check : Z;
  fg_hwnd : Z;
  key_is_pressed : string → option bool
}.

(** A hooked keyboard event. *)
Record key_event : Type := {
  key_name : option string;
  key_event_type : string
}.

Definition MODIFIER_KEYS : list string :=
  ["shift"; "ctrl"; "alt"; "left windows"; "right windows"; "windows"; "win";
   "umschalt"; "strg"; "linke windows"].

(** [_is_client_fg]. *)
Definition _is_client_fg (settings : BroadcastSettings) (hwnds : list Z) (env : key_env)
  : bool :=
  if negb (broadcast_only_when_client_focused settings) then true
  else bool_decide (fg_at_check env ∈ hwnds).

(** The loop over the reserved hotkeys inside its [try]: true when it
    returns from the hook; an exception ends the loop without that. *)
Fixpoint reserved_pressed (is_pressed : string → option bool) (hotkeys : list string)
  : bool :=
  match hotkeys with
  | [] => false
  | hk :: rest =>
      if String.eqb hk "" then reserved_pressed is_pressed rest
      else
        match is_pressed hk with
        | Some true => true
        | Some false => reserved_pressed is_pressed rest
        | None => false
        end
  end.

(** [on_key]: the events it causes and the set [_broadcast_keys_down] as it
    leaves it. *)
Definition on_key (settings : BroadcastSettings) (hwnds : list Z)
    (_broadcast_keys_down : gset string) (env : key_env) (e : key_event)
  : list event * gset string :=
  if negb (_is_client_fg settings hwnds env) then ([], _broadcast_keys_down)
  else
    let targets_to_broadcast := filter (λ h, h ≠ fg_hwnd env) hwnds in
    let name := lower (default "" (key_name e)) in
    let event_type := key_event_type e in
    if bool_decide (name ∈ _broadcast_keys_down) && String.eqb event_type "down"
    then ([], _broadcast_keys_down)
    else
      let _broadcast_keys_down :=
        if String.eqb event_type "down" then {[ name ]} ∪ _broadcast_keys_down
        else if String.eqb event_type "up" then _broadcast_keys_down ∖ {[ name ]}
        else _broadcast_keys_down in
      let events :=
        if broadcast_all_keys settings then
          if negb (bool_decide (name ∈ MODIFIER_KEYS))
          then _broadcast_key_event name targets_to_broadcast event_type
          else []
        else if negb (broadcast_enabled settings) then []
        else if bool_decide (name ∈ MODIFIER_KEYS) then []
        else if reserved_pressed (key_is_pressed env) (reserved_hotkeys settings) then []
        else if bool_decide (name ∈ (lower <$> whitelist settings)) then
          match targets_to_broadcast with
          | [] => []
          | _ =>
              if auto_assist_enabled settings && String.eqb event_type "down" then
                (prefix_key ← auto_assist_prefix_keys settings;
                 _broadcast_key_event prefix_key targets_to_broadcast "down"
                 ++ [sleep (5 # 100)]
                 ++ _broadcast_key_event prefix_key targets_to_broadcast "up"
                 ++ [sleep (5 # 100)])
                ++ _broadcast_key_event name targets_to_broadcast "down"
                ++ [sleep (5 # 100)]
                ++ _broadcast_key_event name targets_to_broadcast "up"
              else if negb (auto_assist_enabled settings)
              then _broadcast_key_event name targets_to_broadcast event_type
              else []
          end
        else [] in
      (events, _broadcast_keys_down).

(** The hook over a sequence of events, each with what it meets. *)
Fixpoint on_keys (settings : BroadcastSettings) (hwnds : list Z)
    (_broadcast_keys_down : gset string) (calls : list (key_env * key_event))
  : list (list event) * gset string :=
  match calls with
  | [] => ([], _broadcast_keys_down)
  | (env, e) :: rest =>
      let '(events, _broadcast_keys_down) := on_key settings hwnds _broadcast_keys_down env e in
      let '(more, _broadcast_keys_down) := on_keys settings hwnds _broadcast_keys_down rest in
      (events :: more, _broadcast_keys_down)
  end.


(** *** Looping macros (lines 1113-1137)

    The stop event of a loop is set by other threads; [is_set ev i] is what
    [stop_evt.is_set()] answers at the head of pass [i] of the loop
    (counted from 0) and [wait ev i] what [stop_evt.wait(...)] answers at
    the end of that pass. *)
Record stop_event : Type := {
  is_set : nat → bool;
  wait : nat → bool
}.

(** Truth value of [m.loop_count], an optional integer. *)
Definition loop_count_truthy (loop_count : option Z) : bool :=
  match loop_count with
  | Some n => negb (n =? 0)
  | None => false
  end.

(** The [while] loop of [_loop], entered with the counter [i]: the value of
    the counter when the loop is left, which is the number of calls of
    [run_macro] so far; [None] when the loop has not ended after [fuel]
    passes. *)
Fixpoint _loop (fuel : nat) (loop_count : option Z) (ev : stop_event) (i : nat)
  : option nat :=
  match fuel with
  | O => None
  | S fuel =>
      if is_set ev i then Some i
      else
        let i' := S i in
        if loop_count_truthy loop_count && (default 0 loop_count <=? Z.of_nat i') then Some i'
        else if wait ev i then Some i'
        else _loop fuel loop_count ev i'
  end.

End BoxChampController.
Import BoxChampController.

(** ** Win32 helpers and the mouse broadcast *)

Module Win32.

(** [_mk_lparam]: [(y << 16) | (x & 0xFFFF)] on unbounded integers. *)
Definition _mk_lparam (x y : Z) : Z := Z.lor (Z.shiftl y 16) (Z.land x 0xFFFF).

(** What the window system answers to the calls of the mouse path; [None]
    stands for a call that raises.
    - [GetClientRect hwnd] is the tuple [(left, top, right, bottom)];
    - [ClientToScreen hwnd] is the screen position of the client point (0, 0);
    - [PostMessage_ok hwnd] tells whether a message can be posted to [hwnd];
    - [GetForegroundWindow] and [GetCursorPos] do not fail;
    - [is_pressed name] is [keyboard.is_pressed], which raises on a name it
      cannot parse. *)
Record Desktop : Type := {
  GetClientRect : Z → option (Z * Z * Z * Z);
  GetWindowRect : Z → option (Z * Z * Z * Z);
  ClientToScreen : Z → option (Z * Z);
  PostMessage_ok : Z → bool;
  GetForegroundWindow : Z;
  GetCursorPos : Z * Z;
  is_pressed : string → option bool
}.

(** [client_rect]: position of the client area and its size; the fourth
    component is [r[3] - r[0]]. *)
Definition client_rect (d : Desktop) (hwnd : Z) : option (Z * Z * Z * Z) :=
  r ← GetClientRect d hwnd;
  pt ← ClientToScreen d hwnd;
  let '(r0, r1, r2, r3) := r in
  Some (pt.1, pt.2, r2 - r0, r3 - r0).

(** [screen_rect], with the same fourth component. *)
Definition screen_rect (d : Desktop) (hwnd : Z) : option (Z * Z * Z * Z) :=
  r ← GetWindowRect d hwnd;
  let '(r0, r1, r2, r3) := r in
  Some (r0, r1, r2 - r0, r3 - r0).

Definition WM_LBUTTONDOWN : Z := 0x0201.
Definition WM_LBUTTONUP : Z := 0x0202.
Definition WM_RBUTTONDOWN : Z := 0x0204.
Definition WM_RBUTTONUP : Z := 0x0205.
Definition WM_MBUTTONDOWN : Z := 0x0207.
Definition WM_MBUTTONUP : Z := 0x0208.
Definition MK_LBUTTON : Z := 0x0001.
Definition MK_RBUTTON : Z := 0x0002.
Definition MK_MBUTTON : Z := 0x0010.

(** A call [win32gui.PostMessage(hwnd, msg, wParam, lParam)]. *)
Inductive message : Type :=
  | Post (hwnd msg wParam lParam : Z).

(** [int(x)] on a float: truncation towards zero. *)
Definition py_int_of_float (x : float) : result Z :=
  match x with
  | S754_zero _ => Ok 0
  | S754_finite s m e =>
      Ok (cond_Zopp s (if 0 <=? e then Zpos m * 2 ^ e else Zpos m / 2 ^ (- e)))
  | S754_infinity _ => Raise OverflowError
  | S754_nan => Raise ValueError
  end.

(** The message pair and the key state of a button (lines 1030-1038). *)
Definition button_messages (button : string) : Z * Z * Z :=
  if String.eqb button "left" then (WM_LBUTTONDOWN, MK_LBUTTON, WM_LBUTTONUP)
  else if String.eqb button "right" then (WM_RBUTTONDOWN, MK_RBUTTON, WM_RBUTTONUP)
  else (WM_MBUTTONDOWN, MK_MBUTTON, WM_MBUTTONUP).

(** [int(r * size)] clamped into [0 .. size - 1]. *)
Definition clamp_coordinate (r : float) (size : Z) : result Z :=
  f ← float_mul_int r size;
  i ← py_int_of_float f;
  Ok (Z.max 0 (Z.min i (size - 1))).

(** [_post_mouse_click]: the calls of [PostMessage] it makes; every
    exception ends it silently. *)
Definition _post_mouse_click (d : Desktop) (hwnd : Z) (rx ry : float) (button : string)
  : list message :=
  match client_rect d hwnd with
  | None => []
  | Some (x, y, w, h) =>
      match clamp_coordinate rx w with
      | Raise _ => []
      | Ok cx =>
          match clamp_coordinate ry h with
          | Raise _ => []
          | Ok cy =>
              let lp := _mk_lparam cx cy in
              let '(down, mk, up) := button_messages button in
              if PostMessage_ok d hwnd
              then [Post hwnd down mk lp; Post hwnd up 0 lp]
              else [Post hwnd down mk lp]
          end
      end
  end.

(** [_broadcast_click]: one thread per target; what each thread posts. *)
Definition _broadcast_click (d : Desktop) (rx ry : float) (button : string)
    (targets : list Z) : list (list message) :=
  (λ hwnd, _post_mouse_click d hwnd rx ry button) <$> targets.

(** A hooked mouse event: whether it is a [ButtonEvent], and its type and
    button. *)
Record mouse_event : Type := {
  is_button_event : bool;
  event_type : string;
  button : string
}.

(** What a call of the mouse hook does: it runs the callback of the mouse
    hotkey at an index of [_mouse_hotkeys], or it posts clicks (possibly
    none), or an exception leaves it. *)
Inductive mouse_outcome : Type :=
  | RunHotkey (i : nat)
  | Clicks (posted : list (list message))
  | HookRaised.

(** [mods_now]: the probes are evaluated in order; [None] when one raises. *)
Definition mods_now (d : Desktop) : option (list string) :=
  ctrl ← is_pressed d "ctrl";
  alt ← is_pressed d "alt";
  shift ← is_pressed d "shift";
  win ← is_pressed d "windows";
  Some ((if ctrl : bool then ["ctrl"] else []) ++ (if alt : bool then ["alt"] else [])
        ++ (if shift : bool then ["shift"] else []) ++ (if win : bool then ["win"] else [])).

(** The first mouse hotkey whose button is [btn] and whose modifiers are all
    pressed. *)
Fixpoint find_mouse_hotkey (hotkeys : list (string * list string)) (btn : string)
    (pressed : list string) (i : nat) : option nat :=
  match hotkeys with
  | [] => None
  | (mb, mods) :: rest =>
      if String.eqb btn mb && forallb (λ m, bool_decide (m ∈ pressed)) mods then Some i
      else find_mouse_hotkey rest btn pressed (S i)
  end.

(** Lines 1374-1395 of [on_mouse]: the broadcast of a click. *)
Definition on_mouse_broadcast (d : Desktop) (hwnds : list Z)
    (mouse_broadcast_enabled : bool) (mouse_hold : string) (ev : mouse_event)
  : mouse_outcome :=
  if negb mouse_broadcast_enabled then Clicks []
  else if negb (is_button_event ev && String.eqb (event_type ev) "up") then Clicks []
  else
    let btn := button ev in
    if negb (bool_decide (btn ∈ ["left"; "right"; "middle"])) then Clicks []
    else
      match hwnds with
      | [] => Clicks []
      | _ =>
          let fg_hwnd := GetForegroundWindow d in
          if negb (bool_decide (fg_hwnd ∈ hwnds)) then Clicks []
          else
            match client_rect d fg_hwnd with
            | None => HookRaised
            | Some (mx, my, mw, mh) =>
                let cur := GetCursorPos d in
                let mw := Z.max 1 mw in
                let mh := Z.max 1 mh in
                match int_truediv (cur.1 - mx) mw, int_truediv (cur.2 - my) mh with
                | Ok rx, Ok ry =>
                    let within (r : float) :=
                      match compare_int_float 0 r, compare_int_float 1 r with
                      | Some c0, Some c1 =>
                          negb (match c0 with Gt => true | _ => false end)
                          && negb (match c1 with Lt => true | _ => false end)
                      | _, _ => false
                      end in
                    if negb (within rx && within ry) then Clicks []
                    else
                      match (if String.eqb mouse_hold "" then Some false
                             else is_pressed d mouse_hold) with
                      | None => HookRaised
                      | Some hold_pressed =>
                          if hold_pressed then
                            let targets_to_broadcast :=
                              filter (λ h, h ≠ fg_hwnd) hwnds in
                            match targets_to_broadcast with
                            | [] => Clicks []
                            | _ => Clicks (_broadcast_click d rx ry btn targets_to_broadcast)
                            end
                          else Clicks []
                      end
                | _, _ => HookRaised
                end
            end
      end.

(** [on_mouse]. *)
Definition on_mouse (d : Desktop) (hwnds : list Z)
    (_mouse_hotkeys : list (string * list string))
    (mouse_broadcast_enabled : bool) (mouse_hold : string) (ev : mouse_event)
  : mouse_outcome :=
  if is_button_event ev && String.eqb (event_type ev) "down" then
    match mods_now d with
    | None => HookRaised
    | Some pressed =>
        match find_mouse_hotkey _mouse_hotkeys (button ev) pressed 0 with
        | Some i => RunHotkey i
        | None => on_mouse_broadcast d hwnds mouse_broadcast_enabled mouse_hold ev
        end
    end
  else on_mouse_broadcast d hwnds mouse_broadcast_enabled mouse_hold ev.

End Win32.
Import Win32.


(** ** The layout engine (lines 538-597) *)

Module ClientLayout.

Import Py.

(** A monitor as [screeninfo] reports it; [==] on monitors compares the
    fields. *)
Record Monitor : Type := {
  x : Z;
  y : Z;
  width : Z;
  height : Z;
  name : string
}.

#[global] Instance Monitor_eq_dec : EqDecision Monitor.
Proof. solve_decision. Defined.

(** A window rectangle [(x, y, w, h)]. *)
Definition rect : Type := Z * Z * Z * Z.

(** What a call can raise: the exceptions of the arithmetic, and
    [IndexError] from [mons[0]]. *)
Inductive layout_exn : Type :=
  | IndexError
  | Builtin (e : exn).

Inductive outcome (A : Type) : Type :=
  | Return (a : A)
  | Raised (e : layout_exn).
Arguments Return {A} a.
Arguments Raised {A} e.

#[global] Instance outcome_bind : MBind outcome := λ A B f r,
  match r with
  | Return a => f a
  | Raised e => Raised e
  end.

Definition builtin {A} (r : result A) : outcome A :=
  match r with
  | Ok a => Return a
  | Raise e => Raised (Builtin e)
  end.

(** [mons.sort(key=lambda m: (m.x, m.y))]: a stable sort. *)
Definition key_le (a b : Monitor) : bool :=
  (x a <? x b) || ((x a =? x b) && (y a <=? y b)).

Fixpoint insert_sorted (m : Monitor) (l : list Monitor) : list Monitor :=
  match l with
  | [] => [m]
  | m' :: l' => if key_le m m' then m :: l else m' :: insert_sorted m l'
  end.

Definition monitors (get_monitors : list Monitor) : list Monitor :=
  foldr insert_sorted [] get_monitors.

(** The double nearest to [0.6]. *)
Definition six_tenths : float := S754_finite false 5404319552844595 (-53).

(** Mixed arithmetic: the integer operand is converted first. *)
Definition float_add_int (a : float) (z : Z) : result float :=
  b ← float_of_int z; Ok (SFadd prec emax a b).

Definition int_mul_float (z : Z) (b : float) : result float :=
  a ← float_of_int z; Ok (SFmul prec emax a b).

Definition int_add_float (z : Z) (b : float) : result float :=
  a ← float_of_int z; Ok (SFadd prec emax a b).

(** The monitors of the main window and of the others (lines 555-560). *)
Definition pick_monitors (mode : string) (mons : list Monitor)
  : outcome (Monitor * Monitor) :=
  match mons with
  | m0 :: m1 :: _ =>
      if String.eqb mode "main_on_monitor_1" then Return (m0, m1)
      else if String.eqb mode "main_on_monitor_2" then Return (m1, m0)
      else Return (m0, m0)
  | [m0] => Return (m0, m0)
  | [] => Raised IndexError
  end.

Section Tiling.

Variables (pad sx sy : Z) (cell_w cell_h : float) (slaves : list Z).

(** The body of the inner loop (lines 593-596) for the window [hwnd]. *)
Definition place (r c : Z) (hwnd : Z) (pos : list (Z * rect)) : result (list (Z * rect)) :=
  w ← float_add_int cell_w pad;
  cw ← int_mul_float c w;
  x ← int_add_float sx cw;
  h ← float_add_int cell_h pad;
  rh ← int_mul_float r h;
  y ← int_add_float sy rh;
  x' ← py_round x;
  y' ← py_round y;
  w' ← py_round cell_w;
  h' ← py_round cell_h;
  Ok (BoxChampController.dict_set hwnd (x', y', w', h') pos).

(** [for c in range(cols)] for the row [r], left at the [break]. *)
Fixpoint row_loop (r : Z) (cs : list Z) (st : list (Z * rect) * nat)
  : outcome (list (Z * rect) * nat) :=
  match cs with
  | [] => Return st
  | c :: cs =>
      let '(pos, idx) := st in
      match slaves !! idx with
      | None => Return st
      | Some hwnd =>
          pos ← builtin (place r c hwnd pos);
          row_loop r cs (pos, S idx)
      end
  end.

(** [for r in range(rows)]. *)
Fixpoint grid_loop (rs cs : list Z) (st : list (Z * rect) * nat)
  : outcome (list (Z * rect) * nat) :=
  match rs with
  | [] => Return st
  | r :: rs =>
      st ← row_loop r cs st;
      grid_loop rs cs st
  end.

End Tiling.

(** The rectangle of the main window and the region of the others (lines
    562-575); the main window is the only key of the dictionary so far. *)
Definition regions (mode : string) (main_hwnd : Z) (main_mon slave_mon : Monitor)
  : outcome (list (Z * rect) * rect) :=
  let pos :=
    BoxChampController.dict_set main_hwnd
      (x main_mon, y main_mon, width main_mon, height main_mon) [] in
  let slave_rect : rect :=
    (x slave_mon, y slave_mon, width slave_mon, height slave_mon) in
  if bool_decide (main_mon = slave_mon) then
    main_width ← builtin (w ← float_of_int (width main_mon);
                          Win32.py_int_of_float (SFmul prec emax w six_tenths));
    if String.eqb mode "main_left_slaves_right" then
      Return (BoxChampController.dict_set main_hwnd
                (x main_mon, y main_mon, main_width, height main_mon) pos,
              (x main_mon + main_width, y main_mon, width main_mon - main_width,
               height main_mon))
    else if String.eqb mode "main_right_slaves_left" then
      let slave_width := width main_mon - main_width in
      Return (BoxChampController.dict_set main_hwnd
                (x main_mon + slave_width, y main_mon, main_width, height main_mon) pos,
              (x main_mon, y main_mon, slave_width, height main_mon))
    else Return (pos, slave_rect)
  else Return (pos, slave_rect).

(** [positions], for the layout engine with padding [pad] on a desktop
    where [get_monitors()] answers [screens]: the dictionary it returns,
    in insertion order. *)
Definition positions (pad : Z) (screens : list Monitor) (hwnds : list Z) (mode : string)
    (cols rows : Z) : outcome (list (Z * rect)) :=
  match hwnds with
  | [] => Return []
  | main_hwnd :: slaves =>
      let mons := monitors screens in
      '(main_mon, slave_mon) ← pick_monitors mode mons;
      '(pos, slave_rect) ← regions mode main_hwnd main_mon slave_mon;
      match slaves with
      | [] => Return pos
      | _ =>
          let '(sx, sy, sw, sh) := slave_rect in
          let cols := Z.max 1 cols in
          let rows := Z.max 1 rows in
          let total_pad_x := (cols - 1) * pad in
          let total_pad_y := (rows - 1) * pad in
          cell_w ← builtin (int_truediv (sw - total_pad_x) cols);
          cell_h ← builtin (int_truediv (sh - total_pad_y) rows);
          st ← grid_loop pad sx sy cell_w cell_h slaves (seqZ 0 rows) (seqZ 0 cols)
                 (pos, 0%nat);
          Return st.1
      end
  end.

(** The exceptions of the arithmetic other than [ZeroDivisionError]. *)
Definition arith_only {A} (r : result A) : Prop :=
  ∀ e, r = Raise e → e = OverflowError ∨ e = ValueError.

End ClientLayout.


(** ** The steps of a macro (lines 1079-1101) *)

Module MacroSteps.

Import Py BoxChampController Win32.

(** [MacroStep]: [type], [value], [delay] and the [mouse] dictionary.  The
    delay is what the configuration file holds: a float by its declaration,
    any scalar when read from the file. *)
Record MacroStep : Type := {
  step_type : string;
  step_value : string;
  step_delay : pyval;
  step_mouse : gmap string pyval
}.

(** What a macro does to the outside: key and character messages and the
    fixed pauses between them, a pause of a configured length, the messages
    of one click thread, [bring_to_front] and [keyboard.write]. *)
Inductive action : Type :=
  | Event (e : event)
  | Sleep (seconds : pyval)
  | ClickThread (msgs : list message)
  | BringToFront (hwnd : Z)
  | KeyboardWrite (text : string).

Definition WM_CHAR : Z := 0x0102.

(** [s.strip()], on ASCII strings. *)
Definition is_space (c : ascii) : bool :=
  let n := Ascii.N_of_ascii c in
  (((9 <=? n) && (n <=? 13)) || ((28 <=? n) && (n <=? 32)))%N.

Fixpoint lstrip (s : string) : string :=
  match s with
  | EmptyString => EmptyString
  | String c s' => if is_space c then lstrip s' else s
  end.

Fixpoint rstrip (s : string) : string :=
  match s with
  | EmptyString => EmptyString
  | String c s' =>
      let t := rstrip s' in
      if is_space c && String.eqb t "" then EmptyString else String c t
  end.

Definition strip (s : string) : string := rstrip (lstrip s).

(** Truth value of a scalar. *)
Definition truthy (x : pyval) : bool :=
  match x with
  | PNone => false
  | PBool b => b
  | PInt z => negb (z =? 0)
  | PFloat (S754_zero _) => false
  | PFloat _ => true
  | PStr s => negb (String.eqb s "")
  end.

(** [max(0.0, x)]: [x] when [x > 0.0], else [0.0]; the comparison raises
    [TypeError] on a string or [None]. *)
Definition max0 (x : pyval) : result pyval :=
  b ← py_gt x (PFloat (S754_zero false));
  Ok (if b : bool then x else PFloat (S754_zero false)).

(** [_broadcast_char_event]: [ord(char)] fails on a string that is not
    one character long, inside the [try] around each message. *)
Definition _broadcast_char_event (char : string) (targets : list Z) : list event :=
  match char with
  | String c EmptyString =>
      (λ hwnd, PostMessage hwnd WM_CHAR (Z.of_N (Ascii.N_of_ascii c))) <$> targets
  | _ => []
  end.

Definition one_half : float := S754_finite false 4503599627370496 (-53).

(** [d.get(k, default)]. *)
Definition get (d : gmap string pyval) (k : string) (dflt : pyval) : pyval :=
  default dflt (d !! k).

Section Play.

(** [time_sleep seconds] is the exception that [time.sleep(seconds)] raises,
    if it raises one, as it does with [OverflowError] for a length that is
    too large for the timer of the platform. *)
Variables (bi : Builtins) (d : Desktop) (time_sleep : pyval → option exn)
  (main_hwnd : option Z) (targets : list Z).

(** [time.sleep(max(0.0, x))]. *)
Definition pause (x : pyval) : list action * option exn :=
  match max0 x with
  | Raise e => ([], Some e)
  | Ok seconds =>
      match time_sleep seconds with
      | Some e => ([], Some e)
      | None => ([Sleep seconds], None)
      end
  end.

(** What follows the pause of a step that is not a delay step (lines
    1084-1101). *)
Definition play_body (st : MacroStep) : list action * option exn :=
  if String.eqb (step_type st) "key" then
    let key_value := strip (lower (step_value st)) in
    match VK_CODE_MAP !! key_value with
    | Some _ =>
        ((Event <$> _broadcast_key_event key_value targets "down")
           ++ [Event (sleep 0.02)]
           ++ (Event <$> _broadcast_key_event key_value targets "up"), None)
    | None =>
        if (String.length key_value =? 1)%nat
        then (Event <$> _broadcast_char_event key_value targets, None)
        else ([], None)
    end
  else if String.eqb (step_type st) "text" then
    ((hwnd ← targets;
      [BringToFront hwnd; Event (sleep 0.005); KeyboardWrite (step_value st)])
       ++ match truthy_handle main_hwnd with
          | Some original => [BringToFront original]
          | None => []
          end, None)
  else if String.eqb (step_type st) "mouse" then
    let btn := lower (py_str bi (get (step_mouse st) "button" (PStr "left"))) in
    match py_float bi (get (step_mouse st) "x" (PFloat one_half)) with
    | Raise e => ([], Some e)
    | Ok rx =>
        match py_float bi (get (step_mouse st) "y" (PFloat one_half)) with
        | Raise e => ([], Some e)
        | Ok ry => (ClickThread <$> _broadcast_click d rx ry btn targets, None)
        end
    end
  else ([], None).

(** One pass of the loop over the steps (lines 1080-1082, then the body):
    what it does, and the exception that ends the macro, if one is
    raised. *)
Definition play_step (st : MacroStep) : list action * option exn :=
  if String.eqb (step_type st) "delay" then
    pause (if truthy (step_delay st) then step_delay st else PInt 0)
  else
    match (if truthy (step_delay st) then pause (step_delay st) else ([], None)) with
    | (slept, Some e) => (slept, Some e)
    | (slept, None) => let '(acts, r) := play_body st in (slept ++ acts, r)
    end.

(** [for st in m.steps]. *)
Fixpoint play_steps (steps : list MacroStep) : list action * option exn :=
  match steps with
  | [] => ([], None)
  | st :: steps =>
      match play_step st with
      | (acts, Some e) => (acts, Some e)
      | (acts, None) => let '(acts', r) := play_steps steps in (acts ++ acts', r)
      end
  end.

End Play.

(** [_run_macro_body] as a whole, for a macro object [m] with the steps
    [steps]: the target windows are chosen, then the steps are played. *)
Definition run_macro (bi : Builtins) (d : Desktop) (time_sleep : pyval → option exn)
    (self : Controller) (m : Macro) (steps : list MacroStep) : list action * option exn :=
  let '(r, self', _) := _run_macro_body self m in
  match r with
  | None => ([], None)
  | Some targets => play_steps bi d time_sleep (main_hwnd self') targets steps
  end.

(** The windows an action posts a message to. *)
Definition posts_to (a : action) : list Z :=
  match a with
  | Event (PostMessage hwnd _ _) => [hwnd]
  | ClickThread msgs => (λ '(Post hwnd _ _ _), hwnd) <$> msgs
  | _ => []
  end.

(** The windows an action brings to the front. *)
Definition raises_window (a : action) : list Z :=
  match a with
  | BringToFront hwnd => [hwnd]
  | _ => []
  end.

(** The windows of an action: none that is not a target or, for a window
    brought to the front, the main window. *)
Definition addresses_targets (main_hwnd : option Z) (targets : list Z) (a : action)
  : Prop :=
  (∀ h, h ∈ posts_to a → h ∈ targets) ∧
  (∀ h, h ∈ raises_window a → h ∈ targets ∨ (main_hwnd = Some h ∧ h ≠ 0)).

(** The exceptions that can end a macro: those of the comparison and of
    the conversions, and whatever [time.sleep] raises. *)
Definition step_exception (time_sleep : pyval → option exn) (e : exn) : Prop :=
  e ∈ [TypeError; ValueError; OverflowError] ∨ ∃ seconds, time_sleep seconds = Some e.

(** A pause that is slept: the length compares with [0.0] and
    [time.sleep] accepts it. *)
Definition sleeps (time_sleep : pyval → option exn) (x : pyval) : Prop :=
  ∃ seconds, max0 x = Ok seconds ∧ time_sleep seconds = None.

(** A step that does not end the macro: its pause, if it has one, is
    slept, and its mouse coordinates, if it is a mouse step, convert to
    floats. *)
Definition playable (bi : Builtins) (time_sleep : pyval → option exn) (st : MacroStep)
  : Prop :=
  if String.eqb (step_type st) "delay" then
    sleeps time_sleep (if truthy (step_delay st) then step_delay st else PInt 0)
  else
    (truthy (step_delay st) = true → sleeps time_sleep (step_delay st)) ∧
    (step_type st = "mouse" →
     is_ok (py_float bi (get (step_mouse st) "x" (PFloat one_half))) = true ∧
     is_ok (py_float bi (get (step_mouse st) "y" (PFloat one_half))) = true).

End MacroSteps.


(** ** Hotkey strings (lines 1265-1279 and 1460-1467) *)

Module Hotkeys.

Import Py Win32.

(** [s.replace(" ", "")]. *)
Fixpoint remove_spaces (s : string) : string :=
  match s with
  | EmptyString => EmptyString
  | String c s' =>
      if Ascii.eqb c " " then remove_spaces s' else String c (remove_spaces s')
  end.

(** [s.split(sep)] for a separator of one character. *)
Fixpoint split (sep : ascii) (s : string) : list string :=
  match s with
  | EmptyString => [EmptyString]
  | String c s' =>
      if Ascii.eqb c sep then EmptyString :: split sep s'
      else
        match split sep s' with
        | p :: ps => String c p :: ps
        | [] => [String c EmptyString]
        end
  end.

(** [s.split(sep, 1)[1]]: what follows the first separator; [None] stands
    for the [IndexError] when there is none. *)
Fixpoint after_first (sep : ascii) (s : string) : option string :=
  match s with
  | EmptyString => None
  | String c s' => if Ascii.eqb c sep then Some s' else after_first sep s'
  end.

(** [sep.join(parts)]. *)
Fixpoint join (sep : string) (parts : list string) : string :=
  match parts with
  | [] => EmptyString
  | p :: parts' =>
      match parts' with
      | [] => p
      | _ => p +:+ sep +:+ join sep parts'
      end
  end.

(** The state of the loop of [_parse_hotkey]: [mods], [key], [mouse_btn]. *)
Definition parsed : Type := gset string * option string * option string.

(** One pass of the loop over the parts (lines 1271-1278). *)
Definition parse_part (st : parsed) (p : string) : parsed :=
  let '(mods, key, mouse_btn) := st in
  if bool_decide (p ∈ ["ctrl"; "alt"; "shift"; "win"; "windows"]) then
    ({[ if String.eqb p "windows" then "win" else p ]} ∪ mods, key, mouse_btn)
  else if String.prefix "mouse:" p then
    match after_first ":" p with
    | Some mouse_btn =>
        (mods, key,
         Some (if bool_decide (mouse_btn ∈ ["left"; "right"; "middle"; "x"; "x1"; "x2"])
               then (if String.eqb mouse_btn "x1" then "x" else mouse_btn)
               else mouse_btn))
    | None => st
    end
  else (mods, Some p, mouse_btn).

(** [_parse_hotkey]. *)
Definition _parse_hotkey (hk : option string) : parsed :=
  let hk := lower (MacroSteps.strip (default "" hk)) in
  if String.eqb hk "" then (∅, None, None)
  else
    let parts := filter (λ p, p ≠ "") (split "+" (remove_spaces hk)) in
    foldl parse_part (∅, None, None) parts.

(** [HotkeyCaptureDialog._compose]; [None] when [keyboard.is_pressed]
    raises. *)
Definition _compose (d : Desktop) (main : string) (is_mouse : bool) : option string :=
  ctrl ← is_pressed d "ctrl";
  alt ← is_pressed d "alt";
  shift ← is_pressed d "shift";
  win ← is_pressed d "windows";
  let parts :=
    (if ctrl : bool then ["ctrl"] else []) ++ (if alt : bool then ["alt"] else [])
    ++ (if shift : bool then ["shift"] else []) ++ (if win : bool then ["win"] else [])
    ++ [if is_mouse then "mouse:" +:+ main else main] in
  Some (join "+" parts).

(** Every character of a string passes a test. *)
Fixpoint string_forall (P : ascii → bool) (s : string) : bool :=
  match s with
  | EmptyString => true
  | String c s' => P c && string_forall P s'
  end.

(** A character that [strip], [lower] and [replace(" ", "")] leave alone. *)
Definition stable (c : ascii) : bool :=
  negb (MacroSteps.is_space c) && Ascii.eqb (lower_ascii c) c.

(** A stable character other than the separator [+]. *)
Definition plain (c : ascii) : bool := stable c && negb (Ascii.eqb c "+").

End Hotkeys.


(** ** CPU affinity as text (lines 1419-1430) *)

Module Affinity.

Import Py Hotkeys.

(** [affinity_to_text]. *)
Definition affinity_to_text (bi : Builtins) (aff : list Z) : string :=
  join "," ((λ i, py_str bi (PInt i)) <$> aff).

(** [parse_affinity]; [int part] is [int(part)], [None] when it raises. *)
Definition parse_affinity (int : string → option Z) (text : string) : list Z :=
  foldl
    (λ out part,
       if String.eqb part "" then out
       else
         match int part with
         | Some v => if 0 <=? v then out ++ [v] else out
         | None => out
         end)
    [] (split "," (remove_spaces text)).

(** A decimal digit. *)
Definition is_digit (c : ascii) : bool :=
  let n := Ascii.N_of_ascii c in ((48 <=? n) && (n <=? 57))%N.

End Affinity.

(** ** Sample inputs *)

Module Samples.

Definition table {A} (l : list (Z * A)) (address : Z) : option A :=
  (list_to_map l : gmap Z A) !! address.

(** Two objects that point at each other, none of them with identifier 5. *)
Definition cyclic_memory : Pymem := {|
  cell_uint := table [(CUR_MGR_POINTER, 0x1000); (0x1000 + CUR_MGR_OFFSET, 0x2000);
                      (0x2000 + FIRST_OBJECT_OFFSET, 0x3000);
                      (0x3000 + NEXT_OBJECT_OFFSET, 0x4000);
                      (0x4000 + NEXT_OBJECT_OFFSET, 0x3000)];
  cell_ulonglong := table [(0x3000 + OBJECT_GUID_OFFSET, 7); (0x4000 + OBJECT_GUID_OFFSET, 9)];
  cell_int := table [];
  cell_uchar := table [];
  cell_string := table []
|}.

Definition cyclic_reader : MemoryReader :=
  {| pm := cyclic_memory; object_manager_base := 0 |}.

(** One object with identifier 7 whose link is null; the cell behind the
    null pointer leads on to an object with identifier 5. *)
Definition null_then_more : Pymem := {|
  cell_uint := table [(CUR_MGR_POINTER, 0x1000); (0x1000 + CUR_MGR_OFFSET, 0x2000);
                      (0x2000 + FIRST_OBJECT_OFFSET, 0x3000);
                      (0x3000 + NEXT_OBJECT_OFFSET, 0);
                      (0 + NEXT_OBJECT_OFFSET, 0x4000)];
  cell_ulonglong := table [(0x3000 + OBJECT_GUID_OFFSET, 7); (0x4000 + OBJECT_GUID_OFFSET, 5)];
  cell_int := table [];
  cell_uchar := table [];
  cell_string := table []
|}.

Definition null_then_more_reader : MemoryReader :=
  {| pm := null_then_more; object_manager_base := 0 |}.

(** A player (identifier 7) with 4500 of 6000 health who targets the
    object with identifier 9, named "thrall". *)
Definition combat_memory : Pymem := {|
  cell_uint := table [(CUR_MGR_POINTER, 0x1000); (0x1000 + CUR_MGR_OFFSET, 0x2000);
                      (0x2000 + FIRST_OBJECT_OFFSET, 0x3000);
                      (0x3000 + NEXT_OBJECT_OFFSET, 0x4000);
                      (0x4000 + NEXT_OBJECT_OFFSET, 0);
                      (0x3000 + M_STORAGE_OFFSET, 0x5000);
                      (0x4000 + M_STORAGE_OFFSET, 0x6000);
                      (0x4000 + UNIT_NAME_1, 0x7000);
                      (0x7000 + UNIT_NAME_2, 0x8000)];
  cell_ulonglong := table [(0x3000 + OBJECT_GUID_OFFSET, 7); (0x4000 + OBJECT_GUID_OFFSET, 9);
                           (0x2000 + LOCAL_GUID_OFFSET, 7); (TARGET_GUID_STATIC, 9)];
  cell_int := table [(0x5000 + UNIT_FIELD_HEALTH, 4500); (0x5000 + UNIT_FIELD_MAXHEALTH, 6000);
                     (0x5000 + UNIT_FIELD_POWER1, 10); (0x5000 + UNIT_FIELD_MAXPOWER1, 0);
                     (0x5000 + UNIT_FIELD_LEVEL, 80);
                     (0x6000 + UNIT_FIELD_HEALTH, 1); (0x6000 + UNIT_FIELD_MAXHEALTH, 8);
                     (0x6000 + UNIT_FIELD_LEVEL, 70)];
  cell_uchar := table [(COMBO_POINTS_STATIC, 3)];
  cell_string := table [(0x8000, "thrall")]
|}.

(** The same, but the page with the target's descriptor pointer cannot be
    read. *)
Definition broken_target_memory : Pymem := {|
  cell_uint := λ address,
    if address =? 0x4000 + M_STORAGE_OFFSET then None else cell_uint combat_memory address;
  cell_ulonglong := cell_ulonglong combat_memory;
  cell_int := cell_int combat_memory;
  cell_uchar := cell_uchar combat_memory;
  cell_string := cell_string combat_memory
|}.

Definition broken_target_reader : MemoryReader :=
  {| pm := broken_target_memory; object_manager_base := 0 |}.

Definition broken_target_reader_resolved : MemoryReader :=
  {| pm := broken_target_memory; object_manager_base := 0x2000 |}.

(** The same as [combat_memory], but the page with the target's first name
    pointer cannot be read. *)
Definition broken_name_memory : Pymem := {|
  cell_uint := λ address,
    if address =? 0x4000 + UNIT_NAME_1 then None else cell_uint combat_memory address;
  cell_ulonglong := cell_ulonglong combat_memory;
  cell_int := cell_int combat_memory;
  cell_uchar := cell_uchar combat_memory;
  cell_string := cell_string combat_memory
|}.

Definition broken_name_reader : MemoryReader :=
  {| pm := broken_name_memory; object_manager_base := 0 |}.

Definition broken_name_reader_resolved : MemoryReader :=
  {| pm := broken_name_memory; object_manager_base := 0x2000 |}.

Definition combat_reader : MemoryReader :=
  {| pm := combat_memory; object_manager_base := 0 |}.

Definition combat_reader_resolved : MemoryReader :=
  {| pm := combat_memory; object_manager_base := 0x2000 |}.

(** The dictionary of the sample reader after the player part. *)
Definition combat_player_stats : gmap string pyval :=
  <["player_hp" := PInt 4500]> (<["player_max_hp" := PInt 6000]> (
  <["player_mp" := PInt 10]> (<["player_max_mp" := PInt 0]> (
  <["player_hp_percent" := PInt 75]> (<["player_mp_percent" := PInt 0]> (
  <["player_level" := PInt 80]> (
  <["target_hp" := PInt 0]> (<["target_max_hp" := PInt 0]> (
  <["target_hp_percent" := PInt 0]> (<["target_level" := PInt 0]> (
  <["has_target" := PBool false]> (<["target_name" := PStr ""]> (
  <["combo_points" := PInt 3]> ∅))))))))))))).

Definition combat_snapshot : gmap string pyval :=
  <["player_hp" := PInt 4500]> (<["player_max_hp" := PInt 6000]> (
  <["player_mp" := PInt 10]> (<["player_max_mp" := PInt 0]> (
  <["player_hp_percent" := PInt 75]> (<["player_mp_percent" := PInt 0]> (
  <["player_level" := PInt 80]> (
  <["target_hp" := PInt 1]> (<["target_max_hp" := PInt 8]> (
  <["target_hp_percent" := PInt 12]> (<["target_level" := PInt 70]> (
  <["has_target" := PBool true]> (<["target_name" := PStr "thrall"]> (
  <["combo_points" := PInt 3]> ∅))))))))))))).

(** The slot configuration: one own character, "Thrall". *)
Definition own_slots : gmap string SlotConfig :=
  {[ "Profile1" := {| character_name := "Thrall"; assigned_rotation := None |} ]}.

(** Conditions of the samples. *)
Definition target_is_own : Condition :=
  {| stat := "target_is_own_character"; operator := "=="; value := PInt 1 |}.

Definition has_target_text : Condition :=
  {| stat := "has_target"; operator := "=="; value := PStr "yes" |}.

Definition level_below_huge : Condition :=
  {| stat := "player_level"; operator := "<"; value := PInt (2 ^ 1024) |}.

(** A runtime in which no string parses as a float; the samples use
    numeric literals only. *)
Definition no_builtins : Builtins :=
  {| float_of_str := λ _, None; str_of_float := λ _, "" |}.

(** The rotation of the specification's example: [hp < 50 -> "1"], then
    [hp < 100 -> "2"], polled every 0.5 s. *)
Definition R1 : RotationRule :=
  {| keys_to_press := ["1"];
     conditions := [{| stat := "player_hp_percent"; operator := "<"; value := PInt 50 |}] |}.

Definition R2 : RotationRule :=
  {| keys_to_press := ["2"];
     conditions := [{| stat := "player_hp_percent"; operator := "<"; value := PInt 100 |}] |}.



Definition two_rules : CombatRotation :=
  {| rotation_name := "heal"; rules := [R1; R2]; loop_interval := 5 # 10 |}.

Definition low_health_snapshot : gmap string pyval :=
  <["player_hp_percent" := PInt 40]> combat_snapshot.

(** The scheduler ticks every 0.1 s from time 10; each visit of the window
    1001 sees the low health snapshot and takes 0.1 s to send its keys;
    the clock is counted in tenths of a second. *)
Definition tick_env (n : Z) : client_env :=
  {| t_check := n # 10; snapshot := Some low_health_snapshot; t_fire := (n + 1) # 10 |}.

Definition tick_visit (n : Z) : visit :=
  {| v_slots := own_slots; v_hwnd := 1001; v_rotation := two_rules; v_env := tick_env n |}.

Definition three_ticks : list visit := tick_visit <$> [100; 103; 106].

(** A main window 10 and three other windows; one round-robin macro whose
    index starts at 0, and one macro for all windows. *)
Definition four_windows : Controller := {|
  hwnds := [10; 11; 12; 13];
  main_hwnd := Some 10;
  proc_hwnd := ∅;
  _rr_state := ∅;
  macros := {[ "assist" := {| macro_name := "assist"; target := "round_robin";
                              slots := []; rr_index := 0 |};
               "burst" := {| macro_name := "burst"; target := "all";
                             slots := []; rr_index := 0 |} ]}
|}.

Definition assist_macro : Macro :=
  {| macro_name := "assist"; target := "round_robin"; slots := []; rr_index := 0 |}.

(** Only the main window is there. *)
Definition main_only : Controller := {|
  hwnds := [10];
  main_hwnd := Some 10;
  proc_hwnd := ∅;
  _rr_state := ∅;
  macros := ∅
|}.

(** One visit of the window 1001 that sees the snapshot of the sample
    reader. *)
Definition combat_visits : list visit :=
  [{| v_slots := own_slots; v_hwnd := 1001; v_rotation := two_rules;
      v_env := {| t_check := 100 # 10; snapshot := Some combat_snapshot;
                  t_fire := 101 # 10 |} |}].


(** Two client windows 10 and 11 of 800 x 600 pixels; window 10 is in front
    at screen position (100, 50), the cursor is at its centre and the hold
    key is pressed. *)
Definition two_clients : Desktop := {|
  GetClientRect := λ hwnd, if bool_decide (hwnd ∈ [10; 11]) then Some (0, 0, 800, 600) else None;
  GetWindowRect := λ hwnd, if bool_decide (hwnd ∈ [10; 11]) then Some (100, 50, 900, 650) else None;
  ClientToScreen := λ hwnd, if bool_decide (hwnd ∈ [10; 11]) then Some (100, 50) else None;
  PostMessage_ok := λ _, true;
  GetForegroundWindow := 10;
  GetCursorPos := (500, 350);
  is_pressed := λ name, Some (String.eqb name "ctrl")
|}.

Definition half : float := S754_finite false 4503599627370496 (-53).

Definition left_up : mouse_event :=
  {| is_button_event := true; event_type := "up"; button := "left" |}.


(** Three client windows, found by title; no set is running. *)
Definition three_windows_env : Environment :=
  {| IsWindow := λ _, true; running_set := None; enumerated := [10; 11; 12] |}.

Definition three_windows : Controller := {|
  hwnds := [10; 11; 12];
  main_hwnd := Some 10;
  proc_hwnd := ∅;
  _rr_state := ∅;
  macros := ∅
|}.


(** Every key is broadcast, but only while a client window is in front. *)
Definition all_keys : BroadcastSettings := {|
  broadcast_only_when_client_focused := true;
  broadcast_all_keys := true;
  broadcast_enabled := true;
  whitelist := ["1"; "2"];
  auto_assist_enabled := false;
  auto_assist_prefix_keys := [];
  reserved_hotkeys := []
|}.

(** The client window 10 is in front, or the window 99 that is no client. *)
Definition client_in_front : key_env :=
  {| fg_at_check := 10; fg_hwnd := 10; key_is_pressed := λ _, Some false |}.

Definition other_in_front : key_env :=
  {| fg_at_check := 99; fg_hwnd := 99; key_is_pressed := λ _, Some false |}.

Definition press_1 : key_event := {| key_name := Some "1"; key_event_type := "down" |}.
Definition release_1 : key_event := {| key_name := Some "1"; key_event_type := "up" |}.


(** One full-HD monitor and five clients on a grid of two columns and one
    row. *)
Definition full_hd : ClientLayout.Monitor :=
  {| ClientLayout.x := 0; ClientLayout.y := 0; ClientLayout.width := 1920;
     ClientLayout.height := 1080; ClientLayout.name := "DISPLAY1" |}.
Definition five_clients : list Z := [101; 102; 103; 104; 105].


(** A macro for the windows other than the main one: press [1], wait,
    click the middle of the window. *)
Definition followers_macro : Macro :=
  {| macro_name := "followers"; target := "all_except_main"; slots := []; rr_index := 0 |}.
Definition press_then_click : list MacroSteps.MacroStep :=
  [ {| MacroSteps.step_type := "key"; MacroSteps.step_value := "1";
       MacroSteps.step_delay := PFloat (S754_zero false); MacroSteps.step_mouse := ∅ |};
    {| MacroSteps.step_type := "delay"; MacroSteps.step_value := "";
       MacroSteps.step_delay := PFloat MacroSteps.one_half; MacroSteps.step_mouse := ∅ |};
    {| MacroSteps.step_type := "mouse"; MacroSteps.step_value := "";
       MacroSteps.step_delay := PFloat (S754_zero false);
       MacroSteps.step_mouse := {[ "button" := PStr "left" ]} |} ].
(** A timer that takes every finite length and rejects an infinite one. *)
Definition finite_sleep (seconds : pyval) : option exn :=
  match seconds with
  | PFloat (S754_infinity _) => Some OverflowError
  | _ => None
  end.
(** A delay step of infinite length, then a key press. *)
Definition wait_forever : list MacroSteps.MacroStep :=
  [ {| MacroSteps.step_type := "delay"; MacroSteps.step_value := "";
       MacroSteps.step_delay := PFloat (S754_infinity false); MacroSteps.step_mouse := ∅ |};
    {| MacroSteps.step_type := "key"; MacroSteps.step_value := "1";
       MacroSteps.step_delay := PFloat (S754_zero false); MacroSteps.step_mouse := ∅ |} ].


(** [int] on plain decimal numerals. *)
Definition int_of_numeral (s : string) : option Z :=
  Z.of_int <$> NilEmpty.int_of_string s.

End Samples.

(** ** Properties *)

(** *** Proof tools *)

(** Lookups in the dictionaries that the snapshot builds. *)
Ltac dict_lookup :=
  repeat first
    [ rewrite lookup_insert_eq
    | rewrite lookup_insert_ne by done ];
  try reflexivity.

(** Side conditions on keys: membership in a literal list, and difference
    from every key of a literal list. *)
Ltac key_in := by repeat constructor.
Ltac key_ne :=
  match goal with
  | Hk : _ ∈ _ |- _ =>
      intros ?; subst;
      repeat (apply elem_of_cons in Hk as [Hk|Hk]; [discriminate|]);
      by apply elem_of_nil in Hk
  end.

(** *** Floats: the operations of the percent computation stay finite *)

Lemma digits2_pos_bounds (p : positive) :
  2 ^ (Zpos (digits2_pos p) - 1) <= Zpos p < 2 ^ Zpos (digits2_pos p).
Proof.
  induction p as [p IH|p IH|]; simpl digits2_pos; [| |simpl; lia].
  all: rewrite Pos2Z.inj_succ.
  1: change (Zpos p~1) with (2 * Zpos p + 1).
  2: change (Zpos p~0) with (2 * Zpos p).
  all: pose proof (Pos2Z.is_pos (digits2_pos p)) as Hd.
  all: set (d := Zpos (digits2_pos p)) in *; clearbody d.
  all: replace (Z.succ d - 1) with (Z.succ (d - 1)) by lia.
  all: rewrite !Z.pow_succ_r by lia.
  all: set (lo := 2 ^ (d - 1)) in *; set (hi := 2 ^ d) in *; clearbody lo hi; lia.
Qed.

Lemma Zdigits2_le (m k : Z) : 0 <= m -> 0 <= k -> m < 2 ^ k -> Zdigits2 m <= k.
Proof.
  intros Hm Hk Hlt. destruct m as [|p|p]; simpl; [lia | | lia].
  pose proof (digits2_pos_bounds p) as [Hlo _].
  set (d := Zpos (digits2_pos p)) in *; clearbody d.
  destruct (Z_le_gt_dec d k) as [|Hgt]; [assumption|].
  assert (2 ^ k <= 2 ^ (d - 1)) by (apply Z.pow_le_mono_r; lia).
  lia.
Qed.

Lemma Zdigits2_nonneg m : 0 <= Zdigits2 m.
Proof. destruct m; simpl; lia. Qed.

Lemma shr_1_m mrs : 0 <= shr_m mrs -> 0 <= shr_m (shr_1 mrs) /\ 2 * shr_m (shr_1 mrs) <= shr_m mrs.
Proof.
  destruct mrs as [m r s]; simpl. destruct m as [|[p|p|]|p]; simpl; lia.
Qed.

Lemma iter_shr_1_m (n : positive) : forall mrs, 0 <= shr_m mrs ->
  0 <= shr_m (SpecFloat.iter_pos shr_1 n mrs) /\ 2 ^ (Zpos n) * shr_m (SpecFloat.iter_pos shr_1 n mrs) <= shr_m mrs.
Proof.
  induction n as [n IH|n IH|]; intros mrs Hm; simpl SpecFloat.iter_pos.
  - destruct (shr_1_m mrs Hm) as [H1 H1'].
    destruct (IH _ H1) as [H2 H2']. destruct (IH _ H2) as [H3 H3'].
    split; [done|].
    assert (2 ^ Zpos n~1 = 2 * (2 ^ Zpos n * 2 ^ Zpos n)) as ->.
    { rewrite <- Z.pow_add_r, <- Z.pow_succ_r by lia. f_equal. lia. }
    assert (0 < 2 ^ Zpos n) by (apply Z.pow_pos_nonneg; lia). nia.
  - destruct (IH _ Hm) as [H2 H2']. destruct (IH _ H2) as [H3 H3'].
    split; [done|].
    assert (2 ^ Zpos n~0 = 2 ^ Zpos n * 2 ^ Zpos n) as ->.
    { rewrite <- Z.pow_add_r by lia. f_equal. lia. }
    assert (0 < 2 ^ Zpos n) by (apply Z.pow_pos_nonneg; lia). nia.
  - destruct (shr_1_m mrs Hm). split; [done|]. change (2 ^ 1) with 2. lia.
Qed.

Lemma shr_record_of_loc_m m l : shr_m (shr_record_of_loc m l) = m.
Proof. destruct l as [|[]]; reflexivity. Qed.

(** shifting to the exponent fexp: the mantissa shrinks accordingly *)
Lemma shr_fexp_spec prec emax m e l B :
  0 <= m -> m < 2 ^ (B - e) -> e <= B -> 3 - emax - prec <= B -> 0 < prec ->
  forall mrs' e', shr_fexp prec emax m e l = (mrs', e') ->
  0 <= shr_m mrs' /\ e <= e' <= B /\ shr_m mrs' < 2 ^ (B - e').
Proof.
  intros Hm Hlt He HB Hp mrs' e'. unfold shr_fexp, shr.
  assert (Hd : Zdigits2 m + e <= B).
  { pose proof (Zdigits2_le m (B - e) Hm ltac:(lia) Hlt). lia. }
  pose proof (Zdigits2_nonneg m) as Hd0.
  assert (Hf : fexp prec emax (Zdigits2 m + e) <= B).
  { unfold fexp, emin. lia. }
  destruct (fexp prec emax (Zdigits2 m + e) - e) as [|n|n] eqn:Hn.
  - intros [= <- <-]. rewrite shr_record_of_loc_m. lia.
  - intros [= <- <-].
    destruct (iter_shr_1_m n (shr_record_of_loc m l)) as [H1 H2].
    { rewrite shr_record_of_loc_m. done. }
    rewrite shr_record_of_loc_m in H2.
    split; [done|]. split; [lia|].
    set (m' := shr_m _) in *.
    assert (2 ^ (B - e) = 2 ^ Zpos n * 2 ^ (B - (e + Zpos n))).
    { rewrite <- Z.pow_add_r by lia. f_equal. lia. }
    assert (0 < 2 ^ Zpos n) by (apply Z.pow_pos_nonneg; lia).
    nia.
  - intros [= <- <-]. rewrite shr_record_of_loc_m. lia.
Qed.

Lemma round_nearest_even_bounds m l : 0 <= m -> m <= round_nearest_even m l <= m + 1.
Proof. intros. unfold round_nearest_even. destruct l as [|[]]; try destruct (Z.even m); lia. Qed.

Lemma binary_round_aux_fin s m e l B :
  0 <= m -> m < 2 ^ (B - e) -> e <= B -> -1074 <= B -> B + 1 <= 971 ->
  fin_le (B + 1) (binary_round_aux 53 1024 s m e l).
Proof.
  intros Hm Hlt He HB HB'. unfold binary_round_aux.
  destruct (shr_fexp 53 1024 m e l) as [mrs' e'] eqn:H1.
  apply (shr_fexp_spec 53 1024 m e l B) in H1 as (Hm1 & He1 & Hlt1); try lia.
  set (m2 := round_nearest_even (shr_m mrs') (loc_of_shr_record mrs')).
  pose proof (round_nearest_even_bounds (shr_m mrs') (loc_of_shr_record mrs') Hm1) as Hm2.
  fold m2 in Hm2.
  destruct (shr_fexp 53 1024 m2 e' loc_Exact) as [mrs'' e''] eqn:H2.
  apply (shr_fexp_spec 53 1024 m2 e' loc_Exact (B + 1)) in H2 as (Hm3 & He3 & Hlt3); try lia.
  2:{ replace (B + 1 - e') with (Z.succ (B - e')) by lia. rewrite Z.pow_succ_r by lia. lia. }
  destruct (shr_m mrs'') as [|p|p] eqn:Hp; simpl; [done | | lia].
  destruct (Z.leb_spec e'' (1024 - 53)); simpl; lia.
Qed.

Lemma int_truediv_fin (a b : Z) :
  b ≠ 0 → Z.abs a < 2 ^ 32 → ∃ q, int_truediv a b = Ok q ∧ fin_le 33 q.
Proof.
  intros Hb Ha. unfold int_truediv.
  destruct (Z.eqb_spec b 0) as [|_]; [done|].
  destruct (Z.eqb_spec a 0) as [|Ha0]; [by eexists|].
  unfold SFdiv_core_binary.
  set (e' := Z.min _ _). assert (He' : e' ≤ 0) by (subst e'; lia).
  set (m' := match 0 - 0 - e' with 0 => _ | Z.pos _ => _ | Z.neg _ => _ end).
  assert (Hm' : 0 ≤ m' ≤ Z.abs a * 2 ^ (- e')).
  { subst m'. destruct (0 - 0 - e') as [|s|s] eqn:Hs; [| |lia].
    - replace (- e') with 0 by lia. lia.
    - rewrite Z.shiftl_mul_pow2 by lia. replace (- e') with (Z.pos s) by lia.
      assert (0 < 2 ^ Z.pos s) by (apply Z.pow_pos_nonneg; lia). nia. }
  clearbody m'. clearbody e'.
  pose proof (Z_div_mod m' (Z.abs b) ltac:(lia)) as Hdiv.
  destruct (Z.div_eucl m' (Z.abs b)) as [q r]. destruct Hdiv as [Hq Hr].
  assert (Hq0 : 0 ≤ q ≤ m') by nia.
  assert (Hlt : q < 2 ^ (32 - e')).
  { assert (2 ^ (32 - e') = 2 ^ 32 * 2 ^ (- e')) as ->
      by (rewrite <- Z.pow_add_r by lia; f_equal; lia).
    assert (0 < 2 ^ (- e')) by (apply Z.pow_pos_nonneg; lia).
    set (P := 2 ^ 32) in *. clearbody P. nia. }
  pose proof (binary_round_aux_fin (xorb (a <? 0) (b <? 0)) q e'
                (new_location (Z.abs b) r) 32
                ltac:(lia) Hlt ltac:(lia) ltac:(lia) ltac:(lia)) as Hfin.
  fold prec emax in Hfin. change (32 + 1) with 33 in Hfin.
  destruct (binary_round_aux prec emax _ q e' _) as [s|s| |s m e];
    [by eexists | done | done | by eexists].
Qed.

Lemma float_of_int_100 :
  float_of_int 100 = Ok (S754_finite false 7036874417766400 (-46)).
Proof. by vm_compute. Qed.

Lemma float_mul_int_100_fin (q : float) :
  fin_le 33 q → ∃ p, float_mul_int q 100 = Ok p ∧ fin_le 41 p.
Proof.
  intros Hq. unfold float_mul_int. rewrite float_of_int_100.
  destruct q as [s|s| |s m e]; try done; [by eexists|].
  destruct Hq as [Hm He]. eexists; split; [done|].
  unfold SFmul.
  apply (binary_round_aux_fin _ _ _ _ 40); try lia.
  rewrite Pos2Z.inj_mul.
  assert (2 ^ (40 - (e + -46)) = 2 ^ (33 - e) * 2 ^ 53) as ->
    by (rewrite <- Z.pow_add_r by lia; f_equal; lia).
  assert (Z.pos 7036874417766400 < 2 ^ 53) by done.
  set (P := 2 ^ 53) in *. clearbody P. set (Q := 2 ^ (33 - e)) in *. clearbody Q.
  nia.
Qed.

Lemma py_round_fin (B : Z) (x : float) : fin_le B x → ∃ z, py_round x = Ok z.
Proof. destruct x; simpl; try done; by eexists. Qed.

(** The percentage of a 32-bit value never raises when the divisor is not 0. *)
Lemma percent_total (value max : Z) :
  Z.abs value < 2 ^ 32 → max ≠ 0 → ∃ p, percent value max = Ok p.
Proof.
  intros Hv Hmax. unfold percent.
  destruct (int_truediv_fin value max Hmax Hv) as (q & -> & Hq).
  destruct (float_mul_int_100_fin q Hq) as (p & Hp & Hfin).
  change (∃ z, (float_mul_int q 100 ≫= py_round) = Ok z). rewrite Hp.
  by apply (py_round_fin 41).
Qed.

Lemma py_round_not_zero_division (x : float) : py_round x ≠ Raise ZeroDivisionError.
Proof. by destruct x. Qed.

Lemma percent_not_zero_division (value max : Z) :
  max ≠ 0 → percent value max ≠ Raise ZeroDivisionError.
Proof.
  intros Hmax. unfold percent.
  destruct (int_truediv value max) as [q|e] eqn:Hq.
  - change ((float_mul_int q 100 ≫= py_round) ≠ Raise ZeroDivisionError).
    unfold float_mul_int. rewrite float_of_int_100.
    apply py_round_not_zero_division.
  - change (@Raise Z e ≠ Raise ZeroDivisionError).
    unfold int_truediv in Hq.
    destruct (Z.eqb_spec max 0) as [|_]; [done|].
    destruct (value =? 0); [done|].
    destruct (SFdiv_core_binary _ _ _ _ _ _) as [[q m] l].
    destruct (binary_round_aux _ _ _ _ _ _); simpl in Hq; congruence.
Qed.

Lemma signed_32_range (v : Z) : Z.abs (signed 32 v) < 2 ^ 32.
Proof.
  unfold signed. pose proof (Z.mod_pos_bound (v + 2 ^ (32 - 1)) (2 ^ 32) ltac:(done)).
  change (2 ^ (32 - 1)) with 2147483648 in *. change (2 ^ 32) with 4294967296 in *. lia.
Qed.

(** *** The object walk *)

Lemma walk_objects_spec p guid n current_obj r its :
  walk_objects p guid n current_obj = (r, its) →
  (its ≤ n)%nat ∧
  (r ≠ 0 → ∃ k, (k < its)%nat ∧ nth_object p k current_obj = Ok r
               ∧ read_ulonglong p (r + OBJECT_GUID_OFFSET) = Ok guid).
Proof.
  revert current_obj r its.
  induction n as [|n IH]; intros cur r its; simpl.
  - intros [= <- <-]. split; [lia | congruence].
  - destruct (Z.eqb_spec cur 0) as [->|Hcur].
    { intros [= <- <-]. split; [lia | congruence]. }
    destruct (read_ulonglong p (cur + OBJECT_GUID_OFFSET)) as [g|e] eqn:Hg.
    2:{ intros [= <- <-]. split; [lia | congruence]. }
    destruct (Z.eqb_spec g guid) as [->|Hne].
    { intros [= <- <-]. split; [lia|]. intros _. exists 0%nat. repeat split; [lia | done]. }
    destruct (read_uint p (cur + NEXT_OBJECT_OFFSET)) as [next|e] eqn:Hnext.
    2:{ intros [= <- <-]. split; [lia | congruence]. }
    destruct (walk_objects p guid n next) as [r' k'] eqn:Hw.
    intros [= <- <-]. destruct (IH _ _ _ Hw) as [Hle Hfound].
    split; [lia|]. intros Hr. destruct (Hfound Hr) as (k & Hk & Hnth & Hguid).
    exists (S k). repeat split; [lia | | done]. simpl. by rewrite Hnext.
Qed.

Lemma get_object_manager_base_pm self :
  pm (_get_object_manager_base self).2 = pm self.
Proof.
  unfold _get_object_manager_base.
  repeat case_match; done.
Qed.

(** What a lookup gives, and how many iterations it takes. *)
Lemma find_object_counted_spec (self : MemoryReader) (guid_to_find : Z) :
  ∃ r self',
    find_object_counted self guid_to_find = (r, self') ∧
    _find_object_base_by_guid self guid_to_find = (fst <$> r, self') ∧
    pm self' = pm self ∧
    match r with
    | Raise e =>
        e = MemoryReadError ∧
        ∃ obj_mgr, read_uint (pm self) (obj_mgr + FIRST_OBJECT_OFFSET) = Raise e
    | Ok (found, iterations) =>
        (iterations ≤ 4096)%nat ∧
        (found ≠ 0 →
         ∃ obj_mgr first k,
           read_uint (pm self) (obj_mgr + FIRST_OBJECT_OFFSET) = Ok first ∧
           (k < iterations)%nat ∧
           nth_object (pm self) k first = Ok found ∧
           read_ulonglong (pm self) (found + OBJECT_GUID_OFFSET) = Ok guid_to_find)
    end.
Proof.
  unfold _find_object_base_by_guid, find_object_counted.
  pose proof (get_object_manager_base_pm self) as Hpm.
  destruct (_get_object_manager_base self) as [obj_mgr self1]; simpl in Hpm.
  destruct ((obj_mgr =? 0) || (guid_to_find =? 0)).
  { eexists _, _. repeat split; [done | lia | congruence]. }
  rewrite Hpm.
  destruct (read_uint (pm self) (obj_mgr + FIRST_OBJECT_OFFSET)) as [first|e] eqn:Hfirst.
  - destruct (walk_objects (pm self) guid_to_find object_walk_cap first)
      as [found its] eqn:Hw.
    eexists _, _. repeat split; [done | ..].
    + apply walk_objects_spec in Hw as [Hle _]. exact Hle.
    + intros Hf. apply walk_objects_spec in Hw as [_ Hw].
      destruct (Hw Hf) as (k & ? & ? & ?). by exists obj_mgr, first, k.
  - eexists _, _. repeat split; [done | | by exists obj_mgr].
    unfold read_uint, read_cell in Hfirst.
    destruct (cell_uint (pm self) (obj_mgr + FIRST_OBJECT_OFFSET)); congruence.
Qed.

Lemma passes_succ p guid first k :
  passes p guid first (S k) ↔
  first ≠ 0 ∧
  ∃ obj_guid next,
    read_ulonglong p (first + OBJECT_GUID_OFFSET) = Ok obj_guid ∧ obj_guid ≠ guid ∧
    read_uint p (first + NEXT_OBJECT_OFFSET) = Ok next ∧ passes p guid next k.
Proof.
  split.
  - intros H. destruct (H 0%nat ltac:(lia)) as (obj & g & next & [= <-] & H0 & Hg & Hne & Hnext).
    split; [done|]. exists g, next. split; [done|]. split; [done|]. split; [done|].
    intros j Hj. destruct (H (S j) ltac:(lia)) as (o & g' & n' & Hnth & ?).
    cbn [nth_object] in Hnth. rewrite Hnext in Hnth. by exists o, g', n'.
  - intros (H0 & g & next & Hg & Hne & Hnext & Hrest) [|j] Hj.
    + by exists first, g, next.
    + destruct (Hrest j ltac:(lia)) as (o & g' & n' & Hnth & ?).
      exists o, g', n'. split; [|done]. cbn [nth_object]. by rewrite Hnext.
Qed.

(** After [k] objects that let it pass, the walk goes on from the object
    number [k] with what is left of the range. *)
Lemma walk_objects_passes p guid k :
  ∀ n first obj,
    passes p guid first k → nth_object p k first = Ok obj →
    walk_objects p guid (k + n) first
    = ((walk_objects p guid n obj).1, (k + (walk_objects p guid n obj).2)%nat).
Proof.
  induction k as [|k IH]; intros n first obj Hpass Hnth.
  - injection Hnth as ->. cbn [Nat.add]. by destruct (walk_objects p guid n obj).
  - apply passes_succ in Hpass as (H0 & g & next & Hg & Hne & Hnext & Hrest).
    cbn [nth_object] in Hnth. rewrite Hnext in Hnth.
    change (S k + n)%nat with (S (k + n)). cbn [walk_objects].
    rewrite (proj2 (Z.eqb_neq _ _) H0), Hg, (proj2 (Z.eqb_neq _ _) Hne), Hnext.
    by rewrite (IH n next obj Hrest Hnth).
Qed.

Lemma passes_nth p guid first k :
  passes p guid first k → ∃ obj, nth_object p k first = Ok obj.
Proof.
  revert first. induction k as [|k IH]; intros first Hpass; [by exists first|].
  apply passes_succ in Hpass as (_ & g & next & _ & _ & Hnext & Hrest).
  destruct (IH next Hrest) as [obj Hobj]. exists obj. cbn [nth_object]. by rewrite Hnext.
Qed.

(** An address other than 0 comes out of the walk only for the first
    object that holds the searched identifier. *)
Lemma walk_objects_first_match p guid n :
  ∀ first found its,
    walk_objects p guid n first = (found, its) → found ≠ 0 →
    ∃ k, (k < its)%nat ∧ (its ≤ n)%nat ∧ passes p guid first k ∧
         nth_object p k first = Ok found ∧
         read_ulonglong p (found + OBJECT_GUID_OFFSET) = Ok guid.
Proof.
  induction n as [|n IH]; intros first found its; cbn [walk_objects].
  - intros [= <- <-]. done.
  - destruct (Z.eqb_spec first 0) as [->|Hfirst]; [by intros [= <- <-]|].
    destruct (read_ulonglong p (first + OBJECT_GUID_OFFSET)) as [g|e] eqn:Hg;
      [|by intros [= <- <-]].
    destruct (Z.eqb_spec g guid) as [->|Hne].
    { intros [= <- <-] _. exists 0%nat. split; [lia|]. split; [lia|].
      split; [intros j Hj; lia|]. by split. }
    destruct (read_uint p (first + NEXT_OBJECT_OFFSET)) as [next|e] eqn:Hnext;
      [|by intros [= <- <-]].
    destruct (walk_objects p guid n next) as [r i] eqn:Hw. intros [= <- <-] Hr.
    destruct (IH _ _ _ Hw Hr) as (k & Hk & Hle & Hpass & Hnth & Hguid).
    exists (S k). split; [lia|]. split; [lia|]. split; [|split; [|done]].
    + apply passes_succ. split; [done|]. by exists g, next.
    + cbn [nth_object]. by rewrite Hnext.
Qed.

(** The walk of at most [cap] iterations from the object [first], case by
    case. *)
Lemma walk_objects_cases p guid cap first :
  ∃ found its,
    walk_objects p guid cap first = (found, its) ∧
    (its ≤ cap)%nat ∧
    (∀ k, (k < cap)%nat → passes p guid first k → nth_object p k first = Ok 0 →
       found = 0 ∧ its = S k) ∧
    (passes p guid first cap → found = 0 ∧ its = cap) ∧
    (∀ k obj, (k < cap)%nat → passes p guid first k → nth_object p k first = Ok obj →
       obj ≠ 0 →
       (∃ e, read_ulonglong p (obj + OBJECT_GUID_OFFSET) = Raise e) ∨
       (∃ obj_guid e, read_ulonglong p (obj + OBJECT_GUID_OFFSET) = Ok obj_guid ∧
                      obj_guid ≠ guid ∧
                      read_uint p (obj + NEXT_OBJECT_OFFSET) = Raise e) →
       found = 0 ∧ its = S k) ∧
    (∀ k obj, (k < cap)%nat → passes p guid first k → nth_object p k first = Ok obj →
       obj ≠ 0 → read_ulonglong p (obj + OBJECT_GUID_OFFSET) = Ok guid →
       found = obj ∧ its = S k) ∧
    (found ≠ 0 →
       ∃ k, (k < its)%nat ∧ passes p guid first k ∧ nth_object p k first = Ok found ∧
            read_ulonglong p (found + OBJECT_GUID_OFFSET) = Ok guid).
Proof.
  destruct (walk_objects p guid cap first) as [found its] eqn:Hw.
  exists found, its. split; [done|].
  assert (Hstep : ∀ k obj, (k < cap)%nat → passes p guid first k →
            nth_object p k first = Ok obj →
            ∃ m, cap = (k + S m)%nat ∧
                 found = (walk_objects p guid (S m) obj).1 ∧
                 its = (k + (walk_objects p guid (S m) obj).2)%nat).
  { intros k obj Hk Hpass Hnth. exists (cap - S k)%nat. split; [lia|].
    replace cap with (k + S (cap - S k))%nat in Hw by lia.
    rewrite (walk_objects_passes p guid k _ first obj Hpass Hnth) in Hw.
    by injection Hw as <- <-. }
  split; [|split; [|split; [|split; [|split]]]].
  - by apply walk_objects_spec in Hw as [Hle _].
  - intros k Hk Hpass Hnth. destruct (Hstep k 0 Hk Hpass Hnth) as (m & _ & -> & ->).
    cbn [walk_objects Z.eqb fst snd]. split; [done|lia].
  - intros Hpass. destruct (passes_nth p guid first cap Hpass) as [obj Hnth].
    replace cap with (cap + 0)%nat in Hw by lia.
    rewrite (walk_objects_passes p guid cap 0 first obj Hpass Hnth) in Hw.
    cbn [walk_objects fst snd] in Hw. injection Hw as <- <-. split; [done|lia].
  - intros k obj Hk Hpass Hnth Hobj Hfail.
    destruct (Hstep k obj Hk Hpass Hnth) as (m & _ & -> & ->).
    cbn [walk_objects]. rewrite (proj2 (Z.eqb_neq _ _) Hobj).
    destruct Hfail as [[e ->]|(g & e & -> & Hne & ->)].
    + cbn [fst snd]. split; [done|lia].
    + rewrite (proj2 (Z.eqb_neq _ _) Hne). cbn [fst snd]. split; [done|lia].
  - intros k obj Hk Hpass Hnth Hobj Hguid.
    destruct (Hstep k obj Hk Hpass Hnth) as (m & _ & -> & ->).
    cbn [walk_objects]. rewrite (proj2 (Z.eqb_neq _ _) Hobj), Hguid, Z.eqb_refl.
    cbn [fst snd]. split; [done|lia].
  - intros Hfound.
    destruct (walk_objects_first_match p guid cap first found its Hw Hfound)
      as (k & ? & _ & ? & ? & ?).
    by exists k.
Qed.

(** C2. [_find_object_base_by_guid] is a total function of the reader and of
    the identifier, whatever the remote memory holds, and it enters its loop
    at most 4096 times.  With an object manager and an identifier other
    than 0, and a readable first object, the walk gives 0
    - when, after [k < 4096] objects that are not null and hold other
      identifiers, it comes to a null pointer (after [k + 1] iterations),
    - when the first 4096 objects are not null and hold other identifiers
      (the cap, after 4096 iterations), and
    - when a read fails at an object;
    it gives the address of an object only if this is the first object
    that holds the searched identifier, reached through objects that are
    not null in fewer hops than iterations.  The only other way out is the
    exception of the read of the first object, before the walk.  On two
    objects that point at each other the walk uses all 4096 iterations and
    gives 0; and it gives 0 at a null link although the cell behind the
    null pointer leads on to an object with the searched identifier. *)
Theorem find_object_bounded (self : MemoryReader) (guid_to_find : Z) :
  (∃ r,
     find_object_counted self guid_to_find = (r, (_get_object_manager_base self).2) ∧
     _find_object_base_by_guid self guid_to_find
     = (fst <$> r, (_get_object_manager_base self).2) ∧
     match r with
     | Raise e =>
         e = MemoryReadError ∧
         read_uint (pm self) ((_get_object_manager_base self).1 + FIRST_OBJECT_OFFSET)
         = Raise e
     | Ok (found, iterations) => (iterations ≤ 4096)%nat
     end) ∧
  ((_get_object_manager_base self).1 = 0 ∨ guid_to_find = 0 →
   find_object_counted self guid_to_find = (Ok (0, 0%nat), (_get_object_manager_base self).2)) ∧
  (∀ first,
     (_get_object_manager_base self).1 ≠ 0 → guid_to_find ≠ 0 →
     read_uint (pm self) ((_get_object_manager_base self).1 + FIRST_OBJECT_OFFSET) = Ok first →
     ∃ found iterations,
       find_object_counted self guid_to_find
       = (Ok (found, iterations), (_get_object_manager_base self).2) ∧
       (∀ k, (k < 4096)%nat → passes (pm self) guid_to_find first k →
          nth_object (pm self) k first = Ok 0 → found = 0 ∧ iterations = S k) ∧
       (passes (pm self) guid_to_find first 4096 → found = 0 ∧ iterations = 4096%nat) ∧
       (∀ k obj, (k < 4096)%nat → passes (pm self) guid_to_find first k →
          nth_object (pm self) k first = Ok obj → obj ≠ 0 →
          (∃ e, read_ulonglong (pm self) (obj + OBJECT_GUID_OFFSET) = Raise e) ∨
          (∃ obj_guid e,
             read_ulonglong (pm self) (obj + OBJECT_GUID_OFFSET) = Ok obj_guid ∧
             obj_guid ≠ guid_to_find ∧
             read_uint (pm self) (obj + NEXT_OBJECT_OFFSET) = Raise e) →
          found = 0 ∧ iterations = S k) ∧
       (∀ k obj, (k < 4096)%nat → passes (pm self) guid_to_find first k →
          nth_object (pm self) k first = Ok obj → obj ≠ 0 →
          read_ulonglong (pm self) (obj + OBJECT_GUID_OFFSET) = Ok guid_to_find →
          found = obj ∧ iterations = S k) ∧
       (found ≠ 0 →
          ∃ k, (k < iterations)%nat ∧ passes (pm self) guid_to_find first k ∧
               nth_object (pm self) k first = Ok found ∧
               read_ulonglong (pm self) (found + OBJECT_GUID_OFFSET) = Ok guid_to_find)) ∧
  find_object_counted Samples.cyclic_reader 5
  = (Ok (0, 4096%nat), set_object_manager_base Samples.cyclic_reader 0x2000) ∧
  (_find_object_base_by_guid Samples.cyclic_reader 5).1 = Ok 0 ∧
  find_object_counted Samples.null_then_more_reader 5
  = (Ok (0, 2%nat), set_object_manager_base Samples.null_then_more_reader 0x2000) ∧
  nth_object Samples.null_then_more 2 0x3000 = Ok 0x4000 ∧
  read_ulonglong Samples.null_then_more (0x4000 + OBJECT_GUID_OFFSET) = Ok 5.
Proof.
  pose proof (get_object_manager_base_pm self) as Hpm.
  assert (Hcounted : find_object_counted self guid_to_find
            = (if ((_get_object_manager_base self).1 =? 0) || (guid_to_find =? 0)
               then Ok (0, 0%nat)
               else
                 match read_uint (pm self)
                         ((_get_object_manager_base self).1 + FIRST_OBJECT_OFFSET) with
                 | Raise e => Raise e
                 | Ok first => Ok (walk_objects (pm self) guid_to_find object_walk_cap first)
                 end,
               (_get_object_manager_base self).2)).
  { unfold find_object_counted.
    destruct (_get_object_manager_base self) as [obj_mgr self1]. cbn [fst snd] in *.
    rewrite Hpm. destruct ((obj_mgr =? 0) || (guid_to_find =? 0)); [done|].
    by destruct (read_uint (pm self) (obj_mgr + FIRST_OBJECT_OFFSET)). }
  assert (Hfind : ∀ r self', find_object_counted self guid_to_find = (r, self') →
            _find_object_base_by_guid self guid_to_find = (fst <$> r, self')).
  { intros r self' H. unfold _find_object_base_by_guid. by rewrite H. }
  split; [|split; [|split; [|split; [|split; [|split; [|split]]]]]];
    [| | |by vm_compute..].
  - rewrite Hcounted. eexists. split; [done|]. split; [by apply Hfind|].
    destruct (((_get_object_manager_base self).1 =? 0) || (guid_to_find =? 0)); [lia|].
    destruct (read_uint (pm self) _) as [first|e] eqn:Hfirst.
    + destruct (walk_objects_cases (pm self) guid_to_find object_walk_cap first)
        as (found & its & -> & Hle & _). exact Hle.
    + split; [|done]. unfold read_uint, read_cell in Hfirst.
      destruct (cell_uint (pm self) _); congruence.
  - intros Hzero. rewrite Hcounted.
    assert (((_get_object_manager_base self).1 =? 0) || (guid_to_find =? 0) = true) as ->;
      [|done].
    apply orb_true_iff. destruct Hzero as [->| ->]; [by left|by right].
  - intros first Hmgr Hguid Hfirst. rewrite Hcounted, Hfirst.
    rewrite (proj2 (Z.eqb_neq _ _) Hmgr), (proj2 (Z.eqb_neq _ _) Hguid). cbn [orb].
    destruct (walk_objects_cases (pm self) guid_to_find object_walk_cap first)
      as (found & its & -> & _ & Hcases).
    exists found, its. split; [done|]. exact Hcases.
Qed.

(** *** The snapshot: stepping through [get_combat_stats] *)

Section Stepping.
Context {A B : Type}.

Lemma bindM_Some (m : M A) (k : A → M B) self b self' :
  bindM m k self = (Ok (Some b), self') →
  ∃ a self1, m self = (Ok (Some a), self1) ∧ k a self1 = (Ok (Some b), self').
Proof.
  unfold bindM. destruct (m self) as [[[a|]|e] self1]; try done. eauto.
Qed.

Lemma bindM_Raise (m : M A) (k : A → M B) self e self' :
  bindM m k self = (Raise e, self') →
  m self = (Raise e, self') ∨
  ∃ a self1, m self = (Ok (Some a), self1) ∧ k a self1 = (Raise e, self').
Proof.
  unfold bindM. destruct (m self) as [[[a|]|e'] self1]; intros H.
  - right. eauto.
  - done.
  - left. by simplify_eq.
Qed.

Lemma readM_Some (rd : Pymem → Z → result A) address self v self' :
  readM rd address self = (Ok (Some v), self') →
  rd (pm self) address = Ok v ∧ self' = self.
Proof.
  unfold readM. destruct (rd (pm self) address); simpl; by intros [= <- <-].
Qed.

Lemma readM_Raise (rd : Pymem → Z → result A) address self e self' :
  readM rd address self = (Raise e, self') →
  rd (pm self) address = Raise e ∧ self' = self.
Proof.
  unfold readM. destruct (rd (pm self) address); simpl; by intros [= <- <-].
Qed.

Lemma callM_Some (f : MemoryReader → result A * MemoryReader) self v self' :
  callM f self = (Ok (Some v), self') → f self = (Ok v, self').
Proof.
  unfold callM. destruct (f self) as [[a|e] self1]; simpl; by intros [= <- <-].
Qed.

Lemma liftM_Some (r : result A) self v self' :
  liftM r self = (Ok (Some v), self') → r = Ok v ∧ self' = self.
Proof. unfold liftM. destruct r; simpl; by intros [= <- <-]. Qed.

Lemma retM_Some (a b : A) self self' :
  retM a self = (Ok (Some b), self') → a = b ∧ self' = self.
Proof. by intros [= <- <-]. Qed.

End Stepping.

Lemma require_Some (b : bool) self u self' :
  require b self = (Ok (Some u), self') → b = true ∧ self' = self.
Proof. destruct b; simpl; by intros [= <-]. Qed.

Lemma set_percent_Some key value max stats self stats' self' :
  set_percent key value max stats self = (Ok (Some stats'), self') →
  self' = self ∧
  ∃ p, stats' = with_percent key max p stats ∧
       (if max >? 0 then percent value max = Ok p else p = 0).
Proof.
  unfold set_percent, with_percent. destruct (max >? 0).
  - intros (p & self1 & [Hp ->]%liftM_Some & [<- <-]%retM_Some)%bindM_Some. eauto.
  - intros [<- <-]%retM_Some. eauto.
Qed.

Lemma set_percent_Raise key value max stats self e self' :
  set_percent key value max stats self = (Raise e, self') →
  max > 0 ∧ percent value max = Raise e.
Proof.
  unfold set_percent. destruct (Z.gtb_spec max 0) as [Hmax|Hmax]; [|done].
  intros [Hr|(p & self1 & _ & Hr)]%bindM_Raise; [|done].
  unfold liftM in Hr. destruct (percent value max); simpl in Hr; [done|].
  injection Hr as <- _. split; [lia | done].
Qed.

Lemma find_object_pm self guid :
  pm (_find_object_base_by_guid self guid).2 = pm self.
Proof.
  destruct (find_object_counted_spec self guid) as (r & self' & _ & -> & Hpm & _). done.
Qed.

Lemma read_player_Some stats self stats' self' :
  read_player stats self = (Ok (Some stats'), self') →
  pm self' = pm self ∧
  ∃ obj_mgr player_guid player_base descriptor_ptr combo hp max_hp mp max_mp level php pmp,
    _get_object_manager_base self = (obj_mgr, (_get_object_manager_base self).2) ∧
    obj_mgr ≠ 0 ∧
    read_uchar (pm self) COMBO_POINTS_STATIC = Ok combo ∧
    read_ulonglong (pm self) (obj_mgr + LOCAL_GUID_OFFSET) = Ok player_guid ∧
    player_guid ≠ 0 ∧
    _find_object_base_by_guid (_get_object_manager_base self).2 player_guid
      = (Ok player_base, self') ∧
    player_base ≠ 0 ∧
    read_uint (pm self) (player_base + M_STORAGE_OFFSET) = Ok descriptor_ptr ∧
    descriptor_ptr ≠ 0 ∧
    read_int (pm self) (descriptor_ptr + UNIT_FIELD_HEALTH) = Ok hp ∧
    read_int (pm self) (descriptor_ptr + UNIT_FIELD_MAXHEALTH) = Ok max_hp ∧
    read_int (pm self) (descriptor_ptr + UNIT_FIELD_POWER1) = Ok mp ∧
    read_int (pm self) (descriptor_ptr + UNIT_FIELD_MAXPOWER1) = Ok max_mp ∧
    read_int (pm self) (descriptor_ptr + UNIT_FIELD_LEVEL) = Ok level ∧
    (if max_hp >? 0 then percent hp max_hp = Ok php else php = 0) ∧
    (if max_mp >? 0 then percent mp max_mp = Ok pmp else pmp = 0) ∧
    stats' = player_stats combo hp max_hp mp max_mp level php pmp stats.
Proof.
  unfold read_player.
  intros (obj_mgr & s1 & Hmgr%callM_Some & H)%bindM_Some.
  apply bindM_Some in H as ([] & ? & [Hmgr0 ->]%require_Some & H).
  apply bindM_Some in H as (combo & ? & [Hcombo ->]%readM_Some & H).
  apply bindM_Some in H as (player_guid & ? & [Hguid ->]%readM_Some & H).
  apply bindM_Some in H as ([] & ? & [Hguid0 ->]%require_Some & H).
  apply bindM_Some in H as (player_base & s2 & Hfind%callM_Some & H).
  apply bindM_Some in H as ([] & ? & [Hbase0 ->]%require_Some & H).
  apply bindM_Some in H as (descriptor_ptr & ? & [Hdesc ->]%readM_Some & H).
  apply bindM_Some in H as ([] & ? & [Hdesc0 ->]%require_Some & H).
  apply bindM_Some in H as (hp & ? & [Hhp ->]%readM_Some & H).
  apply bindM_Some in H as (max_hp & ? & [Hmhp ->]%readM_Some & H).
  apply bindM_Some in H as (mp & ? & [Hmp ->]%readM_Some & H).
  apply bindM_Some in H as (max_mp & ? & [Hmmp ->]%readM_Some & H).
  apply bindM_Some in H as (level & ? & [Hlvl ->]%readM_Some & H).
  apply bindM_Some in H as (st1 & ? & (-> & php & -> & Hphp)%set_percent_Some & H).
  apply set_percent_Some in H as (-> & pmp & -> & Hpmp).
  pose proof (get_object_manager_base_pm self) as Hpm1.
  destruct (_get_object_manager_base self) as [b s1'] eqn:Hb.
  simpl in Hmgr, Hpm1. injection Hmgr as -> ->.
  pose proof (find_object_pm s1 player_guid) as Hpm2. rewrite Hfind in Hpm2.
  simpl in Hpm2.
  assert (Hpm : pm s2 = pm self) by congruence.
  rewrite Hpm1 in Hcombo, Hguid. rewrite Hpm in Hdesc, Hhp, Hmhp, Hmp, Hmmp, Hlvl.
  split; [done|].
  exists obj_mgr, player_guid, player_base, descriptor_ptr, combo, hp, max_hp, mp, max_mp,
    level, php, pmp.
  simpl. repeat split; try done.
  all: apply negb_true_iff, Z.eqb_neq in Hmgr0, Hguid0, Hbase0, Hdesc0; done.
Qed.

Lemma read_target_fields_Some target_desc_ptr stats self stats' self' :
  read_target_fields target_desc_ptr stats self = (Ok (Some stats'), self') →
  self' = self ∧
  ∃ hp max_hp level p,
    read_int (pm self) (target_desc_ptr + UNIT_FIELD_HEALTH) = Ok hp ∧
    read_int (pm self) (target_desc_ptr + UNIT_FIELD_MAXHEALTH) = Ok max_hp ∧
    read_int (pm self) (target_desc_ptr + UNIT_FIELD_LEVEL) = Ok level ∧
    (if max_hp >? 0 then percent hp max_hp = Ok p else p = 0) ∧
    stats' = target_stats hp max_hp level p stats.
Proof.
  unfold read_target_fields.
  intros (hp & ? & [Hhp ->]%readM_Some & H)%bindM_Some.
  apply bindM_Some in H as (max_hp & ? & [Hmhp ->]%readM_Some & H).
  apply bindM_Some in H as (level & ? & [Hlvl ->]%readM_Some & H).
  apply set_percent_Some in H as (-> & p & -> & Hp).
  split; [done|]. by exists hp, max_hp, level, p.
Qed.

Lemma read_target_Some stats self stats' self' :
  read_target stats self = (Ok (Some stats'), self') →
  pm self' = pm self ∧
  ∃ target_guid,
    read_ulonglong (pm self) TARGET_GUID_STATIC = Ok target_guid ∧
    if target_guid >? 0 then
      ∃ target_base,
        _find_object_base_by_guid self target_guid = (Ok target_base, self') ∧
        if target_base =? 0 then stats' = <["has_target" := PBool true]> stats
        else
          ∃ target_desc_ptr stats2,
            read_uint (pm self) (target_base + M_STORAGE_OFFSET) = Ok target_desc_ptr ∧
            (if target_desc_ptr =? 0 then stats2 = <["has_target" := PBool true]> stats
             else ∃ hp max_hp level p,
                 read_int (pm self) (target_desc_ptr + UNIT_FIELD_HEALTH) = Ok hp ∧
                 read_int (pm self) (target_desc_ptr + UNIT_FIELD_MAXHEALTH) = Ok max_hp ∧
                 read_int (pm self) (target_desc_ptr + UNIT_FIELD_LEVEL) = Ok level ∧
                 (if max_hp >? 0 then percent hp max_hp = Ok p else p = 0) ∧
                 stats2 = target_stats hp max_hp level p
                            (<["has_target" := PBool true]> stats)) ∧
            stats' = read_target_name (pm self) target_base stats2
    else stats' = <["has_target" := PBool false]> stats ∧ self' = self.
Proof.
  unfold read_target.
  intros (target_guid & ? & [Hguid ->]%readM_Some & H)%bindM_Some.
  destruct (target_guid >? 0) eqn:Hpos.
  2:{ apply retM_Some in H as [<- <-]. split; [done|]. exists target_guid.
      by rewrite Hpos. }
  apply bindM_Some in H as (target_base & s1 & Hfind%callM_Some & H).
  pose proof (find_object_pm self target_guid) as Hpm. rewrite Hfind in Hpm.
  simpl in Hpm.
  destruct (target_base =? 0) eqn:Hbase; simpl in H.
  { apply retM_Some in H as [<- <-]. split; [done|]. exists target_guid.
    split; [done|]. rewrite Hpos. exists target_base. by rewrite Hbase. }
  apply bindM_Some in H as (target_desc_ptr & ? & [Hdesc ->]%readM_Some & H).
  apply bindM_Some in H as (stats2 & s2 & H2 & H).
  rewrite Hpm in Hdesc.
  assert (s2 = s1 ∧
    if target_desc_ptr =? 0 then stats2 = <["has_target" := PBool true]> stats
    else ∃ hp max_hp level p,
        read_int (pm self) (target_desc_ptr + UNIT_FIELD_HEALTH) = Ok hp ∧
        read_int (pm self) (target_desc_ptr + UNIT_FIELD_MAXHEALTH) = Ok max_hp ∧
        read_int (pm self) (target_desc_ptr + UNIT_FIELD_LEVEL) = Ok level ∧
        (if max_hp >? 0 then percent hp max_hp = Ok p else p = 0) ∧
        stats2 = target_stats hp max_hp level p (<["has_target" := PBool true]> stats))
    as [-> H2'].
  { destruct (target_desc_ptr =? 0); simpl in H2.
    - by apply retM_Some in H2 as [<- <-].
    - apply read_target_fields_Some in H2 as (-> & H2). by rewrite <- Hpm. }
  cbv beta in H. apply retM_Some in H as [<- <-]. split; [done|].
  exists target_guid. split; [done|]. rewrite Hpos. exists target_base.
  split; [done|]. rewrite Hbase.
  exists target_desc_ptr, stats2. by rewrite Hpm.
Qed.

Lemma get_combat_stats_Some self stats self' :
  get_combat_stats self = (Some stats, self') →
  ∃ stats1 self1,
    read_player initial_stats self = (Ok (Some stats1), self1) ∧
    read_target stats1 self1 = (Ok (Some stats), self').
Proof.
  unfold get_combat_stats.
  destruct (get_combat_stats_body self) as [[r|e] s1] eqn:Hbody; [|done].
  intros [= -> ->]. by apply bindM_Some in Hbody.
Qed.

Lemma read_target_name_lookup p target_base stats key :
  key ≠ "target_name" →
  read_target_name p target_base stats !! key = stats !! key.
Proof.
  intros Hne. unfold read_target_name.
  destruct (target_name_chain p target_base) as [[name|]|e]; [|done|];
    by rewrite lookup_insert_ne.
Qed.

Lemma read_cell_not_zero_division {A C} (conv : A → C) cell address :
  read_cell conv cell address ≠ Raise ZeroDivisionError.
Proof. unfold read_cell. by destruct (cell address). Qed.

Lemma no_zero_division_bind {A C} (m : M A) (k : A → M C) :
  no_zero_division m → (∀ a, no_zero_division (k a)) → no_zero_division (bindM m k).
Proof.
  intros Hm Hk self self' [H|(a & self1 & _ & H)]%bindM_Raise.
  - by apply Hm in H.
  - by apply Hk in H.
Qed.

Lemma no_zero_division_read {A} (rd : Pymem → Z → result A) address :
  (∀ p a, rd p a ≠ Raise ZeroDivisionError) →
  no_zero_division (readM rd address).
Proof. intros Hrd self self' [H _]%readM_Raise. by apply Hrd in H. Qed.

Lemma no_zero_division_ret {A} (f : MemoryReader → A) :
  no_zero_division (λ self, retM (f self) self).
Proof. done. Qed.

Lemma no_zero_division_manager :
  no_zero_division
    (callM (λ self, let '(b, self') := _get_object_manager_base self in (Ok b, self'))).
Proof. intros self self'. unfold callM. by destruct (_get_object_manager_base self). Qed.

Lemma no_zero_division_require b : no_zero_division (require b).
Proof. by destruct b. Qed.

Lemma no_zero_division_find guid :
  no_zero_division (callM (λ self, _find_object_base_by_guid self guid)).
Proof.
  intros self self'. unfold callM.
  destruct (find_object_counted_spec self guid) as (r & s1 & _ & -> & _ & Hr).
  destruct r as [[found its]|e]; simpl; [done|].
  destruct Hr as [-> _]. done.
Qed.

Lemma no_zero_division_set_percent key value max stats :
  no_zero_division (set_percent key value max stats).
Proof.
  intros self self' [Hmax H]%set_percent_Raise.
  apply percent_not_zero_division in H; [done | lia].
Qed.

Lemma no_zero_division_body : no_zero_division get_combat_stats_body.
Proof.
  unfold get_combat_stats_body, read_player, read_target, read_target_fields.
  repeat first
    [ apply no_zero_division_bind; [|intros ?]
    | apply no_zero_division_manager
    | apply no_zero_division_read; intros; apply read_cell_not_zero_division
    | apply no_zero_division_require
    | apply no_zero_division_find
    | apply no_zero_division_set_percent
    | apply no_zero_division_ret
    | apply (no_zero_division_ret (λ _, _))
    | case_match ].
Qed.

(** C1. In every snapshot that [get_combat_stats] returns, the three derived
    percent fields (player health, player mana, target health) are
    [round((value / max) * 100)] of their value and maximum fields when the
    maximum is above 0 and are 0 otherwise; no call, returning a snapshot or
    not, runs into a division by zero; and 4500 of 6000 gives 75, also
    through a whole snapshot. *)
Theorem snapshot_percent_fields (self : MemoryReader) :
  (get_combat_stats_body self).1 ≠ Raise ZeroDivisionError ∧
  match (get_combat_stats self).1 with
  | Some stats =>
      percent_field_ok "player_hp" "player_max_hp" "player_hp_percent" stats ∧
      percent_field_ok "player_mp" "player_max_mp" "player_mp_percent" stats ∧
      percent_field_ok "target_hp" "target_max_hp" "target_hp_percent" stats
  | None => True
  end ∧
  percent 4500 6000 = Ok 75 ∧
  (get_combat_stats Samples.combat_reader).1 = Some Samples.combat_snapshot ∧
  Samples.combat_snapshot !! "player_hp_percent" = Some (PInt 75).
Proof.
  split; [|split; [|split; [by vm_compute | split; reflexivity]]].
  { intros Hz. apply (no_zero_division_body self (get_combat_stats_body self).2).
    destruct (get_combat_stats_body self) as [r s1]. simpl in *. by subst. }
  destruct (get_combat_stats self) as [[stats|] self'] eqn:Hget; [|done]. simpl.
  apply get_combat_stats_Some in Hget as (stats1 & self1 & Hplayer & Htarget).
  apply read_player_Some in Hplayer
    as (_ & obj_mgr & player_guid & player_base & descriptor_ptr & combo & hp & max_hp
        & mp & max_mp & level & php & pmp & _ & _ & _ & _ & _ & _ & _ & _ & _ & _ & _ & _
        & _ & _ & Hphp & Hpmp & ->).
  apply read_target_Some in Htarget as (_ & target_guid & _ & Htarget).
  assert (Hplayer :
    ∀ st, (∀ k, k ∈ ["player_hp"; "player_max_hp"; "player_hp_percent";
                      "player_mp"; "player_max_mp"; "player_mp_percent"] →
                st !! k = player_stats combo hp max_hp mp max_mp level php pmp
                            initial_stats !! k) →
    percent_field_ok "player_hp" "player_max_hp" "player_hp_percent" st ∧
    percent_field_ok "player_mp" "player_max_mp" "player_mp_percent" st).
  { intros st Hst. split.
    - exists hp, max_hp, php. rewrite !Hst by key_in.
      unfold player_stats, with_percent.
      destruct (max_hp >? 0), (max_mp >? 0); subst; by dict_lookup.
    - exists mp, max_mp, pmp. rewrite !Hst by key_in.
      unfold player_stats, with_percent.
      destruct (max_hp >? 0), (max_mp >? 0); subst; by dict_lookup. }
  assert (Hinit : ∀ k, k ∈ ["target_hp"; "target_max_hp"; "target_hp_percent"] →
    player_stats combo hp max_hp mp max_mp level php pmp initial_stats !! k
    = initial_stats !! k).
  { intros k Hk. unfold player_stats, with_percent.
    destruct (max_hp >? 0), (max_mp >? 0);
      repeat (rewrite lookup_insert_ne; [|key_ne]); done. }
  destruct (target_guid >? 0).
  2:{ destruct Htarget as [-> _]. split_and!.
      1,2: apply Hplayer; intros k Hk; rewrite lookup_insert_ne; [done | key_ne].
      exists 0, 0, 0. rewrite !lookup_insert_ne by done.
      rewrite !Hinit by key_in. done. }
  destruct Htarget as (target_base & _ & Htarget).
  destruct (target_base =? 0).
  { subst stats. split_and!.
      1,2: apply Hplayer; intros k Hk; rewrite lookup_insert_ne; [done | key_ne].
      exists 0, 0, 0. rewrite !lookup_insert_ne by done.
      rewrite !Hinit by key_in. done. }
  destruct Htarget as (target_desc_ptr & stats2 & _ & Hstats2 & ->).
  destruct (target_desc_ptr =? 0).
  { subst stats2. split_and!.
      1,2: apply Hplayer; intros k Hk;
        rewrite read_target_name_lookup, lookup_insert_ne; [done | key_ne..].
      exists 0, 0, 0. rewrite !read_target_name_lookup, !lookup_insert_ne by done.
      rewrite !Hinit by key_in. done. }
  destruct Hstats2 as (thp & tmax & tlevel & tp & _ & _ & _ & Htp & ->).
  split_and!.
  1,2: apply Hplayer; intros k Hk; rewrite read_target_name_lookup by key_ne;
    unfold target_stats, with_percent; destruct (tmax >? 0);
    repeat (rewrite lookup_insert_ne; [|key_ne]); done.
  exists thp, tmax, tp. rewrite !read_target_name_lookup by done.
  unfold target_stats, with_percent. destruct (tmax >? 0).
  - by dict_lookup.
  - subst tp. dict_lookup. by rewrite Hinit by key_in.
Qed.

(** *** The schema of the snapshot *)

Lemma has_schema_insert key v stats :
  field_typed key v → has_schema stats → has_schema (<[key := v]> stats).
Proof.
  intros Hv Hst k. assert (Hkey : key ∈ schema).
  { unfold schema. apply elem_of_app.
    destruct v; simpl in Hv; try done; [right | by left | right]; subst; key_in. }
  destruct (decide (key = k)) as [<-|Hne].
  - rewrite lookup_insert_eq. split; [eauto | done].
  - rewrite lookup_insert_ne by done. apply Hst.
Qed.

Lemma has_schema_initial : has_schema initial_stats.
Proof.
  intros key. split.
  - intros Hk. unfold schema, numeric_fields in Hk. simpl in Hk.
    repeat (apply elem_of_cons in Hk as [->|Hk];
            [eexists; split; [reflexivity | simpl; unfold numeric_fields; key_in]|]).
    by apply elem_of_nil in Hk.
  - intros Hk. unfold initial_stats.
    repeat (rewrite lookup_insert_ne;
            [|intros <-; apply Hk; unfold schema, numeric_fields; simpl; key_in]).
    done.
Qed.

Lemma has_schema_with_percent key max p stats :
  key ∈ numeric_fields → has_schema stats → has_schema (with_percent key max p stats).
Proof.
  intros Hk Hst. unfold with_percent. destruct (max >? 0); [|done].
  by apply has_schema_insert.
Qed.

Lemma has_schema_read_target_name p target_base stats :
  has_schema stats → has_schema (read_target_name p target_base stats).
Proof.
  intros Hst. unfold read_target_name.
  destruct (target_name_chain p target_base) as [[name|]|e]; [|done|];
    by apply has_schema_insert.
Qed.

Lemma has_schema_player_stats combo hp max_hp mp max_mp level php pmp stats :
  has_schema stats →
  has_schema (player_stats combo hp max_hp mp max_mp level php pmp stats).
Proof.
  intros Hst. unfold player_stats.
  repeat first [ apply has_schema_with_percent; [unfold numeric_fields; key_in|]
               | apply has_schema_insert; [simpl; unfold numeric_fields; key_in|] ].
  done.
Qed.

Lemma has_schema_target_stats hp max_hp level p stats :
  has_schema stats → has_schema (target_stats hp max_hp level p stats).
Proof.
  intros Hst. unfold target_stats.
  repeat first [ apply has_schema_with_percent; [unfold numeric_fields; key_in|]
               | apply has_schema_insert; [simpl; unfold numeric_fields; key_in|] ].
  done.
Qed.

Lemma get_combat_stats_schema self stats self' :
  get_combat_stats self = (Some stats, self') → has_schema stats.
Proof.
  intros (stats1 & self1 & Hplayer & Htarget)%get_combat_stats_Some.
  apply read_player_Some in Hplayer
    as (_ & obj_mgr & player_guid & player_base & descriptor_ptr & combo & hp & max_hp
        & mp & max_mp & level & php & pmp & _ & _ & _ & _ & _ & _ & _ & _ & _ & _ & _ & _
        & _ & _ & _ & _ & ->).
  assert (Hplayer : has_schema
            (player_stats combo hp max_hp mp max_mp level php pmp initial_stats)).
  { apply has_schema_player_stats, has_schema_initial. }
  apply read_target_Some in Htarget as (_ & target_guid & _ & Htarget).
  destruct (target_guid >? 0).
  2:{ destruct Htarget as [-> _]. by apply has_schema_insert. }
  destruct Htarget as (target_base & _ & Htarget).
  destruct (target_base =? 0).
  { subst stats. by apply has_schema_insert. }
  destruct Htarget as (target_desc_ptr & stats2 & _ & Hstats2 & ->).
  apply has_schema_read_target_name.
  destruct (target_desc_ptr =? 0).
  { subst stats2. by apply has_schema_insert. }
  destruct Hstats2 as (thp & tmax & tlevel & tp & _ & _ & _ & _ & ->).
  by apply has_schema_target_stats, has_schema_insert.
Qed.




(** *** The target part of the snapshot *)

Section Running.
Context {A B : Type}.

Lemma bindM_run (m : M A) (k : A → M B) self a self1 :
  m self = (Ok (Some a), self1) → bindM m k self = k a self1.
Proof. unfold bindM. by intros ->. Qed.

Lemma readM_run (rd : Pymem → Z → result A) address self v :
  rd (pm self) address = Ok v → readM rd address self = (Ok (Some v), self).
Proof. unfold readM. by intros ->. Qed.

Lemma readM_fail (rd : Pymem → Z → result A) address self e (k : A → M B) :
  rd (pm self) address = Raise e →
  bindM (readM rd address) k self = (Raise e, self).
Proof. unfold bindM, readM. by intros ->. Qed.

End Running.

Lemma get_object_manager_base_cached self b self' :
  _get_object_manager_base self = (b, self') → b ≠ 0 →
  _get_object_manager_base self' = (b, self').
Proof.
  unfold _get_object_manager_base.
  destruct (Z.eqb_spec (object_manager_base self) 0) as [H0|H0]; simpl.
  - destruct (read_uint (pm self) CUR_MGR_POINTER) as [cc|e]; [|by intros [= <- <-]].
    destruct (cc =? 0); [by intros [= <- <-]|].
    destruct (read_uint (pm self) (cc + CUR_MGR_OFFSET)) as [b'|e];
      [|by intros [= <- <-]].
    intros [= <- <-] Hb. simpl. by destruct (Z.eqb_spec b' 0).
  - intros [= <- <-] _. by destruct (Z.eqb_spec (object_manager_base self) 0).
Qed.

(** Once the player was found, the object manager is cached and the first
    object can be read: a second lookup on the same memory does not raise. *)
Lemma find_after_player stats1 self self1 :
  read_player initial_stats self = (Ok (Some stats1), self1) →
  ∀ guid, ∃ target_base,
    _find_object_base_by_guid self1 guid = (Ok target_base, self1).
Proof.
  intros (Hpm & obj_mgr & player_guid & player_base & descriptor_ptr & combo & hp & max_hp
          & mp & max_mp & level & php & pmp & Hmgr & Hmgr0 & _ & _ & Hguid0 & Hfind
          & Hbase0 & _)%read_player_Some guid.
  destruct (_get_object_manager_base self) as [b s0] eqn:Hb. simpl in Hmgr, Hfind.
  injection Hmgr as ->.
  pose proof (get_object_manager_base_cached _ _ _ Hb Hmgr0) as Hcached.
  unfold _find_object_base_by_guid, find_object_counted in Hfind |- *.
  generalize dependent object_walk_cap. intros cap Hfind.
  rewrite Hcached in Hfind.
  destruct (Z.eqb_spec obj_mgr 0) as [|_]; [done|].
  destruct (Z.eqb_spec player_guid 0) as [|_]; [done|]. simpl in Hfind.
  destruct (read_uint (pm s0) (obj_mgr + FIRST_OBJECT_OFFSET)) as [first|e] eqn:Hfirst;
    [|done].
  simpl in Hfind. injection Hfind as _ <-.
  rewrite Hcached. destruct (Z.eqb_spec obj_mgr 0) as [|_]; [done|]. simpl.
  destruct (guid =? 0); simpl; [by eexists|].
  rewrite Hfirst. simpl. by eexists.
Qed.

Lemma read_int_range p address v : read_int p address = Ok v → Z.abs v < 2 ^ 32.
Proof.
  unfold read_int, read_cell. destruct (cell_int p address); [|done].
  intros [= <-]. apply signed_32_range.
Qed.

Lemma read_ulonglong_nonneg p address v : read_ulonglong p address = Ok v → 0 ≤ v.
Proof.
  unfold read_ulonglong, read_cell, unsigned. destruct (cell_ulonglong p address); [|done].
  intros [= <-]. by apply Z.mod_pos_bound.
Qed.

Lemma set_percent_run key value max stats self :
  Z.abs value < 2 ^ 32 →
  ∃ p, set_percent key value max stats self
       = (Ok (Some (with_percent key max p stats)), self).
Proof.
  intros Hv. unfold set_percent, with_percent.
  destruct (Z.gtb_spec max 0) as [Hmax|Hmax]; [|by exists 0].
  destruct (percent_total value max Hv ltac:(lia)) as [p Hp]. exists p.
  unfold bindM, liftM. by rewrite Hp.
Qed.

Lemma read_target_fields_run target_desc_ptr stats self :
  if is_ok (read_int (pm self) (target_desc_ptr + UNIT_FIELD_HEALTH))
     && is_ok (read_int (pm self) (target_desc_ptr + UNIT_FIELD_MAXHEALTH))
     && is_ok (read_int (pm self) (target_desc_ptr + UNIT_FIELD_LEVEL))
  then ∃ stats', read_target_fields target_desc_ptr stats self = (Ok (Some stats'), self)
  else ∃ e, read_target_fields target_desc_ptr stats self = (Raise e, self).
Proof.
  unfold read_target_fields.
  destruct (read_int (pm self) (target_desc_ptr + UNIT_FIELD_HEALTH)) as [hp|e] eqn:Hhp;
    simpl; [|exists e; by apply readM_fail].
  rewrite (bindM_run _ _ _ _ _ (readM_run _ _ _ _ Hhp)).
  destruct (read_int (pm self) (target_desc_ptr + UNIT_FIELD_MAXHEALTH))
    as [max_hp|e] eqn:Hmax; simpl; [|exists e; by apply readM_fail].
  rewrite (bindM_run _ _ _ _ _ (readM_run _ _ _ _ Hmax)).
  destruct (read_int (pm self) (target_desc_ptr + UNIT_FIELD_LEVEL))
    as [level|e] eqn:Hlevel; simpl; [|exists e; by apply readM_fail].
  rewrite (bindM_run _ _ _ _ _ (readM_run _ _ _ _ Hlevel)).
  destruct (set_percent_run "target_hp_percent" hp max_hp
              (<["target_level":=PInt level]>
                 (<["target_max_hp":=PInt max_hp]> (<["target_hp":=PInt hp]> stats)))
              self (read_int_range _ _ _ Hhp)) as [p Hp].
  eauto.
Qed.

Lemma player_stats_target_keys combo hp max_hp mp max_mp level php pmp key :
  key ∈ ["target_hp"; "target_max_hp"; "target_hp_percent"; "target_level"; "target_name"] →
  player_stats combo hp max_hp mp max_mp level php pmp initial_stats !! key
  = initial_stats !! key.
Proof.
  intros Hk. unfold player_stats, with_percent.
  destruct (max_hp >? 0), (max_mp >? 0);
    repeat (rewrite lookup_insert_ne; [|key_ne]); done.
Qed.

Lemma read_target_name_raises p target_base stats e :
  target_name_chain p target_base = Raise e →
  read_target_name p target_base stats !! "target_name" = Some (PStr "").
Proof. unfold read_target_name. intros ->. by rewrite lookup_insert_eq. Qed.

(** The target part of the snapshot, case by case. When the player side of
    the snapshot succeeds and the target identifier is not 0, the lookup of
    the target object does not raise, and:
    - if the target object is not found (a read failure inside the walk
      included), or if its descriptor pointer and, where that is not null,
      its three descriptor fields can be read, the call returns a snapshot
      with [has_target] set; the target statistics are all 0 when the object
      is not found or the descriptor pointer is null, and the target name is
      empty when the object is not found or a read of the name chain fails;
    - otherwise, that is when the read of the descriptor pointer or of one of
      the three descriptor fields of a found target fails, the call returns
      [None]. *)
Theorem target_path_degrades (self self1 : MemoryReader)
    (stats1 : gmap string pyval) (target_guid : Z) :
  read_player initial_stats self = (Ok (Some stats1), self1) →
  read_ulonglong (pm self) TARGET_GUID_STATIC = Ok target_guid →
  target_guid ≠ 0 →
  ∃ target_base,
    _find_object_base_by_guid self1 target_guid = (Ok target_base, self1) ∧
    if (target_base =? 0) || target_fields_readable (pm self) target_base then
      ∃ stats,
        get_combat_stats self = (Some stats, self1) ∧
        stats !! "has_target" = Some (PBool true) ∧
        (target_base = 0 ∨ read_uint (pm self) (target_base + M_STORAGE_OFFSET) = Ok 0 →
         zero_target_stats stats) ∧
        (target_base = 0 ∨ (∃ e, target_name_chain (pm self) target_base = Raise e) →
         stats !! "target_name" = Some (PStr ""))
    else get_combat_stats self = (None, self1).
Proof.
  intros Hplayer Hguid Hguid0.
  destruct (find_after_player _ _ _ Hplayer target_guid) as [target_base Hfind].
  exists target_base. split; [done|].
  pose proof Hplayer as (Hpm & obj_mgr & player_guid & player_base & descriptor_ptr
          & combo & hp & max_hp & mp & max_mp & level & php & pmp & _ & _ & _ & _ & _ & _
          & _ & _ & _ & _ & _ & _ & _ & _ & _ & _ & Hstats1)%read_player_Some.
  assert (Hkeys : ∀ key,
    key ∈ ["target_hp"; "target_max_hp"; "target_hp_percent"; "target_level"; "target_name"] →
    stats1 !! key = initial_stats !! key).
  { intros key Hk. subst stats1. by apply player_stats_target_keys. }
  clear Hstats1.
  unfold get_combat_stats, get_combat_stats_body.
  rewrite (bindM_run _ _ _ _ _ Hplayer). unfold read_target.
  rewrite <- Hpm in Hguid. rewrite (bindM_run _ _ _ _ _ (readM_run _ _ _ _ Hguid)).
  assert ((target_guid >? 0) = true) as ->.
  { apply read_ulonglong_nonneg in Hguid. apply Z.gtb_lt. lia. }
  assert (Hcall : callM (λ self0, _find_object_base_by_guid self0 target_guid) self1
                  = (Ok (Some target_base), self1)).
  { unfold callM. by rewrite Hfind. }
  rewrite (bindM_run _ _ _ _ _ Hcall).
  destruct (Z.eqb_spec target_base 0) as [->|Hbase]; simpl.
  { eexists. split; [done|]. split; [by rewrite lookup_insert_eq|].
    split; intros _.
    - unfold zero_target_stats. rewrite !lookup_insert_ne by done.
      rewrite !Hkeys by key_in. done.
    - rewrite lookup_insert_ne by done. by rewrite Hkeys by key_in. }
  unfold target_fields_readable. rewrite <- Hpm.
  destruct (read_uint (pm self1) (target_base + M_STORAGE_OFFSET)) as [desc|e] eqn:Hdesc.
  2:{ by rewrite (readM_fail _ _ _ _ _ Hdesc). }
  rewrite (bindM_run _ _ _ _ _ (readM_run _ _ _ _ Hdesc)).
  destruct (Z.eqb_spec desc 0) as [->|Hdesc0]; simpl.
  { unfold bindM, retM. eexists. split; [done|].
    split; [by rewrite read_target_name_lookup, lookup_insert_eq|].
    split.
    - intros _. unfold zero_target_stats.
      rewrite !read_target_name_lookup, !lookup_insert_ne by done.
      rewrite !Hkeys by key_in. done.
    - intros [|[e He]]; [done|]. by eapply read_target_name_raises. }
  pose proof (read_target_fields_run desc (<["has_target" := PBool true]> stats1) self1)
    as Hfields.
  destruct (is_ok (read_int (pm self1) (desc + UNIT_FIELD_HEALTH))
            && is_ok (read_int (pm self1) (desc + UNIT_FIELD_MAXHEALTH))
            && is_ok (read_int (pm self1) (desc + UNIT_FIELD_LEVEL))).
  2:{ destruct Hfields as [e Hfields]. unfold bindM at 1. by rewrite Hfields. }
  destruct Hfields as [stats2 Hfields].
  rewrite (bindM_run _ _ _ _ _ Hfields). unfold retM.
  eexists. split; [done|].
  apply read_target_fields_Some in Hfields
    as (_ & thp & tmax & tlevel & tp & _ & _ & _ & _ & ->).
  split.
  { rewrite read_target_name_lookup by done. unfold target_stats, with_percent.
    destruct (tmax >? 0); by dict_lookup. }
  split.
  - intros [|Hnull]; [done|]. congruence.
  - intros [|[e He]]; [done|]. by eapply read_target_name_raises.
Qed.


Lemma target_path_degrades_witness :
  read_player initial_stats Samples.combat_reader
    = (Ok (Some Samples.combat_player_stats), Samples.combat_reader_resolved) ∧
  read_ulonglong (pm Samples.combat_reader) TARGET_GUID_STATIC = Ok 9 ∧
  9 ≠ 0 ∧
  ∃ target_base,
    _find_object_base_by_guid Samples.combat_reader_resolved 9
      = (Ok target_base, Samples.combat_reader_resolved) ∧
    if (target_base =? 0) || target_fields_readable (pm Samples.combat_reader) target_base
    then
      ∃ stats,
        get_combat_stats Samples.combat_reader = (Some stats, Samples.combat_reader_resolved) ∧
        stats !! "has_target" = Some (PBool true) ∧
        (target_base = 0
         ∨ read_uint (pm Samples.combat_reader) (target_base + M_STORAGE_OFFSET) = Ok 0 →
         zero_target_stats stats) ∧
        (target_base = 0
         ∨ (∃ e, target_name_chain (pm Samples.combat_reader) target_base = Raise e) →
         stats !! "target_name" = Some (PStr ""))
    else get_combat_stats Samples.combat_reader = (None, Samples.combat_reader_resolved).
Proof.
  split; [reflexivity|]. split; [reflexivity|]. split; [done|].
  apply (target_path_degrades Samples.combat_reader Samples.combat_reader_resolved
           Samples.combat_player_stats 9); [reflexivity | reflexivity | done].
Defined.

(** C4 (the code against the claim). The name chain of the target has a
    handler of its own, and a failing read there leaves the name empty; the
    reads of the target's descriptor pointer and of its three descriptor
    fields, a few lines above, have none.  So whenever the player side
    succeeds, the target identifier is not 0, the target object is found
    and one of these reads fails, the whole call returns [None] instead of
    a snapshot with zero target statistics.  On the sample memory whose page
    with the target's descriptor pointer cannot be read the call returns
    [None]; on the sample memory whose page with the target's name pointer
    cannot be read it returns a snapshot with the target's statistics and an
    empty name. *)
Theorem target_descriptor_failure_is_fatal :
  (∀ self self1 stats1 target_guid target_base,
     read_player initial_stats self = (Ok (Some stats1), self1) →
     read_ulonglong (pm self) TARGET_GUID_STATIC = Ok target_guid →
     target_guid ≠ 0 →
     _find_object_base_by_guid self1 target_guid = (Ok target_base, self1) →
     target_base ≠ 0 →
     target_fields_readable (pm self) target_base = false →
     get_combat_stats self = (None, self1)) ∧
  (read_player initial_stats Samples.broken_target_reader
   = (Ok (Some Samples.combat_player_stats), Samples.broken_target_reader_resolved) ∧
   read_ulonglong (pm Samples.broken_target_reader) TARGET_GUID_STATIC = Ok 9 ∧
   _find_object_base_by_guid Samples.broken_target_reader_resolved 9
   = (Ok 0x4000, Samples.broken_target_reader_resolved) ∧
   read_uint (pm Samples.broken_target_reader) (0x4000 + M_STORAGE_OFFSET)
   = Raise MemoryReadError ∧
   get_combat_stats Samples.broken_target_reader
   = (None, Samples.broken_target_reader_resolved)) ∧
  (read_player initial_stats Samples.broken_name_reader
   = (Ok (Some Samples.combat_player_stats), Samples.broken_name_reader_resolved) ∧
   read_uint (pm Samples.broken_name_reader) (0x4000 + UNIT_NAME_1)
   = Raise MemoryReadError ∧
   ∃ stats,
     get_combat_stats Samples.broken_name_reader
     = (Some stats, Samples.broken_name_reader_resolved) ∧
     stats !! "has_target" = Some (PBool true) ∧
     stats !! "target_hp" = Some (PInt 1) ∧
     stats !! "target_max_hp" = Some (PInt 8) ∧
     stats !! "target_level" = Some (PInt 70) ∧
     stats !! "target_name" = Some (PStr "")).
Proof.
  split; [|split].
  - intros self self1 stats1 target_guid target_base Hplayer Hguid Hguid0 Hfind Hbase
      Hread.
    destruct (target_path_degrades self self1 stats1 target_guid Hplayer Hguid Hguid0)
      as (target_base' & Hfind' & Hcases).
    rewrite Hfind in Hfind'. injection Hfind' as <-.
    by rewrite (proj2 (Z.eqb_neq _ _) Hbase), Hread in Hcases.
  - repeat split; reflexivity.
  - split; [reflexivity|]. split; [reflexivity|].
    eexists. split; [reflexivity|]. repeat split; reflexivity.
Qed.

(** *** Condition evaluation *)

Lemma check_condition_missing_field bi cfg_slots condition stats :
  stats_get stats (stat condition) = PNone →
  _check_condition bi cfg_slots condition stats = Ok false.
Proof. unfold _check_condition. by intros ->. Qed.

(** On the statistics that are neither boolean-like nor the target name, an
    operator outside the table and a literal that [float] rejects with
    [ValueError] or [TypeError] give false. *)
Lemma check_condition_numeric_fail_closed bi cfg_slots condition stats :
  String.eqb (stat condition) "has_target" = false →
  String.eqb (stat condition) "target_is_own_character" = false →
  String.eqb (stat condition) "target_name" = false →
  op_map (operator condition) = None
  ∨ py_float bi (value condition) = Raise ValueError
  ∨ py_float bi (value condition) = Raise TypeError →
  _check_condition bi cfg_slots condition stats = Ok false.
Proof.
  intros H1 H2 H3 H. unfold _check_condition. rewrite H1, H2, H3. simpl.
  destruct (stats_get stats (stat condition)); try done;
    destruct H as [->|[H| H]]; try done;
    destruct (op_map (operator condition)); try done; by rewrite H.
Qed.

(** On a snapshot of [get_combat_stats] every condition on
    [target_is_own_character] is false, whatever the names, the operator and
    the literal: the snapshot has no such field and the evaluation returns
    at its first test. *)
Lemma own_character_condition_always_false bi cfg_slots condition self stats :
  (get_combat_stats self).1 = Some stats →
  stat condition = "target_is_own_character" →
  _check_condition bi cfg_slots condition stats = Ok false.
Proof.
  intros Hget Hstat. apply check_condition_missing_field. rewrite Hstat.
  destruct (get_combat_stats self) as [r self'] eqn:Hs. simpl in Hget. subst r.
  apply get_combat_stats_schema in Hs. unfold stats_get.
  destruct (Hs "target_is_own_character") as [_ ->]; [done|].
  unfold schema, numeric_fields. simpl. intros Hin.
  repeat (apply elem_of_cons in Hin as [Hin|Hin]; [discriminate|]).
  by apply elem_of_nil in Hin.
Qed.

(** C8 (the code against the claim). The sample snapshot has the target name
    "thrall" and the configuration has the own character "Thrall": the name
    is a member of the own names once both are lowered, so the statistic
    should be true; but the condition [target_is_own_character == 1]
    evaluates to false on it, because the lookup of the statistic in the
    snapshot gives [None] and the evaluation returns before it compares
    names.  The comparison of the names is there: on the same dictionary
    with any value stored under [target_is_own_character] the condition
    evaluates to true. *)
Theorem own_character_never_matches (bi : Builtins) :
  (get_combat_stats Samples.combat_reader).1 = Some Samples.combat_snapshot ∧
  Samples.combat_snapshot !! "target_name" = Some (PStr "thrall") ∧
  lower "thrall" ∈ own_character_names Samples.own_slots ∧
  stats_get Samples.combat_snapshot "target_is_own_character" = PNone ∧
  _check_condition bi Samples.own_slots Samples.target_is_own Samples.combat_snapshot
  = Ok false ∧
  _check_condition bi Samples.own_slots Samples.target_is_own
    (<["target_is_own_character" := PBool false]> Samples.combat_snapshot)
  = Ok true.
Proof.
  split; [reflexivity|]. split; [reflexivity|].
  split; [|split; [reflexivity|split; [reflexivity|by vm_compute]]].
  apply (bool_decide_unpack _). by vm_compute.
Qed.

(** C5 (the code against the claim). A condition on [has_target] with a
    string literal raises [TypeError] at [condition.value > 0], where the
    numeric statistics guard their conversion; and a numeric condition whose
    integer literal is too large for a float raises [OverflowError], which
    the guard of the conversion does not catch. *)
Theorem check_condition_raises (bi : Builtins) (cfg_slots : gmap string SlotConfig) :
  _check_condition bi cfg_slots Samples.has_target_text Samples.combat_snapshot
  = Raise TypeError ∧
  _check_condition bi cfg_slots Samples.level_below_huge Samples.combat_snapshot
  = Raise OverflowError.
Proof. split; [reflexivity | by vm_compute]. Qed.

(** *** The rotation engine: first match *)

Section FirstMatch.
Variable bi : Builtins.
Variable cfg_slots : gmap string SlotConfig.


(** A rule fires only if its conditions evaluated to true, and then every
    rule before it evaluated to false. *)
Lemma first_matching_rule_Some (rules : list RotationRule) stats r :
  first_matching_rule bi cfg_slots rules stats = Ok (Some r) →
  ∃ pre post, rules = pre ++ r :: post ∧
    (∀ r', r' ∈ pre → all_conditions_met bi cfg_slots (conditions r') stats = Ok false) ∧
    all_conditions_met bi cfg_slots (conditions r) stats = Ok true.
Proof.
  induction rules as [|r0 rules IH]; [done|]. simpl.
  destruct (all_conditions_met bi cfg_slots (conditions r0) stats) as [[]|e] eqn:H0;
    simpl; [| |done].
  - intros [= <-]. exists [], rules. split; [done|]. split; [|done].
    intros r' Hr'. by apply elem_of_nil in Hr'.
  - intros (pre & post & -> & Hpre & Hr)%IH. exists (r0 :: pre), post.
    split; [done|]. split; [|done].
    intros r' [->|Hr']%elem_of_cons; [done | by apply Hpre].
Qed.

End FirstMatch.



(** *** The rotation engine: the interval between two fires *)

Section Interval.
Variable bi : Builtins.

(** One visit: not due means nothing happens; a visit that fires nothing
    leaves the table as it was; a visit that fires was due, and records the
    second clock reading for this window only. *)
Lemma rotation_client_cases cfg_slots client_rotation_map hwnd rotation env o map' :
  rotation_client bi cfg_slots client_rotation_map hwnd rotation env = Ok (o, map') →
  (Qltb (t_check env - last_exec_time client_rotation_map hwnd)%Q (loop_interval rotation)
     = true → o = idle) ∧
  (fired o = None → map' = client_rotation_map) ∧
  (fired o ≠ None →
   (last_exec_time client_rotation_map hwnd + loop_interval rotation <= t_check env)%Q ∧
   map' = <[hwnd := (rotation, t_fire env)]> client_rotation_map).
Proof.
  unfold rotation_client. fold (last_exec_time client_rotation_map hwnd).
  destruct (Qltb _ _) eqn:Hdue.
  { intros [= <- <-]. done. }
  assert (Hle : (last_exec_time client_rotation_map hwnd + loop_interval rotation
                 <= t_check env)%Q).
  { unfold Qltb in Hdue. apply negb_false_iff, Qle_bool_iff in Hdue. lra. }
  destruct (snapshot env) as [stats|]; [|by intros [= <- <-]].
  destruct (bool_decide (stats = ∅)); [by intros [= <- <-]|].
  destruct (first_matching_rule bi cfg_slots (rules rotation) stats) as [[r|]|e];
    simpl; [| |done]; by intros [= <- <-].
Qed.

Lemma last_exec_time_insert client_rotation_map hwnd rotation t h :
  last_exec_time (<[hwnd := (rotation, t)]> client_rotation_map) h
  = if decide (hwnd = h) then t else last_exec_time client_rotation_map h.
Proof.
  unfold last_exec_time. rewrite lookup_insert. by case_decide.
Qed.

(** A visit that fires does so at least its interval after every bound [b]
    that is below the recorded timestamp of its window and below all later
    clock readings. *)
Lemma engine_run_due (visits : list visit) :
  ∀ client_rotation_map outs final j vj oj (b : Q),
    engine_run bi visits client_rotation_map = (outs, final) →
    visits !! j = Some vj → outs !! j = Some oj → fired oj ≠ None →
    (b <= last_exec_time client_rotation_map (v_hwnd vj))%Q →
    (∀ k vk, visits !! k = Some vk → (b <= t_fire (v_env vk))%Q) →
    (b + loop_interval (v_rotation vj) <= t_check (v_env vj))%Q.
Proof.
  induction visits as [|v rest IH]; intros map outs final j vj oj b; [done|].
  simpl.
  destruct (rotation_client bi (v_slots v) map (v_hwnd v) (v_rotation v) (v_env v))
    as [[o map1]|e] eqn:Hstep; [|by intros [= <- <-] _ ?].
  destruct (engine_run bi rest map1) as [os final1] eqn:Hrun.
  intros [= <- <-] Hvj Hoj Hfired Hb Hlater.
  apply rotation_client_cases in Hstep as (_ & Hidle & Hfire).
  destruct j as [|j]; simpl in Hvj, Hoj.
  - injection Hvj as <-. injection Hoj as <-.
    destruct (Hfire Hfired) as [Hdue _]. lra.
  - apply (IH map1 os final1 j vj oj b Hrun Hvj Hoj Hfired).
    + destruct (fired o) eqn:Hf.
      * destruct Hfire as [_ ->]; [done|]. rewrite last_exec_time_insert.
        case_decide; [|done]. apply (Hlater 0%nat v). done.
      * by rewrite Hidle.
    + intros k vk Hk. by apply (Hlater (S k) vk).
Qed.

Lemma engine_run_interval (visits : list visit) :
  ∀ client_rotation_map outs final i j vi vj oi oj,
    engine_run bi visits client_rotation_map = (outs, final) →
    clock_monotone visits →
    (i < j)%nat →
    visits !! i = Some vi → visits !! j = Some vj →
    outs !! i = Some oi → outs !! j = Some oj →
    v_hwnd vi = v_hwnd vj →
    fired oi ≠ None → fired oj ≠ None →
    (t_fire (v_env vi) + loop_interval (v_rotation vj) <= t_check (v_env vj))%Q.
Proof.
  induction visits as [|v rest IH];
    intros map outs final i j vi vj oi oj; [done|].
  simpl.
  destruct (rotation_client bi (v_slots v) map (v_hwnd v) (v_rotation v) (v_env v))
    as [[o map1]|e] eqn:Hstep; [|by intros [= <- <-] _ _ _ _ ?].
  destruct (engine_run bi rest map1) as [os final1] eqn:Hrun.
  intros [= <- <-] [Hin Hacross] Hij Hvi Hvj Hoi Hoj Hsame Hfi Hfj.
  destruct j as [|j]; [lia|]. simpl in Hvj, Hoj.
  destruct i as [|i]; simpl in Hvi, Hoi.
  - injection Hvi as <-. injection Hoi as <-.
    apply rotation_client_cases in Hstep as (_ & _ & Hfire).
    destruct (Hfire Hfi) as [_ ->].
    apply (engine_run_due rest _ os final1 j vj oj _ Hrun Hvj Hoj Hfj).
    + rewrite last_exec_time_insert, decide_True by done. lra.
    + intros k vk Hk.
      pose proof (Hacross 0%nat (S k) v vk ltac:(lia) eq_refl Hk).
      pose proof (Hin (S k) vk Hk). lra.
  - apply (IH map1 os final1 i j vi vj oi oj Hrun); try done; [|lia].
    split.
    + intros k vk Hk. by apply (Hin (S k)).
    + intros k l vk vl Hkl Hk Hl. apply (Hacross (S k) (S l)); [lia|done..].
Qed.

End Interval.

(** C6. The engine thread as a sequence of client visits, under a clock that
    does not run backwards. A visit whose elapsed time since the recorded
    last fire is below the rotation's interval does nothing; a visit on
    which no rule fires leaves the last-fire table unchanged; a visit on
    which a rule fires was due, and records the fire time for its window.
    So between two fires for the same window there is at least the interval
    of the rotation: the later one is checked no earlier than the recorded
    time of the earlier one plus the interval. *)
Theorem fires_once_per_interval (bi : Builtins) (visits : list visit)
    (client_rotation_map : gmap Z (CombatRotation * Q)) :
  clock_monotone visits →
  (∀ v o map',
     rotation_client bi (v_slots v) client_rotation_map (v_hwnd v) (v_rotation v) (v_env v)
       = Ok (o, map') →
     (Qltb (t_check (v_env v) - last_exec_time client_rotation_map (v_hwnd v))%Q
           (loop_interval (v_rotation v)) = true → o = idle) ∧
     (fired o = None → map' = client_rotation_map) ∧
     (fired o ≠ None →
      (last_exec_time client_rotation_map (v_hwnd v) + loop_interval (v_rotation v)
       <= t_check (v_env v))%Q ∧
      map' = <[v_hwnd v := (v_rotation v, t_fire (v_env v))]> client_rotation_map)) ∧
  (∀ i j vi vj oi oj,
     (i < j)%nat →
     visits !! i = Some vi → visits !! j = Some vj →
     (engine_run bi visits client_rotation_map).1 !! i = Some oi →
     (engine_run bi visits client_rotation_map).1 !! j = Some oj →
     v_hwnd vi = v_hwnd vj →
     fired oi ≠ None → fired oj ≠ None →
     (t_fire (v_env vi) + loop_interval (v_rotation vj) <= t_check (v_env vj))%Q).
Proof.
  intros Hclock. split.
  - intros v o map' Hstep. by apply rotation_client_cases in Hstep.
  - intros i j vi vj oi oj Hij Hvi Hvj Hoi Hoj Hsame Hfi Hfj.
    destruct (engine_run bi visits client_rotation_map) as [outs final] eqn:Hrun.
    by eapply (engine_run_interval bi visits _ outs final i j vi vj oi oj).
Qed.

Lemma fires_once_per_interval_witness :
  clock_monotone Samples.three_ticks ∧
  (fired <$> (engine_run Samples.no_builtins Samples.three_ticks ∅).1)
    = [Some Samples.R1; None; Some Samples.R1] ∧
  (t_fire (Samples.tick_env 100) + loop_interval Samples.two_rules
   <= t_check (Samples.tick_env 106))%Q.
Proof.
  assert (Hclock : clock_monotone Samples.three_ticks).
  { split.
    - intros i v Hi.
      repeat (destruct i as [|i]; [injection Hi as <-; by vm_compute|]). done.
    - intros i j vi vj Hij Hi Hj.
      repeat (destruct i as [|i];
              [injection Hi as <-;
               repeat (destruct j as [|j];
                       [first [lia | injection Hj as <-; by vm_compute]|]); done|]).
      done. }
  split; [done|]. split; [reflexivity|].
  apply (proj2 (fires_once_per_interval Samples.no_builtins Samples.three_ticks ∅ Hclock)
           0%nat 2%nat (Samples.tick_visit 100) (Samples.tick_visit 106)
           {| fired := Some Samples.R1; events := fire_keys 1001 ["1"] |}
           {| fired := Some Samples.R1; events := fire_keys 1001 ["1"] |});
    try done; try reflexivity; lia.
Defined.

(** *** Macro targets: round robin *)

Lemma non_main_subset self h : h ∈ non_main self → h ∈ hwnds self.
Proof. unfold non_main. by intros [_ ?]%list_elem_of_filter. Qed.

Lemma item_in_range (arr : list Z) (z : Z) :
  arr ≠ [] →
  ∃ h, item arr (z mod Z.of_nat (length arr)) = [h] ∧
       arr !! Z.to_nat (z mod Z.of_nat (length arr)) = Some h.
Proof.
  intros Harr. unfold item.
  assert (0 < Z.of_nat (length arr)) by (destruct arr; [done | simpl; lia]).
  pose proof (Z.mod_pos_bound z (Z.of_nat (length arr)) ltac:(lia)) as Hidx.
  destruct (lookup_lt_is_Some_2 arr (Z.to_nat (z mod Z.of_nat (length arr))) ltac:(lia))
    as [h Hh].
  exists h. by rewrite Hh.
Qed.

Lemma rr_array_non_main self : non_main self ≠ [] → rr_array self = non_main self.
Proof. unfold rr_array. by destruct (non_main self). Qed.

Lemma rr_array_nonempty self : hwnds self ≠ [] → rr_array self ≠ [].
Proof.
  unfold rr_array. destruct (non_main self); [|done]. by destruct (hwnds self).
Qed.

(** What [_targets_for] does for the round-robin policy. *)
Lemma targets_for_round_robin self named_slots :
  hwnds self ≠ [] →
  ∃ h,
    (_targets_for self "round_robin" named_slots).1 = [h] ∧
    rr_array self
      !! Z.to_nat (default 0 (_rr_state self !! "__rr_default__")
                   mod Z.of_nat (length (rr_array self))) = Some h ∧
    hwnds (_targets_for self "round_robin" named_slots).2 = hwnds self ∧
    main_hwnd (_targets_for self "round_robin" named_slots).2 = main_hwnd self ∧
    macros (_targets_for self "round_robin" named_slots).2 = macros self.
Proof.
  intros Hne. pose proof (rr_array_nonempty self Hne) as Harr.
  unfold _targets_for. destruct (hwnds self) as [|h0 l] eqn:Hh; [done|].
  cbv beta iota zeta delta [String.eqb Ascii.eqb Bool.eqb].
  destruct (item_in_range (rr_array self)
              (default 0 (_rr_state self !! "__rr_default__")) Harr) as (h & Hitem & Hlook).
  destruct (rr_array self) as [|a arr] eqn:Ha; [done|].
  exists h. rewrite Hitem. split; [done|]. split; [done|]. simpl. by rewrite Hh.
Qed.

Lemma targets_for_preserves self target named_slots :
  hwnds (_targets_for self target named_slots).2 = hwnds self ∧
  main_hwnd (_targets_for self target named_slots).2 = main_hwnd self ∧
  macros (_targets_for self target named_slots).2 = macros self.
Proof.
  unfold _targets_for. destruct (hwnds self) eqn:Hh; simpl; [by rewrite Hh|].
  repeat case_match; simpl; by rewrite ?Hh.
Qed.

(** What [_run_macro_body] does for a round-robin macro. *)
Lemma run_macro_body_round_robin self m :
  hwnds self ≠ [] → target m = "round_robin" →
  ∃ h,
    (_run_macro_body self m).1.1 = Some [h] ∧
    rr_array self !! Z.to_nat (rr_index m mod Z.of_nat (length (rr_array self))) = Some h ∧
    (_run_macro_body self m).2
      = set_rr_index m ((rr_index m + 1) mod Z.of_nat (length (rr_array self))).
Proof.
  intros Hne Htarget. unfold _run_macro_body. rewrite Htarget.
  destruct (targets_for_round_robin self (slots m) Hne) as (h0 & Ht & _ & Hh & Hm & _).
  destruct (_targets_for self "round_robin" (slots m)) as [targets self1].
  simpl in Ht, Hh, Hm. subst targets.
  cbv beta iota zeta delta [String.eqb Ascii.eqb Bool.eqb].
  assert (Harr : rr_array self1 = rr_array self).
  { unfold rr_array, non_main. by rewrite Hh, Hm. }
  rewrite Harr. pose proof (rr_array_nonempty self Hne) as Hnonempty.
  destruct (item_in_range (rr_array self) (rr_index m) Hnonempty) as (h & Hitem & Hlook).
  destruct (rr_array self) as [|a arr] eqn:Ha; [done|].
  exists h. by rewrite Hitem.
Qed.

Lemma run_macro_body_preserves self m :
  hwnds (_run_macro_body self m).1.2 = hwnds self ∧
  main_hwnd (_run_macro_body self m).1.2 = main_hwnd self ∧
  macros (_run_macro_body self m).1.2 = macros self ∧
  target (_run_macro_body self m).2 = target m.
Proof.
  unfold _run_macro_body.
  pose proof (targets_for_preserves self (target m) (slots m)) as (Hh & Hm & Hmac).
  destruct (_targets_for self (target m) (slots m)) as [targets self1].
  simpl in Hh, Hm, Hmac.
  repeat case_match; done.
Qed.

(** Invoking a macro by name touches the window registry not at all and the
    macro table only under that name. *)
Lemma fire_preserves self name :
  hwnds (_fire self name).2 = hwnds self ∧
  main_hwnd (_fire self name).2 = main_hwnd self ∧
  ∀ other, other ≠ name → macros (_fire self name).2 !! other = macros self !! other.
Proof.
  unfold _fire. destruct (macros self !! name) as [m|]; [|done].
  pose proof (run_macro_body_preserves self m) as (Hh & Hm & Hmac & _).
  destruct (_run_macro_body self m) as [[r self1] m1]. simpl in *.
  split; [done|]. split; [done|].
  intros other Hother. by rewrite lookup_insert_ne, Hmac.
Qed.

Lemma fire_round_robin self name m :
  macros self !! name = Some m → target m = "round_robin" → non_main self ≠ [] →
  ∃ h,
    (_fire self name).1 = Some [h] ∧
    non_main self !! Z.to_nat (rr_index m mod Z.of_nat (length (non_main self))) = Some h ∧
    macros (_fire self name).2 !! name
      = Some (set_rr_index m ((rr_index m + 1) mod Z.of_nat (length (non_main self)))).
Proof.
  intros Hm Htarget Hnon.
  assert (Hne : hwnds self ≠ []).
  { intros Hnil. apply Hnon. unfold non_main. by rewrite Hnil. }
  unfold _fire. rewrite Hm.
  destruct (run_macro_body_round_robin self m Hne Htarget) as (h & Hr & Hlook & Hm').
  rewrite (rr_array_non_main self Hnon) in Hlook, Hm'.
  destruct (_run_macro_body self m) as [[r self1] m1]. simpl in *. subst.
  exists h. by rewrite lookup_insert_eq.
Qed.

Lemma fire_all_round_robin (names : list string) :
  ∀ self name m i,
    macros self !! name = Some m → target m = "round_robin" → non_main self ≠ [] →
    names !! i = Some name →
    ∃ h,
      (fire_all self names).1 !! i = Some (Some [h]) ∧
      non_main self
        !! Z.to_nat ((rr_index m + fired_before names name i)
                     mod Z.of_nat (length (non_main self))) = Some h.
Proof.
  induction names as [|n0 names IH]; intros self name m i Hm Htarget Hnon Hi; [done|].
  simpl. pose proof (fire_preserves self n0) as (Hh & Hmain & Hother).
  assert (Hnon1 : non_main (_fire self n0).2 = non_main self).
  { unfold non_main. by rewrite Hh, Hmain. }
  destruct i as [|i]; simpl in Hi.
  - injection Hi as ->.
    destruct (fire_round_robin self name m Hm Htarget Hnon) as (h & Hr & Hlook & _).
    destruct (_fire self name) as [r self1]. destruct (fire_all self1 names) as [rs self2].
    simpl in *. subst r. exists h. split; [done|].
    unfold fired_before. simpl. by rewrite Z.add_0_r.
  - destruct (decide (n0 = name)) as [->|Hne].
    + destruct (fire_round_robin self name m Hm Htarget Hnon) as (h0 & _ & _ & Hm1).
      destruct (_fire self name) as [r self1]. simpl in *.
      destruct (IH self1 name _ i Hm1 Htarget ltac:(by rewrite Hnon1) Hi)
        as (h & Hr & Hlook).
      destruct (fire_all self1 names) as [rs self2]. simpl in *.
      exists h. split; [done|]. rewrite Hnon1 in Hlook.
      unfold fired_before in *. simpl. rewrite filter_cons_True by done. simpl.
      rewrite Zplus_mod_idemp_l in Hlook.
      by replace (rr_index m + Z.of_nat (S (length (filter (λ n, n = name) (take i names)))))
        with (rr_index m + 1 + Z.of_nat (length (filter (λ n, n = name) (take i names))))
        by lia.
    + specialize (Hother name ltac:(done)).
      destruct (_fire self n0) as [r self1]. simpl in *.
      destruct (IH self1 name m i ltac:(by rewrite Hother) Htarget
                  ltac:(by rewrite Hnon1) Hi) as (h & Hr & Hlook).
      destruct (fire_all self1 names) as [rs self2]. simpl in *.
      exists h. split; [done|]. rewrite Hnon1 in Hlook.
      unfold fired_before in *. simpl. by rewrite filter_cons_False by done.
Qed.

(** C7. With a fixed window registry that has other windows than the main
    one, the invocations of a round-robin macro, whatever other macros are
    invoked in between, each go to a single window: the invocation that
    comes after [k] earlier ones of the same macro goes to the window at
    position [(rr_index + k) mod n] of the list of the [n] windows that are
    not the main one, where [rr_index] is the index that the macro object
    held at the start. *)
Theorem round_robin_cycles (self : Controller) (name : string) (m : Macro)
    (names : list string) (i : nat) :
  macros self !! name = Some m →
  target m = "round_robin" →
  non_main self ≠ [] →
  names !! i = Some name →
  ∃ h,
    (fire_all self names).1 !! i = Some (Some [h]) ∧
    non_main self
      !! Z.to_nat ((rr_index m + fired_before names name i)
                   mod Z.of_nat (length (non_main self))) = Some h.
Proof. apply fire_all_round_robin. Qed.

Lemma round_robin_cycles_witness :
  (fire_all Samples.four_windows ["assist"; "assist"; "assist"; "assist"]).1
    = [Some [11]; Some [12]; Some [13]; Some [11]] ∧
  (fire_all Samples.four_windows ["assist"; "assist"; "burst"; "assist"; "assist"]).1
    = [Some [11]; Some [12]; Some [10; 11; 12; 13]; Some [13]; Some [11]] ∧
  ∃ h,
    (fire_all Samples.four_windows ["assist"; "assist"; "burst"; "assist"; "assist"]).1
      !! 4%nat = Some (Some [h]) ∧
    non_main Samples.four_windows
      !! Z.to_nat ((rr_index Samples.assist_macro
                    + fired_before ["assist"; "assist"; "burst"; "assist"; "assist"]
                        "assist" 4)
                   mod Z.of_nat (length (non_main Samples.four_windows))) = Some h.
Proof.
  split; [reflexivity|]. split; [reflexivity|].
  apply (round_robin_cycles Samples.four_windows "assist" Samples.assist_macro
           ["assist"; "assist"; "burst"; "assist"; "assist"] 4);
    [reflexivity | reflexivity | done | reflexivity].
Defined.

(** C10. With a window registry that is not empty, the round-robin policy
    resolves to exactly one window of the registry, in [_targets_for] and in
    [_run_macro_body] alike; and when no window other than the main one is
    there, that window is the main window. *)
Theorem round_robin_single_target (self : Controller) (m : Macro)
    (named_slots : list string) :
  hwnds self ≠ [] →
  target m = "round_robin" →
  ∃ h1 h2,
    (_targets_for self "round_robin" named_slots).1 = [h1] ∧
    (_run_macro_body self m).1.1 = Some [h2] ∧
    h1 ∈ hwnds self ∧ h2 ∈ hwnds self ∧
    (non_main self = [] → main_hwnd self = Some h1 ∧ main_hwnd self = Some h2).
Proof.
  intros Hne Htarget.
  destruct (targets_for_round_robin self named_slots Hne) as (h1 & Ht & Hl1 & _).
  destruct (run_macro_body_round_robin self m Hne Htarget) as (h2 & Hr & Hl2 & _).
  exists h1, h2. split; [done|]. split; [done|].
  assert (Hin : ∀ h, h ∈ rr_array self → h ∈ hwnds self).
  { intros h. unfold rr_array. destruct (non_main self) eqn:Hnm.
    - intros Hh. by eapply (subseteq_take 1).
    - rewrite <- Hnm. apply non_main_subset. }
  apply list_elem_of_lookup_2 in Hl1 as Hin1. apply list_elem_of_lookup_2 in Hl2 as Hin2.
  split; [by apply Hin|]. split; [by apply Hin|].
  intros Hnm.
  assert (Hmain : ∀ h, h ∈ rr_array self → main_hwnd self = Some h).
  { intros h Hh. apply Hin in Hh.
    destruct (decide (Some h = main_hwnd self)) as [|Hdiff]; [done|].
    assert (h ∈ non_main self) by (by apply list_elem_of_filter).
    rewrite Hnm in *. by apply elem_of_nil in H. }
  split; by apply Hmain.
Qed.

Lemma round_robin_single_target_witness :
  hwnds Samples.main_only ≠ [] ∧
  ∃ h1 h2,
    (_targets_for Samples.main_only "round_robin" []).1 = [h1] ∧
    (_run_macro_body Samples.main_only Samples.assist_macro).1.1 = Some [h2] ∧
    h1 ∈ hwnds Samples.main_only ∧ h2 ∈ hwnds Samples.main_only ∧
    (non_main Samples.main_only = [] →
     main_hwnd Samples.main_only = Some h1 ∧ main_hwnd Samples.main_only = Some h2).
Proof.
  split; [done|].
  apply (round_robin_single_target Samples.main_only Samples.assist_macro []);
    [done | reflexivity].
Defined.

(** ** Further properties of the code *)

(** *** The reader: cache, provenance and failure *)

(** X1. [_get_object_manager_base] never raises and always leaves in the
    cache exactly the address it returns; it reads but never writes the
    process; calling it again on the reader it leaves gives the same
    result; and once the cache holds an address other than 0 the call
    returns it without looking at the memory at all (it gives the same
    answer whatever the memory holds). *)
Theorem object_manager_base_cache (self : MemoryReader) :
  object_manager_base (_get_object_manager_base self).2 = (_get_object_manager_base self).1 ∧
  pm (_get_object_manager_base self).2 = pm self ∧
  _get_object_manager_base (_get_object_manager_base self).2 = _get_object_manager_base self ∧
  (object_manager_base self ≠ 0 →
   ∀ p : Pymem,
     _get_object_manager_base {| pm := p; object_manager_base := object_manager_base self |}
     = (object_manager_base self,
        {| pm := p; object_manager_base := object_manager_base self |})).
Proof.
  split_and!.
  - unfold _get_object_manager_base.
    destruct (Z.eqb_spec (object_manager_base self) 0) as [H0|H0]; simpl; [|done].
    destruct (read_uint (pm self) CUR_MGR_POINTER) as [cc|e]; [|done].
    destruct (cc =? 0); [done|].
    by destruct (read_uint (pm self) (cc + CUR_MGR_OFFSET)).
  - apply get_object_manager_base_pm.
  - destruct self as [p b]. unfold _get_object_manager_base. simpl.
    destruct (Z.eqb_spec b 0) as [->|H0]; simpl.
    + destruct (read_uint p CUR_MGR_POINTER) as [cc|e] eqn:Hcc; simpl; [|by rewrite Hcc].
      destruct (cc =? 0) eqn:Hcc0; simpl; [by rewrite Hcc, Hcc0|].
      destruct (read_uint p (cc + CUR_MGR_OFFSET)) as [b|e] eqn:Hb; simpl.
      * destruct (Z.eqb_spec b 0) as [->|Hb0]; simpl; [|done].
        by rewrite Hcc, Hcc0, Hb.
      * by rewrite Hcc, Hcc0, Hb.
    + by destruct (Z.eqb_spec b 0).
  - intros H0 p. unfold _get_object_manager_base. simpl.
    by destruct (Z.eqb_spec (object_manager_base self) 0).
Qed.

Lemma read_target_keeps stats self stats' self' key :
  read_target stats self = (Ok (Some stats'), self') →
  key ∉ ["has_target"; "target_hp"; "target_max_hp"; "target_hp_percent"; "target_level";
         "target_name"] →
  stats' !! key = stats !! key.
Proof.
  intros (_ & g & _ & H)%read_target_Some Hk.
  assert (∀ k, k ∈ ["has_target"; "target_hp"; "target_max_hp"; "target_hp_percent";
                    "target_level"; "target_name"] → key ≠ k) as Hne.
  { intros k Hin ->. done. }
  assert (∀ st, (<["has_target" := PBool true]> st : gmap string pyval) !! key = st !! key)
    as Hflag.
  { intros st. rewrite lookup_insert_ne; [done|]. apply not_eq_sym, Hne. key_in. }
  destruct (g >? 0).
  2:{ destruct H as [-> _]. rewrite lookup_insert_ne; [done|].
      apply not_eq_sym, Hne. key_in. }
  destruct H as (tb & _ & H). destruct (tb =? 0); [subst; apply Hflag|].
  destruct H as (desc & stats2 & _ & H2 & ->).
  rewrite read_target_name_lookup by (apply Hne; key_in).
  destruct (desc =? 0); [subst; apply Hflag|].
  destruct H2 as (hp & mx & lvl & p & _ & _ & _ & _ & ->).
  unfold target_stats, with_percent.
  destruct (mx >? 0);
    repeat (rewrite lookup_insert_ne; [|apply not_eq_sym, Hne; key_in]); done.
Qed.

Lemma get_object_manager_base_idem self :
  _get_object_manager_base (_get_object_manager_base self).2 = _get_object_manager_base self.
Proof.
  destruct self as [p b]. unfold _get_object_manager_base. simpl.
  destruct (Z.eqb_spec b 0) as [->|H0]; simpl.
  - destruct (read_uint p CUR_MGR_POINTER) as [cc|e] eqn:Hcc; simpl; [|by rewrite Hcc].
    destruct (cc =? 0) eqn:Hcc0; simpl; [by rewrite Hcc, Hcc0|].
    destruct (read_uint p (cc + CUR_MGR_OFFSET)) as [b|e] eqn:Hb; simpl.
    + destruct (Z.eqb_spec b 0) as [->|Hb0]; simpl; [|done].
      by rewrite Hcc, Hcc0, Hb.
    + by rewrite Hcc, Hcc0, Hb.
  - by destruct (Z.eqb_spec b 0).
Qed.

Lemma get_object_manager_base_result self :
  object_manager_base (_get_object_manager_base self).2 = (_get_object_manager_base self).1.
Proof.
  unfold _get_object_manager_base.
  destruct (Z.eqb_spec (object_manager_base self) 0) as [H0|H0]; simpl; [|done].
  destruct (read_uint (pm self) CUR_MGR_POINTER) as [cc|e]; [|done].
  destruct (cc =? 0); [done|].
  by destruct (read_uint (pm self) (cc + CUR_MGR_OFFSET)).
Qed.

Lemma find_object_state self guid :
  (_find_object_base_by_guid self guid).2 = (_get_object_manager_base self).2.
Proof.
  unfold _find_object_base_by_guid, find_object_counted.
  generalize object_walk_cap. intros cap.
  destruct (_get_object_manager_base self) as [b s]. simpl.
  destruct ((b =? 0) || (guid =? 0)); [done|].
  by destruct (read_uint (pm s) (b + FIRST_OBJECT_OFFSET)).
Qed.

Lemma keeps_reader_bind {A C} (m : M A) (k : A → M C) :
  keeps_reader m → (∀ a, keeps_reader (k a)) → keeps_reader (bindM m k).
Proof.
  intros Hm Hk self Hs. unfold bindM. specialize (Hm self Hs).
  destruct (m self) as [[[a|]|e] s1]; simpl in *; subst; try done.
  by apply Hk.
Qed.

Lemma keeps_reader_read {A} (rd : Pymem → Z → result A) address :
  keeps_reader (readM rd address).
Proof. done. Qed.

Lemma keeps_reader_ret {A} (a : A) : keeps_reader (retM a).
Proof. done. Qed.

Lemma keeps_reader_lift {A} (r : result A) : keeps_reader (liftM r).
Proof. done. Qed.

Lemma keeps_reader_require b : keeps_reader (require b).
Proof. by destruct b. Qed.

Lemma keeps_reader_find guid :
  keeps_reader (callM (λ self, _find_object_base_by_guid self guid)).
Proof.
  intros self Hs. unfold callM.
  pose proof (find_object_state self guid) as H.
  destruct (_find_object_base_by_guid self guid) as [r s1]. simpl in *. congruence.
Qed.

Lemma keeps_reader_manager :
  keeps_reader (callM (λ self, let '(b, self') := _get_object_manager_base self in (Ok b, self'))).
Proof.
  intros self Hs. unfold callM.
  destruct (_get_object_manager_base self) as [b s1]. simpl in *. done.
Qed.

Lemma keeps_reader_set_percent key value max stats :
  keeps_reader (set_percent key value max stats).
Proof.
  unfold set_percent. destruct (max >? 0); [|apply keeps_reader_ret].
  apply keeps_reader_bind; [apply keeps_reader_lift | intros; apply keeps_reader_ret].
Qed.

Lemma keeps_reader_target stats : keeps_reader (read_target stats).
Proof.
  unfold read_target, read_target_fields.
  repeat first
    [ apply keeps_reader_bind; [|intros ?]
    | apply keeps_reader_read
    | apply keeps_reader_find
    | apply keeps_reader_set_percent
    | apply keeps_reader_ret
    | apply (keeps_reader_ret (A := gmap string pyval))
    | case_match ].
  all: intros self Hs; done.
Qed.

Lemma get_combat_stats_body_state self :
  (get_combat_stats_body self).2 = (_get_object_manager_base self).2.
Proof.
  unfold get_combat_stats_body, read_player.
  set (rest := λ obj_mgr : Z, bindM (require (negb (obj_mgr =? 0))) _).
  set (tgt := λ stats : gmap string pyval, read_target stats).
  assert (Hrest : ∀ b, keeps_reader (bindM (rest b) tgt)).
  { intros b. apply keeps_reader_bind; [|intros; apply keeps_reader_target].
    unfold rest.
    repeat first
      [ apply keeps_reader_bind; [|intros ?]
      | apply keeps_reader_read
      | apply keeps_reader_require
      | apply keeps_reader_find
      | apply keeps_reader_set_percent ]. }
  pose proof (get_object_manager_base_idem self) as Hidem.
  assert (bindM (bindM (callM (λ self0, let '(b, self') := _get_object_manager_base self0 in
                                         (Ok b, self'))) rest) tgt self
          = bindM (rest (_get_object_manager_base self).1) tgt (_get_object_manager_base self).2)
    as ->.
  { unfold bindM at 1 2. unfold callM.
    destruct (_get_object_manager_base self) as [b s1]. simpl.
    unfold bindM. by destruct (rest b s1) as [[[a|]|e] s2]. }
  apply Hrest. by rewrite Hidem.
Qed.

(** X2. Whatever [get_combat_stats] returns, the only thing it changes in
    the reader is the cached object manager base, which ends as a lookup of
    the manager leaves it.  When the manager cannot be resolved (the lookup
    gives 0) the call returns [None]; when it returns a snapshot the cache
    holds an address other than 0 afterwards. *)
Theorem get_combat_stats_reader (self : MemoryReader) :
  (get_combat_stats self).2 = (_get_object_manager_base self).2 ∧
  pm (get_combat_stats self).2 = pm self ∧
  ((_get_object_manager_base self).1 = 0 → (get_combat_stats self).1 = None) ∧
  (is_Some (get_combat_stats self).1 →
   object_manager_base (get_combat_stats self).2 ≠ 0).
Proof.
  assert (Hstate : (get_combat_stats self).2 = (_get_object_manager_base self).2).
  { pose proof (get_combat_stats_body_state self) as H. unfold get_combat_stats.
    by destruct (get_combat_stats_body self) as [[r|e] s]. }
  split_and!; [done | rewrite Hstate; apply get_object_manager_base_pm | |].
  - intros H0. unfold get_combat_stats, get_combat_stats_body, read_player.
    unfold bindM at 1 2. unfold callM.
    destruct (_get_object_manager_base self) as [b s1]. simpl in H0. subst b. done.
  - intros [stats Hs]. rewrite Hstate, get_object_manager_base_result.
    destruct (get_combat_stats self) as [r s] eqn:Hget. simpl in Hs. subst r.
    apply get_combat_stats_Some in Hget as (stats1 & self1 & Hplayer & _).
    apply read_player_Some in Hplayer as (_ & b & ? & ? & ? & ? & ? & ? & ? & ? & ? & ? & ?
      & Hb & Hb0 & _).
    by rewrite Hb.
Qed.

(** X3. The player part of a returned snapshot is what the memory holds:
    the combo points are the byte at the static address (so within 0..255),
    and health, maximal health, power, maximal power and level are the five
    descriptor fields of the object whose identifier is the local player's
    identifier, read through that object's descriptor pointer; the manager,
    the identifier, the object and the descriptor pointer are all non-null. *)
Theorem snapshot_player_provenance (self self' : MemoryReader) (stats : gmap string pyval) :
  get_combat_stats self = (Some stats, self') →
  ∃ obj_mgr player_guid player_base descriptor_ptr combo hp max_hp mp max_mp level,
    (_get_object_manager_base self).1 = obj_mgr ∧ obj_mgr ≠ 0 ∧
    read_ulonglong (pm self) (obj_mgr + LOCAL_GUID_OFFSET) = Ok player_guid ∧
    player_guid ≠ 0 ∧ player_base ≠ 0 ∧
    read_ulonglong (pm self) (player_base + OBJECT_GUID_OFFSET) = Ok player_guid ∧
    read_uint (pm self) (player_base + M_STORAGE_OFFSET) = Ok descriptor_ptr ∧
    descriptor_ptr ≠ 0 ∧
    read_uchar (pm self) COMBO_POINTS_STATIC = Ok combo ∧
    read_int (pm self) (descriptor_ptr + UNIT_FIELD_HEALTH) = Ok hp ∧
    read_int (pm self) (descriptor_ptr + UNIT_FIELD_MAXHEALTH) = Ok max_hp ∧
    read_int (pm self) (descriptor_ptr + UNIT_FIELD_POWER1) = Ok mp ∧
    read_int (pm self) (descriptor_ptr + UNIT_FIELD_MAXPOWER1) = Ok max_mp ∧
    read_int (pm self) (descriptor_ptr + UNIT_FIELD_LEVEL) = Ok level ∧
    stats !! "combo_points" = Some (PInt combo) ∧ 0 ≤ combo ≤ 255 ∧
    stats !! "player_hp" = Some (PInt hp) ∧
    stats !! "player_max_hp" = Some (PInt max_hp) ∧
    stats !! "player_mp" = Some (PInt mp) ∧
    stats !! "player_max_mp" = Some (PInt max_mp) ∧
    stats !! "player_level" = Some (PInt level).
Proof.
  intros (stats1 & self1 & Hplayer & Htarget)%get_combat_stats_Some.
  apply read_player_Some in Hplayer
    as (_ & obj_mgr & player_guid & player_base & descriptor_ptr & combo & hp & max_hp
        & mp & max_mp & level & php & pmp & Hmgr & Hmgr0 & Hcombo & Hguid & Hguid0 & Hfind
        & Hbase0 & Hdesc & Hdesc0 & Hhp & Hmhp & Hmp & Hmmp & Hlevel & _ & _ & ->).
  exists obj_mgr, player_guid, player_base, descriptor_ptr, combo, hp, max_hp, mp, max_mp, level.
  assert (Hat : read_ulonglong (pm self) (player_base + OBJECT_GUID_OFFSET) = Ok player_guid).
  { destruct (find_object_counted_spec (_get_object_manager_base self).2 player_guid)
      as (r & s & _ & Hr & _ & Hspec).
    rewrite Hfind in Hr. destruct r as [[found its]|e]; [|done].
    simpl in Hr. injection Hr as <- _.
    destruct Hspec as [_ Hspec]. destruct (Hspec Hbase0) as (? & ? & ? & _ & _ & _ & Hg).
    by rewrite get_object_manager_base_pm in Hg. }
  assert (Hcombo_range : 0 ≤ combo ≤ 255).
  { unfold read_uchar, read_cell, unsigned in Hcombo.
    destruct (cell_uchar (pm self) COMBO_POINTS_STATIC) as [v|]; [|done].
    injection Hcombo as <-. pose proof (Z.mod_pos_bound v (2 ^ 8) ltac:(done)).
    change (2 ^ 8) with 256 in *. lia. }
  assert (Hkeep : ∀ key, key ∈ ["combo_points"; "player_hp"; "player_max_hp"; "player_mp";
                                 "player_max_mp"; "player_level"] →
    stats !! key = player_stats combo hp max_hp mp max_mp level php pmp initial_stats !! key).
  { intros key Hk. apply (read_target_keeps _ _ _ _ _ Htarget).
    intros Hin.
    repeat (apply elem_of_cons in Hk as [->|Hk];
            [repeat (apply elem_of_cons in Hin as [Hin|Hin]; [discriminate|]);
             by apply elem_of_nil in Hin|]).
    by apply elem_of_nil in Hk. }
  rewrite !Hkeep by key_in.
  rewrite Hmgr. simpl. split_and!; try done; try lia.
  all: unfold player_stats, with_percent; destruct (max_hp >? 0), (max_mp >? 0);
    by dict_lookup.
Qed.

Lemma snapshot_player_provenance_witness :
  ∃ obj_mgr player_guid player_base descriptor_ptr combo hp max_hp mp max_mp level,
    (_get_object_manager_base Samples.combat_reader).1 = obj_mgr ∧ obj_mgr ≠ 0 ∧
    read_ulonglong (pm Samples.combat_reader) (obj_mgr + LOCAL_GUID_OFFSET) = Ok player_guid ∧
    player_guid ≠ 0 ∧ player_base ≠ 0 ∧
    read_ulonglong (pm Samples.combat_reader) (player_base + OBJECT_GUID_OFFSET) = Ok player_guid ∧
    read_uint (pm Samples.combat_reader) (player_base + M_STORAGE_OFFSET) = Ok descriptor_ptr ∧
    descriptor_ptr ≠ 0 ∧
    read_uchar (pm Samples.combat_reader) COMBO_POINTS_STATIC = Ok combo ∧
    read_int (pm Samples.combat_reader) (descriptor_ptr + UNIT_FIELD_HEALTH) = Ok hp ∧
    read_int (pm Samples.combat_reader) (descriptor_ptr + UNIT_FIELD_MAXHEALTH) = Ok max_hp ∧
    read_int (pm Samples.combat_reader) (descriptor_ptr + UNIT_FIELD_POWER1) = Ok mp ∧
    read_int (pm Samples.combat_reader) (descriptor_ptr + UNIT_FIELD_MAXPOWER1) = Ok max_mp ∧
    read_int (pm Samples.combat_reader) (descriptor_ptr + UNIT_FIELD_LEVEL) = Ok level ∧
    Samples.combat_snapshot !! "combo_points" = Some (PInt combo) ∧ 0 ≤ combo ≤ 255 ∧
    Samples.combat_snapshot !! "player_hp" = Some (PInt hp) ∧
    Samples.combat_snapshot !! "player_max_hp" = Some (PInt max_hp) ∧
    Samples.combat_snapshot !! "player_mp" = Some (PInt mp) ∧
    Samples.combat_snapshot !! "player_max_mp" = Some (PInt max_mp) ∧
    Samples.combat_snapshot !! "player_level" = Some (PInt level).
Proof.
  apply (snapshot_player_provenance Samples.combat_reader Samples.combat_reader_resolved
           Samples.combat_snapshot).
  reflexivity.
Defined.

(** X4. The target part of a returned snapshot is what the memory holds:
    [has_target] is true exactly when the target identifier at the static
    address is not 0; without a target the four target statistics are 0 and
    the name is empty; target statistics that are not all 0 were read from
    the descriptor of the object whose identifier is the target's; and a
    target name that is not empty was read through the two name pointers of
    that object. *)
Theorem snapshot_target_provenance (self self' : MemoryReader) (stats : gmap string pyval) :
  get_combat_stats self = (Some stats, self') →
  ∃ target_guid,
    read_ulonglong (pm self) TARGET_GUID_STATIC = Ok target_guid ∧
    stats !! "has_target" = Some (PBool (negb (target_guid =? 0))) ∧
    (target_guid = 0 →
     zero_target_stats stats ∧ stats !! "target_name" = Some (PStr "")) ∧
    (¬ zero_target_stats stats →
     ∃ target_base target_desc_ptr hp max_hp level,
       read_ulonglong (pm self) (target_base + OBJECT_GUID_OFFSET) = Ok target_guid ∧
       read_uint (pm self) (target_base + M_STORAGE_OFFSET) = Ok target_desc_ptr ∧
       read_int (pm self) (target_desc_ptr + UNIT_FIELD_HEALTH) = Ok hp ∧
       read_int (pm self) (target_desc_ptr + UNIT_FIELD_MAXHEALTH) = Ok max_hp ∧
       read_int (pm self) (target_desc_ptr + UNIT_FIELD_LEVEL) = Ok level ∧
       stats !! "target_hp" = Some (PInt hp) ∧
       stats !! "target_max_hp" = Some (PInt max_hp) ∧
       stats !! "target_level" = Some (PInt level)) ∧
    (stats !! "target_name" ≠ Some (PStr "") →
     ∃ target_base name_ptr_1 name_ptr_2 name,
       read_ulonglong (pm self) (target_base + OBJECT_GUID_OFFSET) = Ok target_guid ∧
       read_uint (pm self) (target_base + UNIT_NAME_1) = Ok name_ptr_1 ∧
       read_uint (pm self) (name_ptr_1 + UNIT_NAME_2) = Ok name_ptr_2 ∧
       read_string (pm self) name_ptr_2 = Ok name ∧
       stats !! "target_name" = Some (PStr name)).
Proof.
  intros (stats1 & self1 & Hplayer & Htarget)%get_combat_stats_Some.
  pose proof Hplayer as
    (Hpm & obj_mgr & player_guid & player_base & descriptor_ptr & combo & hp & max_hp
     & mp & max_mp & level & php & pmp & _ & _ & _ & _ & _ & _ & _ & _ & _ & _ & _ & _
     & _ & _ & _ & _ & Hstats1)%read_player_Some.
  assert (Hinit : ∀ k, k ∈ ["target_hp"; "target_max_hp"; "target_hp_percent";
                            "target_level"; "target_name"] →
                       stats1 !! k = initial_stats !! k).
  { intros k Hk. subst stats1. by apply player_stats_target_keys. }
  assert (Hflag : ∀ (b : bool) k,
    k ∈ ["target_hp"; "target_max_hp"; "target_hp_percent"; "target_level"; "target_name"] →
    (<["has_target" := PBool b]> stats1 : gmap string pyval) !! k = initial_stats !! k).
  { intros b k Hk. rewrite lookup_insert_ne by key_ne. by apply Hinit. }
  assert (Hzero : ∀ b, zero_target_stats (<["has_target" := PBool b]> stats1)).
  { intros b. unfold zero_target_stats. rewrite !Hflag by key_in. done. }
  pose proof (find_object_counted_spec self1) as Hfind.
  apply read_target_Some in Htarget as (_ & target_guid & Hguid & Htarget).
  rewrite Hpm in Hguid. exists target_guid. split; [done|].
  pose proof (read_ulonglong_nonneg _ _ _ Hguid) as Hnonneg.
  destruct (Z.gtb_spec target_guid 0) as [Hpos|Hpos].
  2:{ destruct Htarget as [-> _]. assert (target_guid = 0) as -> by lia.
      split_and!.
      - by rewrite lookup_insert_eq.
      - intros _. split; [apply Hzero | by rewrite ?lookup_insert_ne, Hinit by (done || key_in)].
      - intros H. by destruct H.
      - intros H. destruct H. by rewrite ?lookup_insert_ne, Hinit by (done || key_in). }
  destruct (Z.eqb_spec target_guid 0) as [|_]; [lia|]. simpl.
  destruct Htarget as (target_base & Hfound & Htarget).
  destruct (Z.eqb_spec target_base 0) as [Hbase|Hbase].
  { subst stats. split_and!.
    - by rewrite lookup_insert_eq.
    - lia.
    - intros H. by destruct H.
    - intros H. destruct H. by rewrite ?lookup_insert_ne, Hinit by (done || key_in). }
  assert (Hat : read_ulonglong (pm self) (target_base + OBJECT_GUID_OFFSET) = Ok target_guid).
  { destruct (Hfind target_guid) as (r & s & _ & Hr & _ & Hspec).
    rewrite Hfound in Hr. destruct r as [[found its]|e]; [|done].
    simpl in Hr. injection Hr as <- _.
    destruct Hspec as [_ Hspec]. destruct (Hspec Hbase) as (? & ? & ? & _ & _ & _ & Hg).
    by rewrite Hpm in Hg. }
  destruct Htarget as (target_desc_ptr & stats2 & Hdesc & Hstats2 & ->).
  rewrite Hpm in Hdesc, Hstats2 |- *.
  assert (Hname : read_target_name (pm self) target_base stats2 !! "target_name"
                  ≠ Some (PStr "") →
    stats2 !! "target_name" = Some (PStr "") →
    ∃ target_base0 name_ptr_1 name_ptr_2 name,
      read_ulonglong (pm self) (target_base0 + OBJECT_GUID_OFFSET) = Ok target_guid ∧
      read_uint (pm self) (target_base0 + UNIT_NAME_1) = Ok name_ptr_1 ∧
      read_uint (pm self) (name_ptr_1 + UNIT_NAME_2) = Ok name_ptr_2 ∧
      read_string (pm self) name_ptr_2 = Ok name ∧
      read_target_name (pm self) target_base stats2 !! "target_name" = Some (PStr name)).
  { unfold read_target_name, target_name_chain.
    destruct (read_uint (pm self) (target_base + UNIT_NAME_1)) as [p1|e] eqn:Hp1; simpl.
    2:{ rewrite lookup_insert_eq. done. }
    destruct (p1 =? 0); [done|].
    destruct (read_uint (pm self) (p1 + UNIT_NAME_2)) as [p2|e] eqn:Hp2; simpl.
    2:{ rewrite lookup_insert_eq. done. }
    destruct (p2 =? 0); [done|].
    destruct (read_string (pm self) p2) as [name|e] eqn:Hs; simpl.
    2:{ rewrite lookup_insert_eq. done. }
    rewrite lookup_insert_eq. intros _ _.
    by exists target_base, p1, p2, name. }
  rewrite read_target_name_lookup by done.
  unfold zero_target_stats. rewrite !read_target_name_lookup by done.
  revert Hstats2. destruct (Z.eqb_spec target_desc_ptr 0) as [Hd|Hd]; intros Hstats2.
  { subst stats2. split_and!.
    - by rewrite lookup_insert_eq.
    - lia.
    - intros H. destruct H. apply Hzero.
    - intros H. apply Hname; [done|]. by rewrite ?lookup_insert_ne, Hinit by (done || key_in). }
  destruct Hstats2 as (thp & tmax & tlevel & tp & Hthp & Htmax & Htlevel & _ & ->).
  split_and!.
  - unfold target_stats, with_percent. destruct (tmax >? 0); by dict_lookup.
  - lia.
  - intros _. exists target_base, target_desc_ptr, thp, tmax, tlevel.
    split_and!; try done.
    all: unfold target_stats, with_percent; destruct (tmax >? 0); by dict_lookup.
  - intros H. apply Hname; [done|].
    unfold target_stats, with_percent.
    destruct (tmax >? 0); repeat (rewrite lookup_insert_ne by done); by rewrite ?lookup_insert_ne, Hinit by (done || key_in).
Qed.

Lemma snapshot_target_provenance_witness :
  ∃ target_guid,
    read_ulonglong (pm Samples.combat_reader) TARGET_GUID_STATIC = Ok target_guid ∧
    Samples.combat_snapshot !! "has_target" = Some (PBool (negb (target_guid =? 0))) ∧
    (target_guid = 0 →
     zero_target_stats Samples.combat_snapshot ∧ Samples.combat_snapshot !! "target_name" = Some (PStr "")) ∧
    (¬ zero_target_stats Samples.combat_snapshot →
     ∃ target_base target_desc_ptr hp max_hp level,
       read_ulonglong (pm Samples.combat_reader) (target_base + OBJECT_GUID_OFFSET) = Ok target_guid ∧
       read_uint (pm Samples.combat_reader) (target_base + M_STORAGE_OFFSET) = Ok target_desc_ptr ∧
       read_int (pm Samples.combat_reader) (target_desc_ptr + UNIT_FIELD_HEALTH) = Ok hp ∧
       read_int (pm Samples.combat_reader) (target_desc_ptr + UNIT_FIELD_MAXHEALTH) = Ok max_hp ∧
       read_int (pm Samples.combat_reader) (target_desc_ptr + UNIT_FIELD_LEVEL) = Ok level ∧
       Samples.combat_snapshot !! "target_hp" = Some (PInt hp) ∧
       Samples.combat_snapshot !! "target_max_hp" = Some (PInt max_hp) ∧
       Samples.combat_snapshot !! "target_level" = Some (PInt level)) ∧
    (Samples.combat_snapshot !! "target_name" ≠ Some (PStr "") →
     ∃ target_base name_ptr_1 name_ptr_2 name,
       read_ulonglong (pm Samples.combat_reader) (target_base + OBJECT_GUID_OFFSET) = Ok target_guid ∧
       read_uint (pm Samples.combat_reader) (target_base + UNIT_NAME_1) = Ok name_ptr_1 ∧
       read_uint (pm Samples.combat_reader) (name_ptr_1 + UNIT_NAME_2) = Ok name_ptr_2 ∧
       read_string (pm Samples.combat_reader) name_ptr_2 = Ok name ∧
       Samples.combat_snapshot !! "target_name" = Some (PStr name)).
Proof.
  apply (snapshot_target_provenance Samples.combat_reader Samples.combat_reader_resolved
           Samples.combat_snapshot).
  reflexivity.
Defined.


(** *** Floats: integers below [2 ^ 53] convert exactly *)

Lemma Pos_iter_xO (m k : positive) :
  Zpos (Pos.iter xO m k) = Zpos m * 2 ^ Zpos k ∧
  Zpos (digits2_pos (Pos.iter xO m k)) = Zpos (digits2_pos m) + Zpos k.
Proof.
  induction k as [|k [IH1 IH2]] using Pos.peano_ind.
  - simpl. split; lia.
  - rewrite Pos.iter_succ. simpl digits2_pos.
    rewrite Pos2Z.inj_xO, IH1, !Pos2Z.inj_succ, IH2, Z.pow_succ_r by lia. split; lia.
Qed.

Lemma binary_round_aux_canonical (s : bool) (m : positive) (e : Z) :
  Z.max (Zpos (digits2_pos m) + e - 53) (3 - 1024 - 53) = e → e <= 971 →
  binary_round_aux 53 1024 s (Zpos m) e loc_Exact = S754_finite s m e.
Proof.
  intros Hcanon He. unfold binary_round_aux, shr_fexp, fexp, emin. simpl Zdigits2.
  rewrite Hcanon, Z.sub_diag. simpl. unfold fexp, emin.
  rewrite Hcanon, Z.sub_diag. simpl.
  destruct (Z.leb_spec e (1024 - 53)); [done | lia].
Qed.

Lemma binary_round_small (s : bool) (m : positive) :
  Zpos m < 2 ^ 53 →
  ∃ m' e', binary_round 53 1024 s m 0 = S754_finite s m' e' ∧
           e' <= 0 ∧ Zpos m' = Zpos m * 2 ^ (- e').
Proof.
  intros Hm. unfold binary_round, shl_align, fexp, emin.
  pose proof (Zdigits2_le (Zpos m) 53 ltac:(lia) ltac:(lia) Hm) as Hd. simpl in Hd.
  assert (0 < Zpos (digits2_pos m)) by lia.
  rewrite Z.add_0_r, Z.sub_0_r.
  replace (Z.max (Zpos (digits2_pos m) - 53) (3 - 1024 - 53))
    with (Zpos (digits2_pos m) - 53) by lia.
  destruct (Zpos (digits2_pos m) - 53) as [|k|k] eqn:Hk; [|lia|].
  - exists m, 0. split; [|split; [lia | simpl; lia]].
    apply binary_round_aux_canonical; lia.
  - destruct (Pos_iter_xO m k) as [Hv Hdig].
    exists (Pos.iter xO m k), (Zneg k). split; [|split; [lia|]].
    + apply binary_round_aux_canonical; lia.
    + rewrite Hv. done.
Qed.

Lemma compare_scale (a z k : Z) : 0 < k → (a * k ?= z * k) = (a ?= z).
Proof.
  intros Hk. destruct (Z.compare_spec a z) as [->|Hlt|Hgt].
  - apply Z.compare_refl.
  - apply Z.compare_lt_iff. nia.
  - apply Z.compare_gt_iff. nia.
Qed.

(** [float(z)] for [|z| < 2 ^ 53] is a float that compares with every
    integer as [z] does. *)
Lemma float_of_int_exact (z : Z) :
  Z.abs z < 2 ^ 53 →
  ∃ f, float_of_int z = Ok f ∧ ∀ a, compare_int_float a f = Some (a ?= z).
Proof.
  intros Hz. unfold float_of_int, binary_normalize, prec, emax.
  destruct z as [|p|p].
  - by eexists.
  - destruct (binary_round_small false p ltac:(lia)) as (m' & e' & -> & He & Hm).
    eexists. split; [done|]. intros a. simpl. f_equal.
    destruct (Z.leb_spec 0 e') as [H0|H0].
    + assert (e' = 0) as -> by lia. simpl in *. f_equal. lia.
    + rewrite Hm. assert (0 < 2 ^ (- e')) by (apply Z.pow_pos_nonneg; lia).
      by rewrite compare_scale.
  - destruct (binary_round_small true p ltac:(lia)) as (m' & e' & -> & He & Hm).
    eexists. split; [done|]. intros a. simpl. f_equal.
    destruct (Z.leb_spec 0 e') as [H0|H0].
    + assert (e' = 0) as -> by lia. simpl in *. f_equal. lia.
    + assert (0 < 2 ^ (- e')) by (apply Z.pow_pos_nonneg; lia).
      replace (- Zpos m') with (Zneg p * 2 ^ (- e')) by lia.
      by rewrite compare_scale.
Qed.

Lemma eqb_compare (x y : Z) : (x =? y) = match x ?= y with Eq => true | _ => false end.
Proof.
  destruct (Z.eqb_spec x y) as [->|Hne]; [by rewrite Z.compare_refl|].
  destruct (Z.compare_spec x y); done.
Qed.

Lemma check_condition_numeric bi cfg_slots condition stats v z op :
  stat condition ∉ ["has_target"; "target_is_own_character"; "target_name"] →
  stats !! stat condition = Some (PInt v) →
  value condition = PInt z →
  Z.abs z < 2 ^ 53 →
  op_map (operator condition) = Some op →
  ∃ f, (∀ a, compare_int_float a f = Some (a ?= z)) ∧
       _check_condition bi cfg_slots condition stats = op (PInt v) (PFloat f).
Proof.
  intros Hkind Hv Hz Hsmall Hop.
  destruct (float_of_int_exact z Hsmall) as (f & Hf & Hcmp). exists f. split; [done|].
  unfold _check_condition, stats_get. rewrite Hv. simpl.
  assert (String.eqb (stat condition) "has_target" = false) as ->.
  { apply String.eqb_neq. intros E. apply Hkind. rewrite E. key_in. }
  assert (String.eqb (stat condition) "target_is_own_character" = false) as ->.
  { apply String.eqb_neq. intros E. apply Hkind. rewrite E. key_in. }
  assert (String.eqb (stat condition) "target_name" = false) as ->.
  { apply String.eqb_neq. intros E. apply Hkind. rewrite E. key_in. }
  simpl. rewrite Hop, Hz. unfold py_float. by rewrite Hf.
Qed.

(** X5. On a numeric statistic (any statistic but [has_target],
    [target_is_own_character] and [target_name]) that holds the integer
    [v], a condition with an integer literal [z] below [2 ^ 53] in magnitude
    is the comparison of the two integers: although the literal is
    converted to a float first, each of the six operators gives exactly
    [v < z], [v > z], [v = z], [v <> z], [v <= z], [v >= z], and any other
    operator gives false. *)
Theorem numeric_condition_exact (bi : Builtins) (cfg_slots : gmap string SlotConfig)
    (stats : gmap string pyval) (kind : string) (v z : Z) :
  kind ∉ ["has_target"; "target_is_own_character"; "target_name"] →
  stats !! kind = Some (PInt v) →
  Z.abs z < 2 ^ 53 →
  _check_condition bi cfg_slots {| stat := kind; operator := "<"; value := PInt z |} stats
  = Ok (v <? z) ∧
  _check_condition bi cfg_slots {| stat := kind; operator := ">"; value := PInt z |} stats
  = Ok (v >? z) ∧
  _check_condition bi cfg_slots {| stat := kind; operator := "=="; value := PInt z |} stats
  = Ok (v =? z) ∧
  _check_condition bi cfg_slots {| stat := kind; operator := "!="; value := PInt z |} stats
  = Ok (negb (v =? z)) ∧
  _check_condition bi cfg_slots {| stat := kind; operator := "<="; value := PInt z |} stats
  = Ok (v <=? z) ∧
  _check_condition bi cfg_slots {| stat := kind; operator := ">="; value := PInt z |} stats
  = Ok (v >=? z) ∧
  ∀ op, op ∉ VALID_OPERATORS →
    _check_condition bi cfg_slots {| stat := kind; operator := op; value := PInt z |} stats
    = Ok false.
Proof.
  intros Hkind Hv Hz.
  assert (Hnum : ∀ o op, op_map o = Some op →
    ∃ f, (∀ a, compare_int_float a f = Some (a ?= z)) ∧
         _check_condition bi cfg_slots {| stat := kind; operator := o; value := PInt z |} stats
         = op (PInt v) (PFloat f)).
  { intros o op Hop. by apply (check_condition_numeric _ _ _ _ v z). }
  split_and!.
  - destruct (Hnum "<" _ eq_refl) as (f & Hcmp & ->).
    unfold py_lt, py_order. simpl. by rewrite Hcmp.
  - destruct (Hnum ">" _ eq_refl) as (f & Hcmp & ->).
    unfold py_gt, py_order. simpl. by rewrite Hcmp.
  - destruct (Hnum "==" _ eq_refl) as (f & Hcmp & ->).
    unfold py_eq. simpl. by rewrite Hcmp, eqb_compare.
  - destruct (Hnum "!=" _ eq_refl) as (f & Hcmp & ->).
    unfold py_ne, py_eq. simpl. by rewrite Hcmp, eqb_compare.
  - destruct (Hnum "<=" _ eq_refl) as (f & Hcmp & ->).
    unfold py_le, py_order. simpl. by rewrite Hcmp.
  - destruct (Hnum ">=" _ eq_refl) as (f & Hcmp & ->).
    unfold py_ge, py_order. simpl. by rewrite Hcmp.
  - intros op Hop. apply check_condition_numeric_fail_closed; simpl.
    1-3: apply String.eqb_neq; intros E; apply Hkind; rewrite E; key_in.
    left. unfold op_map.
    repeat (case_match; [exfalso; apply Hop;
      match goal with H : String.eqb _ _ = true |- _ => apply String.eqb_eq in H; rewrite H end;
      key_in|]).
    done.
Qed.

Lemma numeric_condition_exact_witness :
  _check_condition Samples.no_builtins Samples.own_slots
    {| stat := "player_hp_percent"; operator := "<"; value := PInt 50 |}
    Samples.low_health_snapshot = Ok (40 <? 50).
Proof.
  apply (numeric_condition_exact Samples.no_builtins Samples.own_slots
           Samples.low_health_snapshot "player_hp_percent" 40 50).
  - intros Hin. repeat (apply elem_of_cons in Hin as [Hin|Hin]; [discriminate|]).
    by apply elem_of_nil in Hin.
  - reflexivity.
  - simpl. lia.
Defined.

(** X6. On a snapshot whose [has_target] is the boolean [b], a
    [has_target] condition with the integer literal [z] asks whether [b]
    agrees with [z > 0]: [==] is true exactly when they agree, [!=] exactly
    when they differ, and every other operator is false. *)
Theorem has_target_condition (bi : Builtins) (cfg_slots : gmap string SlotConfig)
    (stats : gmap string pyval) (b : bool) (z : Z) :
  stats !! "has_target" = Some (PBool b) →
  _check_condition bi cfg_slots
    {| stat := "has_target"; operator := "=="; value := PInt z |} stats
  = Ok (Bool.eqb b (0 <? z)) ∧
  _check_condition bi cfg_slots
    {| stat := "has_target"; operator := "!="; value := PInt z |} stats
  = Ok (negb (Bool.eqb b (0 <? z))) ∧
  ∀ op, op ≠ "==" → op ≠ "!=" →
    _check_condition bi cfg_slots
      {| stat := "has_target"; operator := op; value := PInt z |} stats
    = Ok false.
Proof.
  intros Hb.
  assert (Hexp : py_gt (PInt z) (PInt 0) = Ok (0 <? z)).
  { unfold py_gt, py_order. simpl. f_equal. rewrite Z.ltb_antisym, Z.leb_compare.
    by destruct (z ?= 0). }
  assert (Heq : ∀ e : bool, py_eq (PBool b) (PBool e) = Bool.eqb b e).
  { by intros [] ; destruct b. }
  assert (Hop : ∀ op,
    _check_condition bi cfg_slots
      {| stat := "has_target"; operator := op; value := PInt z |} stats
    = if String.eqb op "==" then Ok (Bool.eqb b (0 <? z))
      else if String.eqb op "!=" then Ok (negb (Bool.eqb b (0 <? z)))
      else Ok false).
  { intros op. unfold _check_condition, stats_get. cbn [stat operator value]. rewrite Hb.
    change (String.eqb "has_target" "has_target") with true.
    cbn [orb default from_option id]. rewrite Hexp.
    unfold py_ne. rewrite <- !Heq. done. }
  rewrite !Hop. split_and!; [done..|].
  intros op H1 H2. rewrite Hop.
  destruct (String.eqb_spec op "=="); [done|].
  by destruct (String.eqb_spec op "!=").
Qed.

Lemma has_target_condition_witness :
  _check_condition Samples.no_builtins Samples.own_slots
    {| stat := "has_target"; operator := "=="; value := PInt 1 |} Samples.combat_snapshot
  = Ok (Bool.eqb true (0 <? 1)).
Proof.
  apply (has_target_condition Samples.no_builtins Samples.own_slots Samples.combat_snapshot
           true 1).
  reflexivity.
Defined.

Section Safe.
Variable bi : Builtins.
Variable cfg_slots : gmap string SlotConfig.

Lemma py_order_numbers holds (x y : pyval) a b :
  as_number x = Some a → as_number y = Some b → ∃ r, py_order holds x y = Ok r.
Proof. unfold py_order. intros -> ->. by eexists. Qed.

Lemma op_map_numbers o op (v : Z) (f : float) :
  op_map o = Some op → ∃ r, op (PInt v) (PFloat f) = Ok r.
Proof.
  unfold op_map. intros H.
  repeat case_match; try done; injection H as <-;
    first [by eexists | by apply (py_order_numbers _ _ _ (NInt v) (NFloat f))].
Qed.

Lemma check_condition_safe condition stats :
  has_schema stats → safe_literal condition →
  ∃ r, _check_condition bi cfg_slots condition stats = Ok r.
Proof.
  intros Hs Hsafe. destruct (Hs (stat condition)) as [Hin Hout].
  destruct (decide (stat condition ∈ schema)) as [Hk|Hk].
  2:{ exists false. apply check_condition_missing_field. unfold stats_get.
      by rewrite Hout. }
  destruct (Hin Hk) as (sv & Hv & Hty).
  unfold _check_condition, stats_get. rewrite Hv. simpl.
  destruct sv as [|b|v|f|s]; simpl in Hty; try done.
  - (* has_target *)
    rewrite Hty. simpl. unfold safe_literal in Hsafe.
    destruct (value condition) as [|e|z|f|s] eqn:Hval; try done.
    + unfold py_gt, py_order. simpl. repeat case_match; by eexists.
    + unfold py_gt, py_order. simpl. repeat case_match; by eexists.
    + unfold py_gt, py_order. simpl. repeat case_match; by eexists.
  - (* the numeric fields *)
    assert (String.eqb (stat condition) "has_target" = false) as ->.
    { apply String.eqb_neq. intros E. rewrite E in Hty. unfold numeric_fields in Hty.
      repeat (apply elem_of_cons in Hty as [Hty|Hty]; [discriminate|]).
      by apply elem_of_nil in Hty. }
    assert (String.eqb (stat condition) "target_is_own_character" = false) as ->.
    { apply String.eqb_neq. intros E. rewrite E in Hty. unfold numeric_fields in Hty.
      repeat (apply elem_of_cons in Hty as [Hty|Hty]; [discriminate|]).
      by apply elem_of_nil in Hty. }
    assert (String.eqb (stat condition) "target_name" = false) as ->.
    { apply String.eqb_neq. intros E. rewrite E in Hty. unfold numeric_fields in Hty.
      repeat (apply elem_of_cons in Hty as [Hty|Hty]; [discriminate|]).
      by apply elem_of_nil in Hty. }
    simpl. destruct (op_map (operator condition)) as [op|] eqn:Hop; [|by eexists].
    unfold safe_literal in Hsafe.
    destruct (value condition) as [|e|z|f|s] eqn:Hval; simpl.
    + by eexists.
    + destruct (float_of_int_exact (Z.b2z e) ltac:(by destruct e)) as (f & -> & _).
      by apply (op_map_numbers (operator condition)).
    + destruct (float_of_int_exact z Hsafe) as (f & -> & _).
      by apply (op_map_numbers (operator condition)).
    + by apply (op_map_numbers (operator condition)).
    + destruct (float_of_str bi s); [|by eexists].
      by apply (op_map_numbers (operator condition)).
  - (* target_name *)
    rewrite Hty. simpl. repeat case_match; by eexists.
Qed.

Lemma all_conditions_met_safe conds stats :
  has_schema stats → Forall safe_literal conds →
  ∃ r, all_conditions_met bi cfg_slots conds stats = Ok r.
Proof.
  intros Hs. induction 1 as [|c conds Hc _ IH]; simpl; [by eexists|].
  destruct (check_condition_safe c stats Hs Hc) as [[] ->]; simpl; [done | by eexists].
Qed.

Lemma first_matching_rule_safe rules stats :
  has_schema stats → Forall (λ rule, Forall safe_literal (conditions rule)) rules →
  ∃ r, first_matching_rule bi cfg_slots rules stats = Ok r.
Proof.
  intros Hs. induction 1 as [|rule rules Hr _ IH]; simpl; [by eexists|].
  destruct (all_conditions_met_safe (conditions rule) stats Hs Hr) as [[] ->]; simpl;
    [by eexists | done].
Qed.

End Safe.

(** X7. On every snapshot that [get_combat_stats] returns,
    [_check_condition] returns a boolean and raises nothing, for every
    statistic name and every operator, provided the literal is safe: an
    integer below [2 ^ 53] in magnitude, a boolean or a float, or a string
    or [None] on a statistic other than [has_target]. *)
Theorem safe_condition_never_raises (bi : Builtins) (cfg_slots : gmap string SlotConfig)
    (self : MemoryReader) (stats : gmap string pyval) (condition : Condition) :
  (get_combat_stats self).1 = Some stats →
  safe_literal condition →
  ∃ r, _check_condition bi cfg_slots condition stats = Ok r.
Proof.
  intros Hget Hsafe. apply check_condition_safe; [|done].
  destruct (get_combat_stats self) as [r self'] eqn:Hs. simpl in Hget. subst r.
  by apply get_combat_stats_schema in Hs.
Qed.

Lemma safe_condition_never_raises_witness :
  ∃ r, _check_condition Samples.no_builtins Samples.own_slots
         {| stat := "has_target"; operator := "=="; value := PInt 1 |}
         Samples.combat_snapshot = Ok r.
Proof.
  apply (safe_condition_never_raises _ _ Samples.combat_reader).
  - reflexivity.
  - unfold safe_literal. simpl. lia.
Defined.

(** X8. [all(...)] over the conditions of a rule is true exactly when every
    condition evaluates to true (so a rule without conditions always
    matches); it is false as soon as the first condition that is not true
    is false, and raises as soon as that condition raises: the conditions
    after it are not evaluated, whatever they would give. *)
Theorem all_conditions_met_iff (bi : Builtins) (cfg_slots : gmap string SlotConfig)
    (stats : gmap string pyval) (conds : list Condition) :
  (all_conditions_met bi cfg_slots conds stats = Ok true ↔
   Forall (λ c, _check_condition bi cfg_slots c stats = Ok true) conds) ∧
  (∀ pre c post,
     conds = pre ++ c :: post →
     Forall (λ c, _check_condition bi cfg_slots c stats = Ok true) pre →
     _check_condition bi cfg_slots c stats = Ok false →
     all_conditions_met bi cfg_slots conds stats = Ok false) ∧
  (∀ pre c post e,
     conds = pre ++ c :: post →
     Forall (λ c, _check_condition bi cfg_slots c stats = Ok true) pre →
     _check_condition bi cfg_slots c stats = Raise e →
     all_conditions_met bi cfg_slots conds stats = Raise e).
Proof.
  split_and!.
  - induction conds as [|c conds IH]; simpl.
    + split; [constructor | done].
    + destruct (_check_condition bi cfg_slots c stats) as [[]|e] eqn:Hc; simpl.
      * rewrite IH. split; [by constructor | by inversion 1].
      * split; [done | inversion 1; congruence].
      * split; [done | inversion 1; congruence].
  - intros pre c post -> Hpre Hc.
    induction Hpre as [|c0 pre Hc0 _ IH]; simpl; [by rewrite Hc | by rewrite Hc0].
  - intros pre c post e -> Hpre Hc.
    induction Hpre as [|c0 pre Hc0 _ IH]; simpl; [by rewrite Hc | by rewrite Hc0].
Qed.

Lemma rotation_client_safe bi cfg_slots client_rotation_map hwnd rotation env :
  safe_rotation rotation → from_reader env →
  ∃ r, rotation_client bi cfg_slots client_rotation_map hwnd rotation env = Ok r.
Proof.
  intros Hsafe Henv. unfold rotation_client.
  destruct (Qltb _ _); [by eexists|].
  destruct (snapshot env) as [stats|] eqn:Hsnap; [|by eexists].
  destruct (bool_decide (stats = ∅)); [by eexists|].
  assert (has_schema stats) as Hs.
  { destruct Henv as [|[reader Hr]]; [congruence|]. rewrite Hsnap in Hr.
    destruct (get_combat_stats reader) as [r self'] eqn:Hget. simpl in Hr. subst r.
    by apply get_combat_stats_schema in Hget. }
  destruct (first_matching_rule_safe bi cfg_slots (rules rotation) stats Hs Hsafe)
    as [[rule|] ->]; simpl; by eexists.
Qed.

(** X9. The engine thread does not die on safe rotations: when every
    rotation that is visited has only safe literals and every snapshot is
    [None] or the result of a reader, no visit raises, so every visit of
    the sequence takes place. *)
Theorem engine_survives_safe_rotations (bi : Builtins) (visits : list visit)
    (client_rotation_map : gmap Z (CombatRotation * Q)) :
  Forall (λ v, safe_rotation (v_rotation v) ∧ from_reader (v_env v)) visits →
  length (engine_run bi visits client_rotation_map).1 = length visits.
Proof.
  intros Hsafe. revert client_rotation_map.
  induction Hsafe as [|v visits [Hrot Henv] _ IH]; intros client_rotation_map; [done|].
  simpl.
  destruct (rotation_client_safe bi (v_slots v) client_rotation_map (v_hwnd v)
              (v_rotation v) (v_env v) Hrot Henv) as [[o map'] ->].
  specialize (IH map'). destruct (engine_run bi visits map') as [os final].
  simpl in *. by rewrite IH.
Qed.

Lemma engine_survives_safe_rotations_witness :
  length (engine_run Samples.no_builtins Samples.combat_visits ∅).1
  = length Samples.combat_visits.
Proof.
  apply engine_survives_safe_rotations.
  apply List.Forall_cons; [split | apply List.Forall_nil].
  - unfold safe_rotation. simpl.
    repeat (apply List.Forall_cons || apply List.Forall_nil); unfold safe_literal; simpl; lia.
  - right. exists Samples.combat_reader. reflexivity.
Defined.


(** *** The clients of a pass *)

Lemma dict_set_keys {V} (k : Z) (v : V) (d : list (Z * V)) :
  NoDup d.*1 → NoDup (dict_set k v d).*1 ∧
  ∀ k' v', (k', v') ∈ dict_set k v d ↔ (k' = k ∧ v' = v) ∨ (k' ≠ k ∧ (k', v') ∈ d).
Proof.
  induction d as [|[k0 v0] d IH]; simpl.
  - intros _. split; [apply NoDup_singleton|].
    intros k' v'. rewrite list_elem_of_singleton, elem_of_nil.
    split; [intros [= -> ->]; by left | by intros [[-> ->]|[_ []]]].
  - intros [Hk0 Hd]%NoDup_cons. destruct (IH Hd) as [IH1 IH2].
    destruct (Z.eqb_spec k0 k) as [->|Hne]; simpl.
    + split; [by apply NoDup_cons|].
      intros k' v'. rewrite !elem_of_cons. split.
      * intros [[= -> ->]|Hin]; [by left|]. right. split; [|by right].
        intros ->. apply Hk0. apply list_elem_of_fmap. by exists (k, v').
      * intros [[-> ->]|[Hne [[= ]|Hin]]]; [by left | done | by right].
    + split.
      * apply NoDup_cons. split; [|done].
        intros [[k1 v1] [Heq Hin]]%list_elem_of_fmap. simpl in Heq. subst k1.
        apply IH2 in Hin as [[-> _]|[_ Hin]]; [done|].
        apply Hk0. apply list_elem_of_fmap. by exists (k0, v1).
      * intros k' v'. rewrite !elem_of_cons, IH2. split.
        -- intros [[= -> ->]|[?|[? ?]]]; [right; split; [done | by left] | by left |].
           right. split; [done | by right].
        -- intros [?|[? [?|?]]]; [right; by left | by left | right; by right].
Qed.

Lemma active_clients_snoc is_window cfg_slots cfg_rotations proc_hwnd slot_name hwnd :
  active_clients is_window cfg_slots cfg_rotations (proc_hwnd ++ [(slot_name, hwnd)])
  = let active := active_clients is_window cfg_slots cfg_rotations proc_hwnd in
    if negb (is_window hwnd) then active
    else
      match cfg_slots !! slot_name with
      | None => active
      | Some slot_cfg =>
          match assigned_rotation slot_cfg with
          | None => active
          | Some r =>
              if String.eqb r "" then active
              else
                match cfg_rotations !! r with
                | None => active
                | Some rotation => dict_set hwnd rotation active
                end
          end
      end.
Proof. unfold active_clients. by rewrite foldl_app. Qed.

Lemma active_clients_sound is_window cfg_slots cfg_rotations proc_hwnd :
  NoDup (active_clients is_window cfg_slots cfg_rotations proc_hwnd).*1 ∧
  ∀ hwnd rotation,
    (hwnd, rotation) ∈ active_clients is_window cfg_slots cfg_rotations proc_hwnd →
    ∃ slot_name, (slot_name, hwnd) ∈ proc_hwnd ∧
                 drives is_window cfg_slots cfg_rotations slot_name hwnd rotation.
Proof.
  induction proc_hwnd as [|[slot_name hwnd] proc_hwnd [IH1 IH2]] using rev_ind.
  { split; [constructor|]. intros ?? []%elem_of_nil. }
  rewrite active_clients_snoc. cbv zeta.
  assert (Hold : ∀ h rot,
    (h, rot) ∈ active_clients is_window cfg_slots cfg_rotations proc_hwnd →
    ∃ s, (s, h) ∈ proc_hwnd ++ [(slot_name, hwnd)] ∧
         drives is_window cfg_slots cfg_rotations s h rot).
  { intros h rot (s & Hin & Hd)%IH2. exists s. split; [|done].
    apply elem_of_app. by left. }
  destruct (is_window hwnd) eqn:Hw; simpl; [|done].
  destruct (cfg_slots !! slot_name) as [slot_cfg|] eqn:Hslot; [|done].
  destruct (assigned_rotation slot_cfg) as [r|] eqn:Hr; [|done].
  destruct (String.eqb_spec r "") as [|Hne]; [done|].
  destruct (cfg_rotations !! r) as [rotation|] eqn:Hrot; [|done].
  destruct (dict_set_keys hwnd rotation _ IH1) as [Hnodup Hin]. split; [done|].
  intros h rot [[-> ->]|[_ Hold']]%Hin; [|by apply Hold].
  exists slot_name. split; [apply elem_of_app; right; by apply list_elem_of_singleton|].
  split; [done|]. by exists slot_cfg, r.
Qed.

Lemma active_clients_complete is_window cfg_slots cfg_rotations proc_hwnd slot_name hwnd
    rotation :
  (slot_name, hwnd) ∈ proc_hwnd →
  drives is_window cfg_slots cfg_rotations slot_name hwnd rotation →
  hwnd ∈ (active_clients is_window cfg_slots cfg_rotations proc_hwnd).*1.
Proof.
  induction proc_hwnd as [|[s h] proc_hwnd IH] using rev_ind; [by intros []%elem_of_nil|].
  intros Hin Hd. rewrite active_clients_snoc. cbv zeta.
  destruct (active_clients_sound is_window cfg_slots cfg_rotations proc_hwnd) as [Hnodup _].
  assert (Hkeep : ∀ rot,
    hwnd ∈ (active_clients is_window cfg_slots cfg_rotations proc_hwnd).*1 →
    hwnd ∈ (dict_set h rot (active_clients is_window cfg_slots cfg_rotations proc_hwnd)).*1).
  { intros rot [[h1 r1] [Heq Hin1]]%list_elem_of_fmap. simpl in Heq. subst h1.
    destruct (dict_set_keys h rot _ Hnodup) as [_ Hset].
    apply list_elem_of_fmap. destruct (decide (hwnd = h)) as [->|Hne].
    - exists (h, rot). split; [done|]. apply Hset. by left.
    - exists (hwnd, r1). split; [done|]. apply Hset. by right. }
  apply elem_of_app in Hin as [Hin|[= -> ->]%list_elem_of_singleton].
  - specialize (IH Hin Hd). repeat case_match; try done; by apply Hkeep.
  - destruct Hd as (-> & slot_cfg & r & -> & -> & Hne & ->). simpl.
    destruct (String.eqb_spec r "") as [|_]; [done|].
    destruct (dict_set_keys h rotation _ Hnodup) as [_ Hset].
    apply list_elem_of_fmap. exists (h, rotation). split; [done|]. apply Hset. by left.
Qed.

(** X10. The clients of one pass of the engine: no window is visited twice
    in a pass; every visit is for the live window of some slot that is
    assigned a rotation that exists, with that rotation; and every live
    window of such a slot is visited. *)
Theorem engine_pass_clients (is_window : Z → bool)
    (cfg_slots : gmap string SlotConfig) (cfg_rotations : gmap string CombatRotation)
    (proc_hwnd : list (string * Z)) (env : Z → client_env) :
  NoDup (v_hwnd <$> engine_pass is_window cfg_slots cfg_rotations proc_hwnd env) ∧
  (∀ v, v ∈ engine_pass is_window cfg_slots cfg_rotations proc_hwnd env →
     ∃ slot_name, (slot_name, v_hwnd v) ∈ proc_hwnd ∧
       drives is_window cfg_slots cfg_rotations slot_name (v_hwnd v) (v_rotation v)) ∧
  (∀ slot_name hwnd rotation,
     (slot_name, hwnd) ∈ proc_hwnd →
     drives is_window cfg_slots cfg_rotations slot_name hwnd rotation →
     hwnd ∈ v_hwnd <$> engine_pass is_window cfg_slots cfg_rotations proc_hwnd env).
Proof.
  unfold engine_pass.
  destruct (active_clients_sound is_window cfg_slots cfg_rotations proc_hwnd)
    as [Hnodup Hsound].
  assert (Hkeys : ∀ l : list (Z * CombatRotation),
    v_hwnd <$> ((λ client : Z * CombatRotation,
                   {| v_slots := cfg_slots; v_hwnd := client.1; v_rotation := client.2;
                      v_env := env client.1 |}) <$> l) = l.*1).
  { intros l. rewrite <- list_fmap_compose. by apply list_fmap_ext. }
  rewrite Hkeys. split_and!; [done | |].
  - intros v [[h rot] [-> Hin]]%list_elem_of_fmap. simpl. by apply Hsound.
  - intros. by eapply active_clients_complete.
Qed.

(** *** The keys of a firing rule *)

Lemma post_key_event_cases hwnd key event_type :
  _post_key_event hwnd key event_type
  = match VK_CODE_MAP !! lower key with
    | None => []
    | Some vk_code =>
        [PostMessage hwnd (if String.eqb event_type "down" then WM_KEYDOWN else WM_KEYUP)
           vk_code]
    end.
Proof.
  unfold _post_key_event. generalize (VK_CODE_MAP !! lower key). by intros [vk_code|].
Qed.

Lemma broadcast_one hwnd key event_type :
  _broadcast_key_event key [hwnd] event_type = _post_key_event hwnd key event_type.
Proof. unfold _broadcast_key_event. cbn [mbind list_bind]. apply app_nil_r. Qed.

Lemma fire_keys_cons hwnd key keys :
  fire_keys hwnd (key :: keys)
  = match VK_CODE_MAP !! lower key with
    | Some vk_code =>
        [PostMessage hwnd WM_KEYDOWN vk_code; sleep (5 # 100);
         PostMessage hwnd WM_KEYUP vk_code; sleep (5 # 100)]
    | None => [sleep (5 # 100); sleep (5 # 100)]
    end ++ fire_keys hwnd keys.
Proof.
  unfold fire_keys at 1. cbn [mbind list_bind]. fold (fire_keys hwnd keys).
  f_equal. rewrite !broadcast_one, !post_key_event_cases.
  generalize (VK_CODE_MAP !! lower key). by intros [vk_code|].
Qed.

(** X11. The messages of a firing rule: leaving the pauses out, the keys
    of the rule give, in order, for every key that has a virtual key code
    its key-down message followed by its key-up message, and nothing for a
    key without a code (so no key is left pressed); there are two pauses
    per key; and every message of a client visit goes to the window of
    that client. *)
Theorem fire_keys_messages (hwnd : Z) (keys : list string) :
  filter is_post (fire_keys hwnd keys)
  = (key ← keys;
     match VK_CODE_MAP !! lower key with
     | Some vk_code =>
         [PostMessage hwnd WM_KEYDOWN vk_code; PostMessage hwnd WM_KEYUP vk_code]
     | None => []
     end) ∧
  length (filter (λ e, negb (is_post e)) (fire_keys hwnd keys)) = (2 * length keys)%nat ∧
  ∀ bi cfg_slots client_rotation_map rotation env o client_rotation_map',
    rotation_client bi cfg_slots client_rotation_map hwnd rotation env
    = Ok (o, client_rotation_map') →
    ∀ h msg vk_code, PostMessage h msg vk_code ∈ events o → h = hwnd.
Proof.
  split_and!.
  - induction keys as [|key keys IH]; [done|].
    rewrite fire_keys_cons, filter_app, IH. cbn [mbind list_bind]. f_equal.
    generalize (VK_CODE_MAP !! lower key). by intros [vk_code|].
  - induction keys as [|key keys IH]; [done|].
    rewrite fire_keys_cons, filter_app, length_app, IH.
    generalize (VK_CODE_MAP !! lower key). intros [vk_code|]; simpl; lia.
  - assert (Hall : ∀ ks h msg vk_code,
      PostMessage h msg vk_code ∈ fire_keys hwnd ks → h = hwnd).
    { induction ks as [|key ks IH]; intros h msg vk_code Hin.
      - by apply elem_of_nil in Hin.
      - rewrite fire_keys_cons in Hin. apply elem_of_app in Hin as [Hin|Hin]; [|by eapply IH].
        revert Hin. generalize (VK_CODE_MAP !! lower key). intros [vk|] Hin;
          repeat (apply elem_of_cons in Hin as [Hin|Hin]; [congruence|]);
          by apply elem_of_nil in Hin. }
    intros bi cfg_slots m rotation env o m' Hrun h msg vk_code Hin.
    unfold rotation_client in Hrun.
    destruct (Qltb _ _); [injection Hrun as <- <-; by apply elem_of_nil in Hin|].
    destruct (snapshot env) as [stats|];
      [|injection Hrun as <- <-; by apply elem_of_nil in Hin].
    destruct (bool_decide _); [injection Hrun as <- <-; by apply elem_of_nil in Hin|].
    destruct (first_matching_rule bi cfg_slots (rules rotation) stats) as [[rule|]|e];
      cbn [mbind result_bind] in Hrun; [| |done].
    + injection Hrun as <- <-. cbn [events] in Hin. by eapply Hall.
    + injection Hrun as <- <-. by apply elem_of_nil in Hin.
Qed.


(** *** Macro targets: the other policies *)

Lemma targets_for_not_round_robin self target named_slots :
  target ≠ "round_robin" → (_targets_for self target named_slots).2 = self.
Proof.
  intros Hne. unfold _targets_for. destruct (hwnds self); [done|].
  destruct (String.eqb_spec target "round_robin") as [|_]; [done|].
  by repeat case_match.
Qed.

Lemma run_macro_body_not_round_robin self m :
  target m ≠ "round_robin" →
  _run_macro_body self m
  = (match (_targets_for self (target m) (slots m)).1 with
     | [] => None
     | targets => Some targets
     end, self, m).
Proof.
  intros Hne. unfold _run_macro_body.
  pose proof (targets_for_not_round_robin self (target m) (slots m) Hne) as Hs.
  destruct (_targets_for self (target m) (slots m)) as [targets self1]. simpl in *. subst.
  destruct targets; [done|].
  by destruct (String.eqb_spec (target m) "round_robin").
Qed.

(** X12. The windows a macro is played to, for the policies other than
    round robin: nothing is played on an empty window registry; the steps
    are never played to an empty list of targets; such a macro changes
    neither the controller nor the macro object; [main] plays to the main
    window alone and only if there is one; [all_except_main] plays to the
    registered windows other than the main one, in their order;
    [slots] plays only to the non-null windows of the named slots; and a
    policy name that is not known plays to every window. *)
Theorem macro_target_policies (self : Controller) (m : Macro) :
  (hwnds self = [] → _run_macro_body self m = (None, self, m)) ∧
  (∀ targets, (_run_macro_body self m).1.1 = Some targets → targets ≠ []) ∧
  (target m ≠ "round_robin" →
   (_run_macro_body self m).1.2 = self ∧ (_run_macro_body self m).2 = m) ∧
  (target m = "main" →
   ∀ targets, (_run_macro_body self m).1.1 = Some targets →
     ∃ h, targets = [h] ∧ main_hwnd self = Some h ∧ h ≠ 0) ∧
  (target m = "all_except_main" →
   ∀ targets, (_run_macro_body self m).1.1 = Some targets →
     targets = filter (λ h, Some h ≠ main_hwnd self) (hwnds self)) ∧
  (target m = "slots" →
   ∀ targets, (_run_macro_body self m).1.1 = Some targets →
     ∀ h, h ∈ targets → h ≠ 0 ∧ ∃ s, s ∈ slots m ∧ proc_hwnd self !! s = Some h) ∧
  (target m ∉ ["main"; "all_except_main"; "slots"; "round_robin"] →
   hwnds self ≠ [] → (_run_macro_body self m).1.1 = Some (hwnds self)).
Proof.
  split_and!.
  - intros Hnil. unfold _run_macro_body, _targets_for. by rewrite Hnil.
  - intros targets. unfold _run_macro_body.
    destruct (_targets_for self (target m) (slots m)) as [ts self1].
    destruct ts as [|t ts]; [done|].
    destruct (String.eqb (target m) "round_robin").
    + destruct (rr_array self1) as [|a arr] eqn:Harr; [done|].
      destruct (item_in_range (a :: arr) (rr_index m) ltac:(done)) as (h & Hitem & _).
      cbv beta iota zeta. cbn [fst snd]. rewrite Hitem. by intros [= <-].
    + by intros [= <-].
  - intros Hne. by rewrite run_macro_body_not_round_robin.
  - intros Ht targets. rewrite run_macro_body_not_round_robin by (by rewrite Ht).
    rewrite Ht. unfold _targets_for. destruct (hwnds self); [done|].
    change (String.eqb "main" "main") with true. cbv iota. cbn [fst snd].
    destruct (main_hwnd self) as [[|h|h]|]; simpl; try done; intros [= <-]; by eexists.
  - intros Ht targets. rewrite run_macro_body_not_round_robin by (by rewrite Ht).
    rewrite Ht. unfold _targets_for, non_main. destruct (hwnds self) as [|h0 l]; [done|].
    cbv beta iota zeta delta [String.eqb Ascii.eqb Bool.eqb]. cbn [fst snd].
    destruct (filter _ (h0 :: l)); [done|]. by intros [= <-].
  - intros Ht targets. rewrite run_macro_body_not_round_robin by (by rewrite Ht).
    rewrite Ht. unfold _targets_for. destruct (hwnds self) as [|h0 l]; [done|].
    cbv beta iota zeta delta [String.eqb Ascii.eqb Bool.eqb]. cbn [fst snd].
    destruct (omap _ (slots m)) as [|t ts] eqn:Hom; [done|]. intros [= <-] h Hin.
    rewrite <- Hom in Hin. apply list_elem_of_omap in Hin as (s & Hs & Hh).
    unfold truthy_handle in Hh.
    destruct (proc_hwnd self !! s) as [[|p|p]|] eqn:Hp; simplify_eq; split; try done;
      by exists s.
  - intros Ht Hne. rewrite run_macro_body_not_round_robin.
    2:{ intros E. apply Ht. rewrite E. by repeat constructor. }
    unfold _targets_for. destruct (hwnds self) as [|h0 l] eqn:Hh; [done|].
    destruct (String.eqb_spec (target m) "main") as [E|_];
      [exfalso; apply Ht; rewrite E; by repeat constructor|].
    destruct (String.eqb (target m) "all"); [done|].
    destruct (String.eqb_spec (target m) "all_except_main") as [E|_];
      [exfalso; apply Ht; rewrite E; by repeat constructor|].
    destruct (String.eqb_spec (target m) "slots") as [E|_];
      [exfalso; apply Ht; rewrite E; by repeat constructor|].
    destruct (String.eqb_spec (target m) "round_robin") as [E|_];
      [exfalso; apply Ht; rewrite E; by repeat constructor|].
    done.
Qed.
(** *** The mouse broadcast *)

Lemma mk_lparam_low (x y : Z) : Z.land (_mk_lparam x y) 0xFFFF = x mod 2 ^ 16.
Proof.
  unfold _mk_lparam. change 0xFFFF with (Z.ones 16).
  rewrite <- (Z.land_ones x 16) by lia.
  apply Z.bits_inj'. intros n Hn.
  rewrite !Z.land_spec, Z.lor_spec, Z.land_spec.
  destruct (Z.lt_ge_cases n 16) as [Hlt|Hge].
  - rewrite Z.shiftl_spec_low by lia. by rewrite orb_false_l, <- andb_assoc, andb_diag.
  - rewrite Z.ones_spec_high by lia. by rewrite !andb_false_r.
Qed.

Lemma mk_lparam_high (x y : Z) : Z.shiftr (_mk_lparam x y) 16 = y.
Proof.
  unfold _mk_lparam. change 0xFFFF with (Z.ones 16).
  apply Z.bits_inj'. intros n Hn.
  rewrite Z.shiftr_spec, Z.lor_spec, Z.land_spec by lia.
  rewrite Z.shiftl_spec by lia. rewrite Z.ones_spec_high by lia.
  rewrite andb_false_r, orb_false_r. f_equal. lia.
Qed.

(** X13. [_mk_lparam] packs two coordinates so that they can be read back:
    the low 16 bits of the result are [x] modulo [2 ^ 16], the rest shifted
    down by 16 is [y], whatever the sign of [y]; so an [x] within 16 bits is
    read back unchanged, and two packings with such [x] are equal only for
    equal coordinates. *)
Theorem mk_lparam_decode (x y : Z) :
  Z.land (_mk_lparam x y) 0xFFFF = x mod 2 ^ 16 ∧
  Z.shiftr (_mk_lparam x y) 16 = y ∧
  (0 ≤ x < 2 ^ 16 → Z.land (_mk_lparam x y) 0xFFFF = x) ∧
  (∀ x' y', 0 ≤ x < 2 ^ 16 → 0 ≤ x' < 2 ^ 16 →
     _mk_lparam x y = _mk_lparam x' y' → x = x' ∧ y = y').
Proof.
  split_and!.
  - apply mk_lparam_low.
  - apply mk_lparam_high.
  - intros Hx. rewrite mk_lparam_low. by apply Z.mod_small.
  - intros x' y' Hx Hx' Heq. split.
    + rewrite <- (Z.mod_small x (2 ^ 16)), <- (Z.mod_small x' (2 ^ 16)) by done.
      by rewrite <- !mk_lparam_low with (y := y), Heq, !mk_lparam_low.
    + by rewrite <- (mk_lparam_high x y), Heq, mk_lparam_high.
Qed.

Lemma clamp_coordinate_range r size c :
  clamp_coordinate r size = Ok c → 1 ≤ size → 0 ≤ c < size.
Proof.
  unfold clamp_coordinate. intros H Hsize.
  destruct (float_mul_int r size) as [f|e]; [|done]. simpl in H.
  destruct (py_int_of_float f) as [i|e]; [|done]. simpl in H.
  injection H as <-. lia.
Qed.

(** X14. A click that [_post_mouse_click] posts to a window whose client
    area is at least one pixel and at most [2 ^ 16] pixels wide lies inside
    that area, whatever the relative position is (negative, above 1, or not
    a number at all, in which case nothing is posted): the coordinates
    packed in the messages are within [0 .. w - 1] and [0 .. h - 1]; the
    button-down message comes first and the button-up message, if the
    first could be posted, carries the same coordinates. *)
Theorem mouse_click_inside (d : Desktop) (hwnd : Z) (rx ry : float) (button : string)
    (x y w h : Z) :
  client_rect d hwnd = Some (x, y, w, h) →
  1 ≤ w ≤ 2 ^ 16 → 1 ≤ h →
  _post_mouse_click d hwnd rx ry button = [] ∨
  ∃ cx cy,
    0 ≤ cx < w ∧ 0 ≤ cy < h ∧
    Z.land (_mk_lparam cx cy) 0xFFFF = cx ∧ Z.shiftr (_mk_lparam cx cy) 16 = cy ∧
    let '(down, mk, up) := button_messages button in
    _post_mouse_click d hwnd rx ry button
    = Post hwnd down mk (_mk_lparam cx cy)
      :: (if PostMessage_ok d hwnd then [Post hwnd up 0 (_mk_lparam cx cy)] else []).
Proof.
  intros Hrect Hw Hh. unfold _post_mouse_click. rewrite Hrect.
  destruct (clamp_coordinate rx w) as [cx|e] eqn:Hcx; [|by left].
  destruct (clamp_coordinate ry h) as [cy|e] eqn:Hcy; [|by left].
  right. exists cx, cy.
  pose proof (clamp_coordinate_range _ _ _ Hcx ltac:(lia)) as Hx.
  pose proof (clamp_coordinate_range _ _ _ Hcy ltac:(lia)) as Hy.
  split_and!; try lia.
  - rewrite mk_lparam_low. apply Z.mod_small. lia.
  - apply mk_lparam_high.
  - destruct (button_messages button) as [[down mk] up].
    by destruct (PostMessage_ok d hwnd).
Qed.

Lemma mouse_click_inside_witness :
  _post_mouse_click Samples.two_clients 11 Samples.half Samples.half "left" = [] ∨
  ∃ cx cy,
    0 ≤ cx < 800 ∧ 0 ≤ cy < 600 ∧
    Z.land (_mk_lparam cx cy) 0xFFFF = cx ∧ Z.shiftr (_mk_lparam cx cy) 16 = cy ∧
    let '(down, mk, up) := button_messages "left" in
    _post_mouse_click Samples.two_clients 11 Samples.half Samples.half "left"
    = Post 11 down mk (_mk_lparam cx cy)
      :: (if PostMessage_ok Samples.two_clients 11
          then [Post 11 up 0 (_mk_lparam cx cy)] else []).
Proof.
  apply (mouse_click_inside Samples.two_clients 11 Samples.half Samples.half "left"
           100 50 800 600); [reflexivity | simpl; lia | lia].
Defined.

Lemma post_mouse_click_target d hwnd rx ry button m :
  m ∈ _post_mouse_click d hwnd rx ry button → ∃ msg wp lp, m = Post hwnd msg wp lp.
Proof.
  unfold _post_mouse_click.
  destruct (client_rect d hwnd) as [[[[x y] w] h]|]; [|by intros []%elem_of_nil].
  destruct (clamp_coordinate rx w) as [cx|e]; [|by intros []%elem_of_nil].
  destruct (clamp_coordinate ry h) as [cy|e]; [|by intros []%elem_of_nil].
  destruct (button_messages button) as [[down mk] up].
  destruct (PostMessage_ok d hwnd); intros Hin;
    repeat (apply elem_of_cons in Hin as [->|Hin]; [by eexists _, _, _|]);
    by apply elem_of_nil in Hin.
Qed.

Lemma on_mouse_broadcast_clicks d hwnds enabled hold ev posted :
  on_mouse_broadcast d hwnds enabled hold ev = Clicks posted → posted ≠ [] →
  enabled = true ∧ is_button_event ev = true ∧ event_type ev = "up" ∧
  button ev ∈ ["left"; "right"; "middle"] ∧
  GetForegroundWindow d ∈ hwnds ∧
  hold ≠ "" ∧ is_pressed d hold = Some true ∧
  ∃ rx ry,
    posted = (λ hwnd, _post_mouse_click d hwnd rx ry (button ev))
             <$> filter (λ h, h ≠ GetForegroundWindow d) hwnds.
Proof.
  unfold on_mouse_broadcast. intros H Hne.
  destruct enabled; simpl in H; [|by injection H as <-].
  destruct (is_button_event ev); simpl in H; [|by injection H as <-].
  destruct (String.eqb_spec (event_type ev) "up") as [Hup|]; simpl in H;
    [|by injection H as <-].
  destruct (bool_decide_reflect (button ev ∈ ["left"; "right"; "middle"])) as [Hbtn|];
    simpl in H; [|by injection H as <-].
  destruct hwnds as [|h0 l]; [by injection H as <-|].
  destruct (bool_decide_reflect (GetForegroundWindow d ∈ h0 :: l)) as [Hfg|];
    simpl in H; [|by injection H as <-].
  destruct (client_rect d (GetForegroundWindow d)) as [[[[mx my] mw] mh]|]; [|done].
  destruct (int_truediv _ _) as [rx|]; [|done].
  destruct (int_truediv _ _) as [ry|]; [|done].
  destruct (negb _); [by injection H as <-|].
  destruct (String.eqb_spec hold "") as [|Hhold]; [by injection H as <-|].
  destruct (is_pressed d hold) as [[]|] eqn:Hp; [| by injection H as <- | done].
  destruct (filter _ (h0 :: l)) as [|t ts] eqn:Hf; [by injection H as <-|].
  injection H as <-. split_and!; try done. by exists rx, ry.
Qed.

(** X15. When the mouse hook posts clicks at all, then mouse broadcast is
    enabled, the event is the release of the left, right or middle button,
    the foreground window is a registered client, a hold key is configured
    and pressed, there is one posting thread per registered window other
    than the foreground window, and every message goes to such a window:
    the window the user clicked in never gets the click a second time. *)
Theorem on_mouse_clicks (d : Desktop) (hwnds : list Z)
    (_mouse_hotkeys : list (string * list string))
    (mouse_broadcast_enabled : bool) (mouse_hold : string) (ev : mouse_event)
    (posted : list (list message)) :
  on_mouse d hwnds _mouse_hotkeys mouse_broadcast_enabled mouse_hold ev = Clicks posted →
  posted ≠ [] →
  mouse_broadcast_enabled = true ∧
  is_button_event ev = true ∧ event_type ev = "up" ∧
  button ev ∈ ["left"; "right"; "middle"] ∧
  GetForegroundWindow d ∈ hwnds ∧
  mouse_hold ≠ "" ∧ is_pressed d mouse_hold = Some true ∧
  length posted = length (filter (λ h, h ≠ GetForegroundWindow d) hwnds) ∧
  ∀ thread m, thread ∈ posted → m ∈ thread →
    ∃ h msg wp lp, m = Post h msg wp lp ∧ h ∈ hwnds ∧ h ≠ GetForegroundWindow d.
Proof.
  intros H Hne.
  assert (Hb : on_mouse_broadcast d hwnds mouse_broadcast_enabled mouse_hold ev
               = Clicks posted).
  { unfold on_mouse in H.
    destruct (is_button_event ev && String.eqb (event_type ev) "down"); [|done].
    destruct (mods_now d) as [pressed|]; [|done].
    by destruct (find_mouse_hotkey _ _ _ _). }
  destruct (on_mouse_broadcast_clicks _ _ _ _ _ _ Hb Hne)
    as (? & ? & ? & ? & ? & ? & ? & rx & ry & ->).
  split_and!; try done.
  - by rewrite length_fmap.
  - intros thread m [h [-> Hin]]%list_elem_of_fmap Hm.
    apply post_mouse_click_target in Hm as (msg & wp & lp & ->).
    apply list_elem_of_filter in Hin as [? ?]. by exists h, msg, wp, lp.
Qed.

Lemma on_mouse_clicks_witness :
  true = true ∧
  is_button_event Samples.left_up = true ∧ event_type Samples.left_up = "up" ∧
  button Samples.left_up ∈ ["left"; "right"; "middle"] ∧
  GetForegroundWindow Samples.two_clients ∈ [10; 11] ∧
  "ctrl" ≠ "" ∧ is_pressed Samples.two_clients "ctrl" = Some true ∧
  length [_post_mouse_click Samples.two_clients 11 Samples.half Samples.half "left"]
  = length (filter (λ h, h ≠ GetForegroundWindow Samples.two_clients) [10; 11]) ∧
  ∀ thread m,
    thread ∈ [_post_mouse_click Samples.two_clients 11 Samples.half Samples.half "left"] →
    m ∈ thread →
    ∃ h msg wp lp, m = Post h msg wp lp ∧ h ∈ [10; 11] ∧
                   h ≠ GetForegroundWindow Samples.two_clients.
Proof.
  apply (on_mouse_clicks Samples.two_clients [10; 11] [] true "ctrl" Samples.left_up
           [_post_mouse_click Samples.two_clients 11 Samples.half Samples.half "left"]).
  - vm_compute. reflexivity.
  - discriminate.
Defined.
(** *** The window registry *)

Lemma remove_first_elem x y l : y ∈ remove_first x l → y ∈ l.
Proof.
  induction l as [|z l IH]; simpl; [done|].
  destruct (z =? x); [by right|].
  intros [->|?]%elem_of_cons; [by left | right; by apply IH].
Qed.

Lemma remove_first_other x y l : y ∈ l → y ≠ x → y ∈ remove_first x l.
Proof.
  induction l as [|z l IH]; simpl; [done|].
  intros [->|Hin]%elem_of_cons Hne.
  - destruct (Z.eqb_spec z x); [done | by left].
  - destruct (z =? x); [done|]. right. by apply IH.
Qed.

Lemma remove_first_NoDup x l : NoDup l → NoDup (remove_first x l) ∧ x ∉ remove_first x l.
Proof.
  induction 1 as [|z l Hz Hl [IH1 IH2]]; simpl.
  - split; [constructor | by intros ?%elem_of_nil].
  - destruct (Z.eqb_spec z x) as [->|Hne]; [done|]. split.
    + constructor; [|done]. by intros ?%remove_first_elem.
    + intros [->|?]%elem_of_cons; done.
Qed.

Lemma remove_first_head x l : remove_first x (x :: l) = l.
Proof. simpl. by rewrite Z.eqb_refl. Qed.

Lemma managed_windows_spec is_window proc_hwnd slots :
  NoDup (managed_windows is_window proc_hwnd slots) ∧
  ∀ h, h ∈ managed_windows is_window proc_hwnd slots ↔
       h ≠ 0 ∧ is_window h = true ∧ ∃ s, s ∈ slots ∧ proc_hwnd !! s = Some h.
Proof.
  unfold managed_windows.
  induction slots as [|s slots [IH1 IH2]] using rev_ind.
  { split; [constructor|]. intros h. split; [by intros ?%elem_of_nil|].
    by intros (_ & _ & ? & ?%elem_of_nil & _). }
  rewrite foldl_app. simpl. set (acc := foldl _ [] slots) in *.
  assert (Hold : ∀ h, (h ≠ 0 ∧ is_window h = true ∧ ∃ s0, s0 ∈ slots ∧ proc_hwnd !! s0 = Some h)
                      → h ≠ 0 ∧ is_window h = true ∧
                        ∃ s0, s0 ∈ slots ++ [s] ∧ proc_hwnd !! s0 = Some h).
  { intros h (? & ? & s0 & ? & ?). split_and!; [done..|]. exists s0.
    split; [apply elem_of_app; by left | done]. }
  assert (Hnew : ∀ h, (h ≠ 0 ∧ is_window h = true ∧
                       ∃ s0, s0 ∈ slots ++ [s] ∧ proc_hwnd !! s0 = Some h)
                      → h ∈ acc ∨ (proc_hwnd !! s = Some h ∧ h ≠ 0 ∧ is_window h = true)).
  { intros h (? & ? & s0 & [?|Hs0]%elem_of_app & ?).
    - left. apply IH2. split_and!; [done..|]. by exists s0.
    - apply list_elem_of_singleton in Hs0 as ->. by right. }
  destruct (proc_hwnd !! s) as [hwnd|] eqn:Hs.
  2:{ split; [done|]. intros h. split; [intros ?%IH2; by apply Hold|].
      intros [?|[? _]]%Hnew; done. }
  destruct (Z.eqb_spec hwnd 0) as [->|Hne]; simpl.
  { split; [done|]. intros h. split; [intros ?%IH2; by apply Hold|].
    intros [?|(? & ? & _)]%Hnew; [done | congruence]. }
  destruct (is_window hwnd) eqn:Hw; simpl.
  2:{ split; [done|]. intros h. split; [intros ?%IH2; by apply Hold|].
      intros [?|(? & ? & ?)]%Hnew; [done | congruence]. }
  destruct (bool_decide_reflect (hwnd ∈ acc)) as [Hin|Hnin]; simpl.
  { split; [done|]. intros h. split; [intros ?%IH2; by apply Hold|].
    intros [?|(? & ? & ?)]%Hnew; [done | congruence]. }
  split.
  - apply NoDup_app. split_and!; [done | | apply NoDup_singleton].
    intros h Hh ->%list_elem_of_singleton. done.
  - intros h. rewrite elem_of_app, list_elem_of_singleton. split.
    + intros [?%IH2| ->]; [by apply Hold|]. split_and!; [done..|].
      exists s. split; [apply elem_of_app; right; by apply list_elem_of_singleton | done].
    + intros [?|(? & ? & ?)]%Hnew; [by left | right; congruence].
Qed.

Lemma found_windows_spec env self :
  (NoDup (enumerated env) → NoDup (found_windows env self)) ∧
  ∀ h, h ∈ found_windows env self ↔
       h ∈ enumerated env ∨
       ∃ slots, running_set env = Some slots ∧
                h ≠ 0 ∧ IsWindow env h = true ∧
                ∃ s, s ∈ slots ∧ proc_hwnd self !! s = Some h.
Proof.
  unfold found_windows.
  set (managed := match running_set env with
                  | Some slots => managed_windows (IsWindow env) (proc_hwnd self) slots
                  | None => []
                  end).
  assert (Hm : NoDup managed ∧
    ∀ h, h ∈ managed ↔ ∃ slots, running_set env = Some slots ∧
                          h ≠ 0 ∧ IsWindow env h = true ∧
                          ∃ s, s ∈ slots ∧ proc_hwnd self !! s = Some h).
  { unfold managed. destruct (running_set env) as [slots|].
    - destruct (managed_windows_spec (IsWindow env) (proc_hwnd self) slots) as [H1 H2].
      split; [done|]. intros h. rewrite H2. split.
      + intros ?. by exists slots.
      + by intros (? & [= <-] & ?).
    - split; [constructor|]. intros h. split; [by intros ?%elem_of_nil|].
      by intros (? & ? & _). }
  destruct Hm as [Hm1 Hm2]. split.
  - intros He. apply NoDup_app. split_and!; [done | | by apply NoDup_filter].
    intros h Hh [Hn _]%list_elem_of_filter. done.
  - intros h. rewrite elem_of_app, list_elem_of_filter, <- Hm2.
    destruct (decide (h ∈ managed)) as [Hin|Hnin].
    + split; [by right | by left].
    + split.
      * intros [?|[? ?]]; [done | by left].
      * intros [?|?]; [by right | done].
Qed.

Lemma found_windows_proc env self self' :
  proc_hwnd self' = proc_hwnd self → found_windows env self' = found_windows env self.
Proof. unfold found_windows. by intros ->. Qed.

Lemma refresh_clients_main_head env self :
  main_hwnd (refresh_clients env self) = head (hwnds (refresh_clients env self)).
Proof.
  unfold refresh_clients. simpl.
  destruct (main_hwnd self) as [m|].
  - destruct (bool_decide_reflect (m ∈ found_windows env self)) as [Hin|Hnin].
    + simpl. rewrite bool_decide_true; [done | by left].
    + destruct (found_windows env self) as [|first l] eqn:Hf; [done|].
      simpl. by rewrite bool_decide_false.
  - by destruct (found_windows env self).
Qed.

Lemma refresh_clients_elem env self h :
  h ∈ hwnds (refresh_clients env self) ↔ h ∈ found_windows env self.
Proof.
  unfold refresh_clients. simpl.
  destruct (main_hwnd self) as [m|]; [|done].
  destruct (bool_decide_reflect (m ∈ found_windows env self)) as [Hin|Hnin]; [|done].
  rewrite elem_of_cons. split.
  - intros [->|?%remove_first_elem]; done.
  - intros Hh. destruct (decide (h = m)) as [->|Hne]; [by left|].
    right. by apply remove_first_other.
Qed.

Lemma refresh_clients_keeps_main env self m :
  main_hwnd self = Some m → m ∈ found_windows env self →
  refresh_clients env self
  = set_windows self (m :: remove_first m (found_windows env self)) (Some m).
Proof.
  intros Hm Hin. unfold refresh_clients. rewrite Hm.
  rewrite bool_decide_true by done. simpl.
  rewrite bool_decide_true; [done | by left].
Qed.

Lemma refresh_clients_new_main env self :
  (∀ m, main_hwnd self = Some m → m ∉ found_windows env self) →
  refresh_clients env self
  = set_windows self (found_windows env self) (head (found_windows env self)).
Proof.
  intros Hm. unfold refresh_clients.
  destruct (main_hwnd self) as [m|].
  - specialize (Hm m eq_refl). rewrite bool_decide_false by done.
    destruct (found_windows env self) as [|first l] eqn:Hf; [done|].
    by rewrite bool_decide_false.
  - by destruct (found_windows env self).
Qed.

Lemma found_windows_set env self l main :
  found_windows env (set_windows self l main) = found_windows env self.
Proof. by apply found_windows_proc. Qed.

Lemma refresh_clients_fixed env self first l :
  found_windows env self = first :: l →
  refresh_clients env (set_windows self (first :: l) (Some first))
  = set_windows self (first :: l) (Some first).
Proof.
  intros Hf.
  rewrite (refresh_clients_keeps_main env (set_windows self (first :: l) (Some first))
             first eq_refl)
    by (rewrite found_windows_set, Hf; by left).
  rewrite found_windows_set, Hf. by rewrite remove_first_head.
Qed.

Lemma refresh_clients_idem env self :
  refresh_clients env (refresh_clients env self) = refresh_clients env self.
Proof.
  assert (Hnew : (∀ m, main_hwnd self = Some m → m ∉ found_windows env self) →
    refresh_clients env (refresh_clients env self) = refresh_clients env self).
  { intros Hm. rewrite (refresh_clients_new_main env self Hm).
    destruct (found_windows env self) as [|first l] eqn:Hf.
    - rewrite refresh_clients_new_main by done. by rewrite found_windows_set, Hf.
    - by apply refresh_clients_fixed. }
  destruct (main_hwnd self) as [m|] eqn:Hm; [|apply Hnew; intros ? ?; congruence].
  destruct (decide (m ∈ found_windows env self)) as [Hin|Hnin];
    [|apply Hnew; intros ? ?; congruence].
  rewrite (refresh_clients_keeps_main env self m Hm Hin).
  rewrite (refresh_clients_keeps_main env
             (set_windows self (m :: remove_first m (found_windows env self)) (Some m))
             m eq_refl)
    by (by rewrite found_windows_set).
  by rewrite found_windows_set.
Qed.

(** X16. After [refresh_clients], whatever the registry held before: the
    main window is the first registered window, and there is none exactly
    when no window is registered; the registered windows are the windows
    found by title together with the non-null live windows of the slots of
    the running set; no window is registered twice when the enumeration
    lists none twice; a main window that is still registered stays the main
    window; a second refresh in the same environment changes nothing; and
    the slot windows, the round-robin state and the macros are untouched. *)
Theorem refresh_clients_registry (env : Environment) (self : Controller) :
  main_hwnd (refresh_clients env self) = head (hwnds (refresh_clients env self)) ∧
  (∀ h, h ∈ hwnds (refresh_clients env self) ↔
        h ∈ enumerated env ∨
        ∃ slots, running_set env = Some slots ∧
                 h ≠ 0 ∧ IsWindow env h = true ∧
                 ∃ s, s ∈ slots ∧ proc_hwnd self !! s = Some h) ∧
  (NoDup (enumerated env) → NoDup (hwnds (refresh_clients env self))) ∧
  (∀ main, main_hwnd self = Some main → main ∈ hwnds (refresh_clients env self) →
     main_hwnd (refresh_clients env self) = Some main) ∧
  refresh_clients env (refresh_clients env self) = refresh_clients env self ∧
  proc_hwnd (refresh_clients env self) = proc_hwnd self ∧
  _rr_state (refresh_clients env self) = _rr_state self ∧
  macros (refresh_clients env self) = macros self.
Proof.
  destruct (found_windows_spec env self) as [Hnodup Hfound].
  split_and!; try done.
  - apply refresh_clients_main_head.
  - intros h. by rewrite refresh_clients_elem.
  - intros He. specialize (Hnodup He). unfold refresh_clients. simpl.
    destruct (main_hwnd self) as [m|]; [|done].
    destruct (bool_decide_reflect (m ∈ found_windows env self)); [|done].
    destruct (remove_first_NoDup m _ Hnodup). by constructor.
  - intros m Hm Hin%refresh_clients_elem.
    by rewrite (refresh_clients_keeps_main env self m Hm Hin).
  - apply refresh_clients_idem.
Qed.

Lemma remove_first_Permutation x l : x ∈ l → x :: remove_first x l ≡ₚ l.
Proof.
  induction l as [|y l IH]; [by intros ?%elem_of_nil|]. simpl.
  destruct (Z.eqb_spec y x) as [->|Hne]; [done|].
  intros [->|Hin]%elem_of_cons; [done|].
  rewrite Permutation_swap. by rewrite IH.
Qed.

(** X17. [make_main]: for a window that is not registered it does nothing at
    all; when the layout step raises, the window has been moved to the
    front of the registry and made the main window, the registry is
    otherwise a permutation of what it was, and the refresh does not
    happen; when the layout step returns, the registry is refreshed, the
    main window is again the first registered window, and it is the
    requested window whenever that window is still found. *)
Theorem make_main_registry (env : Environment) (apply_layout_ok : bool)
    (self : Controller) (hwnd : Z) :
  (hwnd ∉ hwnds self → make_main env apply_layout_ok self hwnd = (self, true)) ∧
  (hwnd ∈ hwnds self → apply_layout_ok = false →
   (make_main env apply_layout_ok self hwnd).2 = false ∧
   main_hwnd (make_main env apply_layout_ok self hwnd).1 = Some hwnd ∧
   head (hwnds (make_main env apply_layout_ok self hwnd).1) = Some hwnd ∧
   hwnds (make_main env apply_layout_ok self hwnd).1 ≡ₚ hwnds self) ∧
  (hwnd ∈ hwnds self → apply_layout_ok = true →
   (make_main env apply_layout_ok self hwnd).2 = true ∧
   (∀ h, h ∈ hwnds (make_main env apply_layout_ok self hwnd).1 ↔
         h ∈ found_windows env self) ∧
   main_hwnd (make_main env apply_layout_ok self hwnd).1
   = head (hwnds (make_main env apply_layout_ok self hwnd).1) ∧
   (hwnd ∈ found_windows env self →
    main_hwnd (make_main env apply_layout_ok self hwnd).1 = Some hwnd)).
Proof.
  unfold make_main. split_and!.
  - intros Hnin. by rewrite bool_decide_false.
  - intros Hin ->. rewrite bool_decide_true by done. simpl.
    split_and!; try done. by apply remove_first_Permutation.
  - intros Hin ->. rewrite bool_decide_true by done. cbn [negb fst snd].
    split_and!; [done | | apply refresh_clients_main_head |].
    + intros h. by rewrite refresh_clients_elem, found_windows_set.
    + intros Hf.
      rewrite (refresh_clients_keeps_main env
                 (set_windows self (hwnd :: remove_first hwnd (hwnds self)) (Some hwnd))
                 hwnd eq_refl); [done|].
      by rewrite found_windows_set.
Qed.

Lemma refresh_fixed_shape env self :
  refresh_clients env self = self →
  hwnds self = match main_hwnd self with
               | Some m => m :: remove_first m (found_windows env self)
               | None => []
               end ∧
  (∀ m, main_hwnd self = Some m → m ∈ found_windows env self) ∧
  (main_hwnd self = None → found_windows env self = []).
Proof.
  intros Hfix.
  destruct (main_hwnd self) as [m|] eqn:Hm.
  - destruct (decide (m ∈ found_windows env self)) as [Hin|Hnin].
    + rewrite (refresh_clients_keeps_main env self m Hm Hin) in Hfix.
      split_and!; [by rewrite <- Hfix | by intros ? [= <-] | done].
    + rewrite refresh_clients_new_main in Hfix by (intros ? ?; congruence).
      assert (Hmain : head (found_windows env self) = Some m).
      { rewrite <- Hm. by rewrite <- Hfix at 2. }
      destruct (found_windows env self) as [|first l]; [done|].
      injection Hmain as ->. exfalso. apply Hnin. by left.
  - rewrite refresh_clients_new_main in Hfix by (intros ? ?; congruence).
    assert (Hmain : head (found_windows env self) = None).
    { rewrite <- Hm. by rewrite <- Hfix at 2. }
    destruct (found_windows env self) as [|first l] eqn:Hf; [|done].
    split_and!; [by rewrite <- Hfix | done | done].
Qed.

(** X18. [cycle_main] does not cycle through all windows.  On a registry
    that is up to date, in an environment that finds the windows
    [b0, b1, ...] in this order, it makes [b1] the main window when [b0] was
    it and [b0] otherwise; the registry is up to date again afterwards, so
    repeated use alternates between the first two windows found and never
    makes a later window the main one. *)
Theorem cycle_main_alternates (env : Environment) (self : Controller) (b0 b1 : Z)
    (rest : list Z) :
  refresh_clients env self = self →
  found_windows env self = b0 :: b1 :: rest →
  (cycle_main env true self).2 = true ∧
  main_hwnd (cycle_main env true self).1
  = Some (if bool_decide (main_hwnd self = Some b0) then b1 else b0) ∧
  refresh_clients env (cycle_main env true self).1 = (cycle_main env true self).1 ∧
  found_windows env (cycle_main env true self).1 = b0 :: b1 :: rest.
Proof.
  intros Hfix Hf.
  destruct (refresh_fixed_shape env self Hfix) as (Hh & Hmain & Hnone).
  destruct (main_hwnd self) as [m|] eqn:Hm; [|by rewrite Hnone in Hf].
  specialize (Hmain m eq_refl). rewrite Hf in Hh, Hmain.
  assert (Hsecond : ∃ tl, hwnds self = m :: (if bool_decide (m = b0) then b1 else b0) :: tl).
  { rewrite Hh. simpl. destruct (Z.eqb_spec b0 m) as [->|Hne].
    - rewrite bool_decide_true by done. by eexists.
    - rewrite bool_decide_false by done. by eexists. }
  destruct Hsecond as [tl Htl].
  set (second := if bool_decide (m = b0) then b1 else b0) in *.
  assert (Hsec_found : second ∈ found_windows env self).
  { rewrite Hf. unfold second. case_bool_decide; [right; by left | by left]. }
  assert (Hgoal : bool_decide (Some m = Some b0) = bool_decide (m = b0)).
  { apply bool_decide_ext. split; [by intros [= ->] | by intros ->]. }
  rewrite Hgoal. fold second.
  unfold cycle_main, make_main. rewrite Htl.
  rewrite bool_decide_true by (right; by left). cbn [negb fst snd].
  set (self1 := set_windows self _ (Some second)).
  assert (Hr : refresh_clients env self1
               = set_windows self (second :: remove_first second (found_windows env self))
                   (Some second)).
  { rewrite (refresh_clients_keeps_main env self1 second eq_refl)
      by (by unfold self1; rewrite found_windows_set).
    unfold self1. by rewrite found_windows_set. }
  rewrite Hr. split_and!; [done | done | |].
  - rewrite (refresh_clients_keeps_main env
               (set_windows self (second :: remove_first second (found_windows env self))
                  (Some second))
               second eq_refl)
      by (by rewrite found_windows_set).
    by rewrite found_windows_set.
  - by rewrite found_windows_set.
Qed.

Lemma cycle_main_alternates_witness :
  (cycle_main Samples.three_windows_env true Samples.three_windows).2 = true ∧
  main_hwnd (cycle_main Samples.three_windows_env true Samples.three_windows).1
  = Some (if bool_decide (main_hwnd Samples.three_windows = Some 10) then 11 else 10) ∧
  refresh_clients Samples.three_windows_env
    (cycle_main Samples.three_windows_env true Samples.three_windows).1
  = (cycle_main Samples.three_windows_env true Samples.three_windows).1 ∧
  found_windows Samples.three_windows_env
    (cycle_main Samples.three_windows_env true Samples.three_windows).1
  = [10; 11; 12].
Proof.
  apply (cycle_main_alternates Samples.three_windows_env Samples.three_windows 10 11 [12]);
    reflexivity.
Defined.
(** *** The keyboard broadcast *)

Lemma broadcast_key_event_targets key targets event_type h msg vk_code :
  PostMessage h msg vk_code ∈ _broadcast_key_event key targets event_type → h ∈ targets.
Proof.
  unfold _broadcast_key_event. intros (hwnd & Hin & Hh)%list_elem_of_bind.
  rewrite post_key_event_cases in Hin. revert Hin.
  generalize (VK_CODE_MAP !! lower key). intros [vk|] Hin.
  - apply list_elem_of_singleton in Hin. by injection Hin as -> _ _.
  - by apply elem_of_nil in Hin.
Qed.

Lemma on_key_events_targets settings hwnds keys_down env e h msg vk_code :
  PostMessage h msg vk_code ∈ (on_key settings hwnds keys_down env e).1 →
  h ∈ filter (λ h, h ≠ fg_hwnd env) hwnds.
Proof.
  unfold on_key.
  destruct (negb (_is_client_fg settings hwnds env)); [by intros ?%elem_of_nil|].
  destruct (_ && _); [by intros ?%elem_of_nil|]. cbn [fst].
  set (targets := filter _ hwnds). set (nm := lower _).
  assert (Hb : ∀ key ty, PostMessage h msg vk_code ∈ _broadcast_key_event key targets ty
                         → h ∈ targets).
  { intros key ty. apply broadcast_key_event_targets. }
  destruct (broadcast_all_keys settings).
  { destruct (negb _); [apply Hb | by intros ?%elem_of_nil]. }
  destruct (negb (broadcast_enabled settings)); [by intros ?%elem_of_nil|].
  destruct (bool_decide (nm ∈ MODIFIER_KEYS)); [by intros ?%elem_of_nil|].
  destruct (reserved_pressed _ _); [by intros ?%elem_of_nil|].
  destruct (bool_decide (nm ∈ _)); [|by intros ?%elem_of_nil].
  destruct targets as [|t ts] eqn:Ht; [by intros ?%elem_of_nil|]. rewrite <- Ht in *.
  destruct (auto_assist_enabled settings); cbn [andb negb].
  - destruct (String.eqb _ "down"); [|by intros ?%elem_of_nil].
    rewrite !elem_of_app. intros [Hin|[Hin|[Hin|Hin]]].
    + apply list_elem_of_bind in Hin as (prefix_key & Hin & _).
      rewrite !elem_of_app in Hin. destruct Hin as [Hin|[Hin|[Hin|Hin]]].
      * exact (Hb _ _ Hin).
      * apply list_elem_of_singleton in Hin. discriminate Hin.
      * exact (Hb _ _ Hin).
      * apply list_elem_of_singleton in Hin. discriminate Hin.
    + exact (Hb _ _ Hin).
    + apply list_elem_of_singleton in Hin. discriminate Hin.
    + exact (Hb _ _ Hin).
  - apply Hb.
Qed.

(** X19. What the keyboard hook never does.  Every key message it posts
    goes to a registered window other than the foreground window; a
    modifier key is never broadcast, in no mode; nothing is posted and the
    set of held keys is untouched when broadcasting is tied to the focus
    and no client is in front, and when a key that is marked as held goes
    down again (the auto-repeat of a held key); and in whitelist mode
    nothing is posted when broadcasting is off, the key is not on the
    whitelist, a reserved hotkey is pressed, or auto-assist is on and the
    event is not a key press. *)
Theorem on_key_never_broadcasts (settings : BroadcastSettings) (hwnds : list Z)
    (_broadcast_keys_down : gset string) (env : key_env) (e : key_event) :
  (∀ h msg vk_code,
     PostMessage h msg vk_code ∈ (on_key settings hwnds _broadcast_keys_down env e).1 →
     h ∈ hwnds ∧ h ≠ fg_hwnd env) ∧
  (lower (default "" (key_name e)) ∈ MODIFIER_KEYS →
   (on_key settings hwnds _broadcast_keys_down env e).1 = []) ∧
  (broadcast_only_when_client_focused settings = true → fg_at_check env ∉ hwnds →
   on_key settings hwnds _broadcast_keys_down env e = ([], _broadcast_keys_down)) ∧
  (lower (default "" (key_name e)) ∈ _broadcast_keys_down → key_event_type e = "down" →
   on_key settings hwnds _broadcast_keys_down env e = ([], _broadcast_keys_down)) ∧
  (broadcast_all_keys settings = false →
   broadcast_enabled settings = false
   ∨ lower (default "" (key_name e)) ∉ lower <$> whitelist settings
   ∨ reserved_pressed (key_is_pressed env) (reserved_hotkeys settings) = true
   ∨ (auto_assist_enabled settings = true ∧ key_event_type e ≠ "down") →
   (on_key settings hwnds _broadcast_keys_down env e).1 = []).
Proof.
  split_and!.
  - intros h msg vk_code Hin%on_key_events_targets.
    by apply list_elem_of_filter in Hin as [? ?].
  - intros Hmod. unfold on_key.
    destruct (negb (_is_client_fg settings hwnds env)); [done|].
    destruct (_ && _); [done|]. cbn [fst].
    rewrite (bool_decide_true _ Hmod). cbn [negb andb orb fst snd].
    destruct (broadcast_all_keys settings); [done|]. by destruct (negb (broadcast_enabled settings)).
  - intros Hf Hfg. unfold on_key, _is_client_fg. rewrite Hf. cbn [negb andb orb fst snd].
    by rewrite bool_decide_false.
  - intros Hin Hdown. unfold on_key.
    destruct (negb (_is_client_fg settings hwnds env)); [done|].
    rewrite (bool_decide_true _ Hin), Hdown. done.
  - intros Hall H. unfold on_key.
    destruct (negb (_is_client_fg settings hwnds env)); [done|].
    destruct (_ && _); [done|]. cbn [fst]. rewrite Hall.
    destruct (broadcast_enabled settings) eqn:Hen; [|done]. cbn [negb andb orb fst snd].
    destruct (bool_decide (_ ∈ MODIFIER_KEYS)); [done|].
    destruct (reserved_pressed _ _) eqn:Hres; [done|].
    destruct (bool_decide_reflect
                (lower (default "" (key_name e)) ∈ lower <$> whitelist settings)) as [Hwl|Hwl];
      [|done].
    destruct H as [?|[?|[?|[Haa Hty]]]]; [done..|].
    destruct (filter _ hwnds); [done|]. rewrite Haa. cbn [negb andb orb fst snd].
    by destruct (String.eqb_spec (key_event_type e) "down").
Qed.

Lemma on_key_keeps_held settings hwnds keys_down env e k :
  k ∈ keys_down →
  (lower (default "" (key_name e)) = k → key_event_type e = "up" →
   _is_client_fg settings hwnds env = false) →
  k ∈ (on_key settings hwnds keys_down env e).2.
Proof.
  intros Hk Hup. unfold on_key.
  destruct (_is_client_fg settings hwnds env) eqn:Hfg; cbn [negb]; [|done].
  destruct (_ && _); [done|]. cbn [snd].
  destruct (String.eqb_spec (key_event_type e) "down") as [Hd|Hd]; [set_solver|].
  destruct (String.eqb_spec (key_event_type e) "up") as [Hu|Hu]; [|done].
  apply elem_of_difference. split; [done|]. intros ->%elem_of_singleton.
  by specialize (Hup eq_refl Hu).
Qed.

Lemma on_key_down_held settings hwnds keys_down env e :
  lower (default "" (key_name e)) ∈ keys_down → key_event_type e = "down" →
  on_key settings hwnds keys_down env e = ([], keys_down).
Proof.
  intros Hin Hdown. unfold on_key.
  destruct (negb (_is_client_fg settings hwnds env)); [done|].
  by rewrite (bool_decide_true _ Hin), Hdown.
Qed.

Lemma held_key_is_silent (settings : BroadcastSettings) (hwnds : list Z)
    (_broadcast_keys_down : gset string) (calls : list (key_env * key_event))
    (k : string) :
  k ∈ _broadcast_keys_down →
  Forall (λ call : key_env * key_event,
            lower (default "" (key_name call.2)) = k → key_event_type call.2 = "up" →
            _is_client_fg settings hwnds call.1 = false) calls →
  k ∈ (on_keys settings hwnds _broadcast_keys_down calls).2 ∧
  ∀ i env e,
    calls !! i = Some (env, e) →
    lower (default "" (key_name e)) = k → key_event_type e = "down" →
    (on_keys settings hwnds _broadcast_keys_down calls).1 !! i = Some [].
Proof.
  intros Hk Hcalls. revert _broadcast_keys_down Hk.
  induction Hcalls as [|[env0 e0] calls Hc _ IH]; intros keys_down Hk; [done|].
  simpl in Hc. cbn [on_keys].
  pose proof (on_key_keeps_held settings hwnds keys_down env0 e0 k Hk Hc) as Hk1.
  destruct (on_key settings hwnds keys_down env0 e0) as [events keys_down1] eqn:Hstep.
  cbn [snd] in Hk1. destruct (IH keys_down1 Hk1) as [IH1 IH2].
  destruct (on_keys settings hwnds keys_down1 calls) as [more keys_down2]. cbn [fst snd] in *.
  split; [done|]. intros [|i] env e Hi Hname Hdown.
  - injection Hi as -> ->. rewrite on_key_down_held in Hstep by (by rewrite ?Hname).
    by injection Hstep as <- _.
  - by eapply IH2.
Qed.

(** X20. A release that the hook does not see blocks the key.  After a
    press of a key that passed the focus test, as long as every release of
    that key arrives while the focus test fails (the user switched to
    another window while holding the key), every later press of the key is
    dropped: nothing is broadcast for it, in whatever mode. *)
Theorem missed_release_blocks_key (settings : BroadcastSettings) (hwnds : list Z)
    (_broadcast_keys_down : gset string) (env1 : key_env) (e1 : key_event)
    (rest : list (key_env * key_event)) (k : string) :
  _is_client_fg settings hwnds env1 = true →
  key_event_type e1 = "down" →
  lower (default "" (key_name e1)) = k →
  Forall (λ call : key_env * key_event,
            lower (default "" (key_name call.2)) = k → key_event_type call.2 = "up" →
            _is_client_fg settings hwnds call.1 = false) rest →
  ∀ i env e,
    rest !! i = Some (env, e) →
    lower (default "" (key_name e)) = k → key_event_type e = "down" →
    (on_keys settings hwnds _broadcast_keys_down ((env1, e1) :: rest)).1 !! S i = Some [].
Proof.
  intros Hfg Hdown Hname Hrest i env e Hi Hk He. cbn [on_keys].
  assert (Hheld : k ∈ (on_key settings hwnds _broadcast_keys_down env1 e1).2).
  { unfold on_key. rewrite Hfg, Hname, Hdown. cbn [negb].
    destruct (bool_decide_reflect (k ∈ _broadcast_keys_down)) as [Hin|Hnin];
      cbn [andb snd]; [done|].
    change (String.eqb "down" "down") with true. cbv iota. set_solver. }
  destruct (on_key settings hwnds _broadcast_keys_down env1 e1) as [events keys_down1].
  cbn [snd] in Hheld.
  destruct (held_key_is_silent settings hwnds keys_down1 rest k Hheld Hrest) as [_ Hsilent].
  specialize (Hsilent i env e Hi Hk He).
  destruct (on_keys settings hwnds keys_down1 rest) as [more keys_down2]. done.
Qed.

Lemma missed_release_blocks_key_witness :
  (on_keys Samples.all_keys [10; 11] ∅
     [(Samples.client_in_front, Samples.press_1);
      (Samples.other_in_front, Samples.release_1);
      (Samples.client_in_front, Samples.press_1)]).1 !! 2%nat = Some [].
Proof.
  apply (missed_release_blocks_key Samples.all_keys [10; 11] ∅ Samples.client_in_front
           Samples.press_1
           [(Samples.other_in_front, Samples.release_1);
            (Samples.client_in_front, Samples.press_1)] "1" eq_refl eq_refl eq_refl)
    with (i := 1%nat) (env := Samples.client_in_front) (e := Samples.press_1);
    [|reflexivity..].
  apply List.Forall_cons; [intros _ _; reflexivity|].
  apply List.Forall_cons; [intros _ H; discriminate H|].
  apply List.Forall_nil.
Defined.

(** The loop from counter [i] with a positive count [n], not stopped before
    the count is reached. *)
Lemma loop_counts_up (ev : stop_event) (n : Z) (k : nat) :
  ∀ (i fuel : nat),
    Z.of_nat (i + k) = n → (0 < k)%nat → (k ≤ fuel)%nat →
    (∀ j, (i ≤ j < i + k)%nat → is_set ev j = false) →
    (∀ j, (i ≤ j)%nat → (S j < i + k)%nat → wait ev j = false) →
    _loop fuel (Some n) ev i = Some (i + k)%nat.
Proof.
  induction k as [|k IH]; intros i fuel Hn Hk Hfuel Hset Hwait; [lia|].
  destruct fuel as [|fuel]; [lia|]. cbn [_loop loop_count_truthy default from_option id].
  rewrite Hset by lia.
  destruct (decide (k = 0%nat)) as [->|Hk0].
  - replace (negb (n =? 0)) with true by (symmetry; apply negb_true_iff, Z.eqb_neq; lia).
    replace (n <=? Z.of_nat (S i)) with true by (symmetry; apply Z.leb_le; lia).
    cbn [andb]. f_equal. lia.
  - replace (n <=? Z.of_nat (S i)) with false by (symmetry; apply Z.leb_gt; lia).
    rewrite andb_false_r, Hwait by lia.
    rewrite (IH (S i) fuel) by (try lia; intros; first [apply Hset | apply Hwait]; lia).
    f_equal. lia.
Qed.

(** The counter only grows, and a loop with a count never passes it. *)
Lemma loop_bounds (c : option Z) (ev : stop_event) (fuel : nat) :
  ∀ (i r : nat), _loop fuel c ev i = Some r →
    (i ≤ r)%nat ∧
    (loop_count_truthy c = true →
     (r ≤ i)%nat ∨ Z.of_nat r ≤ Z.max (default 0 c) (Z.of_nat i + 1)).
Proof.
  induction fuel as [|fuel IH]; intros i r; [done|]. cbn [_loop].
  destruct (is_set ev i); [intros [= <-]; split; [lia|intros; left; lia]|].
  destruct (loop_count_truthy c) eqn:Hc; cbn [andb].
  - destruct (Z.leb_spec (default 0 c) (Z.of_nat (S i))).
    + intros [= <-]. split; [lia|]. intros _. right. lia.
    + destruct (wait ev i); [intros [= <-]; split; [lia|intros _; right; lia]|].
      intros Hr. apply IH in Hr as [Hle Hb]. split; [lia|]. intros _.
      destruct (Hb eq_refl) as [?|?]; right; lia.
  - destruct (wait ev i); [intros [= <-]; split; [lia|done]|].
    intros Hr. apply IH in Hr as [Hle _]. split; [lia|done].
Qed.

(** Without a count the loop is left only through the stop event. *)
Lemma loop_unbounded (c : option Z) (ev : stop_event) (fuel : nat) :
  loop_count_truthy c = false →
  ∀ (i r : nat), _loop fuel c ev i = Some r →
    (is_set ev r = true ∧ r = i) ∨
    (i < r ∧ (is_set ev r = true ∨ wait ev (pred r) = true) ∧
     ∀ j, (i ≤ j < r)%nat → is_set ev j = false ∧ (S j < r → wait ev j = false))%nat.
Proof.
  intros Hc. induction fuel as [|fuel IH]; intros i r; [done|]. cbn [_loop].
  rewrite Hc. cbn [andb].
  destruct (is_set ev i) eqn:Hset; [intros [= <-]; by left|].
  destruct (wait ev i) eqn:Hwait.
  - intros [= <-]. right. split; [lia|]. split; [by right|].
    intros j Hj. replace j with i by lia. split; [done|lia].
  - intros Hr. apply IH in Hr as [[Hs ->]|(Hlt & Hend & Hbefore)]; right.
    + split; [lia|]. split; [by left|]. intros j Hj. replace j with i by lia.
      split; [done|lia].
    + split; [lia|]. split; [done|]. intros j Hj.
      destruct (decide (j = i)) as [->|Hne]; [done|]. apply Hbefore. lia.
Qed.

Lemma loop_never_stopped (c : option Z) (ev : stop_event) (fuel : nat) :
  loop_count_truthy c = false →
  (∀ j, is_set ev j = false ∧ wait ev j = false) →
  ∀ i, _loop fuel c ev i = None.
Proof.
  intros Hc Hev. induction fuel as [|fuel IH]; intros i; [done|]. cbn [_loop].
  rewrite Hc. destruct (Hev i) as [-> ->]. cbn [andb]. apply IH.
Qed.

(** X21. How often a looping macro is played.  With a positive count [n]
    and no stop before the count is reached, the loop plays the macro
    exactly [n] times and ends; with a negative count it plays it once (or
    not at all when the stop event is already set); with any count other
    than 0 it never plays it more than [max n 1] times, whatever the stop
    event does; without a count ([None] or 0) the loop ends only through
    the stop event, after it was not seen set in any earlier pass, and it
    does not end at all when the stop event is never set. *)
Theorem loop_count_semantics (ev : stop_event) (c : option Z) (fuel : nat) :
  (∀ n, c = Some n → 0 < n → (Z.to_nat n ≤ fuel)%nat →
     (∀ j, (j < Z.to_nat n)%nat → is_set ev j = false) →
     (∀ j, (S j < Z.to_nat n)%nat → wait ev j = false) →
     _loop fuel c ev 0 = Some (Z.to_nat n)) ∧
  (∀ n, c = Some n → n < 0 → (0 < fuel)%nat →
     _loop fuel c ev 0 = Some (if is_set ev 0%nat then 0 else 1)%nat) ∧
  (∀ n r, c = Some n → n ≠ 0 → _loop fuel c ev 0 = Some r →
     Z.of_nat r ≤ Z.max n 1) ∧
  (loop_count_truthy c = false →
     (∀ r, _loop fuel c ev 0 = Some r →
        (is_set ev r = true ∨ (0 < r)%nat ∧ wait ev (pred r) = true) ∧
        ∀ j, (j < r)%nat → is_set ev j = false ∧ (S j < r → wait ev j = false)%nat) ∧
     ((∀ j, is_set ev j = false ∧ wait ev j = false) → _loop fuel c ev 0 = None)).
Proof.
  split; [|split; [|split; [|intros Hc; split]]].
  - intros n -> Hn Hfuel Hset Hwait.
    apply (loop_counts_up ev n (Z.to_nat n) 0 fuel); try lia.
    + intros j Hj. apply Hset. lia.
    + intros j _ Hj. apply Hwait. lia.
  - intros n -> Hn Hfuel. destruct fuel as [|fuel]; [lia|].
    cbn [_loop loop_count_truthy default from_option id].
    destruct (is_set ev 0%nat); [done|].
    replace (negb (n =? 0)) with true by (symmetry; apply negb_true_iff, Z.eqb_neq; lia).
    replace (n <=? Z.of_nat 1) with true by (symmetry; apply Z.leb_le; lia). done.
  - intros n r -> Hn Hr. apply loop_bounds in Hr as [_ Hb].
    destruct Hb as [?|?]; [by apply negb_true_iff, Z.eqb_neq| |];
      cbn [default from_option id] in *; lia.
  - intros r Hr.
    apply loop_unbounded in Hr as [[Hs ->]|(Hlt & Hend & Hbefore)]; [| |done..].
    + split; [by left|]. intros j Hj. lia.
    + split; [destruct Hend as [?|?]; [by left|right; split; [lia|done]]|].
      intros j Hj. apply Hbefore. lia.
  - intros Hev. by apply loop_never_stopped.
Qed.


(** *** The layout engine *)

Section Layout.

Import ClientLayout.

Lemma dict_set_fst {V} (k : Z) (v : V) (d : list (Z * V)) (h : Z) :
  h ∈ (dict_set k v d).*1 ↔ h = k ∨ h ∈ d.*1.
Proof.
  induction d as [|[k0 v0] d IH]; cbn [dict_set fmap list_fmap fst].
  - rewrite list_elem_of_singleton, elem_of_nil. tauto.
  - destruct (Z.eqb_spec k0 k) as [->|Hne]; cbn [fmap list_fmap fst];
      rewrite !elem_of_cons; [tauto|]. fold (fmap (M:=list) (@fst Z V)). rewrite IH. tauto.
Qed.

Lemma dict_set_fresh {V} (k : Z) (v : V) (d : list (Z * V)) :
  k ∉ d.*1 → (dict_set k v d).*1 = d.*1 ++ [k].
Proof.
  induction d as [|[k0 v0] d IH]; cbn [dict_set fmap list_fmap fst]; [done|].
  fold (fmap (M:=list) (@fst Z V)). intros Hk. apply not_elem_of_cons in Hk as [Hne Hk].
  destruct (Z.eqb_spec k0 k) as [->|_]; [done|]. cbn [fmap list_fmap fst].
  fold (fmap (M:=list) (@fst Z V)). by rewrite IH.
Qed.

Lemma dict_set_present {V} (k : Z) (v : V) (d : list (Z * V)) :
  k ∈ d.*1 → (dict_set k v d).*1 = d.*1.
Proof.
  induction d as [|[k0 v0] d IH]; cbn [dict_set fmap list_fmap fst].
  - by intros ?%elem_of_nil.
  - fold (fmap (M:=list) (@fst Z V)). intros Hk.
    destruct (Z.eqb_spec k0 k) as [->|Hne]; cbn [fmap list_fmap fst]; [done|].
    fold (fmap (M:=list) (@fst Z V)). apply elem_of_cons in Hk as [->|Hk]; [done|].
    by rewrite IH.
Qed.

Lemma arith_only_bind {A B} (r : result A) (f : A → result B) :
  arith_only r → (∀ a, arith_only (f a)) → arith_only (r ≫= f).
Proof.
  intros Hr Hf e. destruct r as [a|e']; cbn; [apply Hf|]. intros [= <-]. by apply Hr.
Qed.

Lemma arith_only_ok {A} (a : A) : arith_only (Ok a).
Proof. by intros e. Qed.

Lemma arith_only_float_of_int (z : Z) : arith_only (float_of_int z).
Proof.
  intros e. unfold float_of_int, overflow_check.
  destruct (binary_normalize _ _ _ _ _); intros [= <-] || done; by left.
Qed.

Lemma arith_only_round (f : float) : arith_only (py_round f).
Proof. intros e. destruct f; cbn; intros [= <-] || done; tauto. Qed.

Lemma arith_only_int (f : float) : arith_only (Win32.py_int_of_float f).
Proof. intros e. destruct f; cbn; intros [= <-] || done; tauto. Qed.

Lemma arith_only_truediv (a b : Z) : b ≠ 0 → arith_only (int_truediv a b).
Proof.
  intros Hb e. unfold int_truediv. destruct (Z.eqb_spec b 0); [done|].
  destruct (a =? 0); [done|].
  destruct (SFdiv_core_binary _ _ _ _ _ _) as [[q e'] l]. unfold overflow_check.
  destruct (binary_round_aux _ _ _ _ _ _); intros [= <-] || done; by left.
Qed.

Lemma arith_only_place pad sx sy cell_w cell_h r c hwnd pos :
  arith_only (place pad sx sy cell_w cell_h r c hwnd pos).
Proof.
  unfold place, float_add_int, int_mul_float, int_add_float.
  repeat first
    [ apply arith_only_bind; [|intros ?]
    | apply arith_only_float_of_int | apply arith_only_round | apply arith_only_ok ].
Qed.

Lemma place_keys pad sx sy cell_w cell_h r c hwnd pos pos' :
  place pad sx sy cell_w cell_h r c hwnd pos = Ok pos' →
  ∃ v, pos' = dict_set hwnd v pos.
Proof.
  unfold place, float_add_int, int_mul_float, int_add_float.
  repeat match goal with
         | |- context [mbind _ ?r] => destruct r; cbn [mbind result_bind]; [|done]
         end.
  intros [= <-]. by eexists.
Qed.

Section Loops.

Variables (pad sx sy : Z) (cell_w cell_h : float) (slaves : list Z).
Variable I : list (Z * rect) → nat → Prop.
Hypothesis I_step : ∀ pos idx h v,
  I pos idx → slaves !! idx = Some h → I (dict_set h v pos) (S idx).

Lemma row_loop_inv (r : Z) (cs : list Z) :
  ∀ pos idx st, row_loop pad sx sy cell_w cell_h slaves r cs (pos, idx) = Return st →
    I pos idx →
    I st.1 st.2 ∧ st.2 = (idx + (length cs `min` (length slaves - idx)))%nat.
Proof.
  induction cs as [|c cs IH]; intros pos idx st; cbn [row_loop].
  - intros [= <-] HI. split; [done|]. cbn [snd length]. lia.
  - destruct (slaves !! idx) as [h|] eqn:Hh.
    + destruct (place _ _ _ _ _ _ _ _ _) as [pos1|e] eqn:Hplace;
        cbn [builtin mbind outcome_bind]; [|done].
      apply place_keys in Hplace as [v ->]. intros Hst HI.
      apply IH in Hst as [HI' Hidx]; [|by apply I_step]. split; [done|].
      rewrite Hidx. apply lookup_lt_Some in Hh. cbn [length]. lia.
    + intros [= <-] HI. split; [done|]. apply lookup_ge_None in Hh. cbn [snd]. lia.
Qed.

Lemma grid_loop_inv (rs cs : list Z) :
  ∀ pos idx st, grid_loop pad sx sy cell_w cell_h slaves rs cs (pos, idx) = Return st →
    I pos idx →
    I st.1 st.2 ∧ st.2 = (idx + ((length rs * length cs) `min` (length slaves - idx)))%nat.
Proof.
  induction rs as [|r rs IH]; intros pos idx st; cbn [grid_loop].
  - intros [= <-] HI. split; [done|]. cbn [snd length]. lia.
  - destruct (row_loop _ _ _ _ _ _ _ _ _) as [[pos1 idx1]|e] eqn:Hrow;
      cbn [mbind outcome_bind]; [|done].
    intros Hst HI. apply row_loop_inv in Hrow as [HI1 Hidx1]; [|done].
    cbn [fst snd] in HI1, Hidx1. apply IH in Hst as [HI' Hidx]; [|done]. split; [done|].
    rewrite Hidx. subst idx1. cbn [length]. lia.
Qed.

End Loops.

Lemma row_loop_raises pad sx sy cell_w cell_h slaves r cs :
  ∀ st e, row_loop pad sx sy cell_w cell_h slaves r cs st = Raised e →
    e = Builtin OverflowError ∨ e = Builtin ValueError.
Proof.
  induction cs as [|c cs IH]; intros [pos idx] e; cbn [row_loop]; [done|].
  destruct (slaves !! idx) as [h|]; [|done].
  destruct (place _ _ _ _ _ _ _ _ _) as [pos1|e'] eqn:Hplace;
    cbn [builtin mbind outcome_bind]; [apply IH|].
  intros [= <-]. apply arith_only_place in Hplace as [->| ->]; tauto.
Qed.

Lemma grid_loop_raises pad sx sy cell_w cell_h slaves rs cs :
  ∀ st e, grid_loop pad sx sy cell_w cell_h slaves rs cs st = Raised e →
    e = Builtin OverflowError ∨ e = Builtin ValueError.
Proof.
  induction rs as [|r rs IH]; intros st e; cbn [grid_loop]; [done|].
  destruct (row_loop _ _ _ _ _ _ _ _ _) as [st1|e'] eqn:Hrow;
    cbn [mbind outcome_bind]; [apply IH|].
  intros [= <-]. by apply row_loop_raises in Hrow.
Qed.

Lemma insert_sorted_cons (m : Monitor) (l : list Monitor) : insert_sorted m l ≠ [].
Proof. destruct l as [|m' l]; cbn; [done|]. by destruct (key_le m m'). Qed.

Lemma monitors_nil (screens : list Monitor) : monitors screens = [] ↔ screens = [].
Proof.
  destruct screens as [|m l]; [done|]. cbn. split; [|done].
  intros H. by apply insert_sorted_cons in H.
Qed.

Lemma pick_monitors_raises (mode : string) (mons : list Monitor) :
  (mons = [] → pick_monitors mode mons = Raised IndexError) ∧
  (mons ≠ [] → ∃ p, pick_monitors mode mons = Return p).
Proof.
  split; [by intros ->|]. intros Hne. destruct mons as [|m0 [|m1 l]]; [done|by eexists|].
  cbn. repeat case_match; by eexists.
Qed.

Lemma regions_spec (mode : string) (main_hwnd : Z) (main_mon slave_mon : Monitor) :
  (∀ pos slave_rect, regions mode main_hwnd main_mon slave_mon = Return (pos, slave_rect) →
     pos.*1 = [main_hwnd]) ∧
  (∀ e, regions mode main_hwnd main_mon slave_mon = Raised e →
     e = Builtin OverflowError ∨ e = Builtin ValueError).
Proof.
  unfold regions. destruct (bool_decide _); [|split; [by intros ?? [= <- <-]|done]].
  destruct (float_of_int (width main_mon) ≫= _) as [mw|e'] eqn:Hmw;
    cbn [builtin mbind outcome_bind].
  - split; [|intros e; repeat case_match; done].
    intros pos slave_rect. cbn [dict_set]. rewrite Z.eqb_refl.
    repeat case_match; by intros [= <- <-].
  - split; [done|]. intros e [= <-].
    assert (arith_only (float_of_int (width main_mon) ≫=
              λ w, Win32.py_int_of_float (SFmul prec emax w six_tenths))) as Ha.
    { apply arith_only_bind; [apply arith_only_float_of_int|intros ?; apply arith_only_int]. }
    apply Ha in Hmw as [->| ->]; tauto.
Qed.

Lemma take_lookup_fresh (l : list Z) (i : nat) (h : Z) :
  NoDup l → l !! i = Some h → h ∉ take i l.
Proof.
  intros Hnd Hh [j Hj]%list_elem_of_lookup.
  assert (j < i)%nat as Hlt.
  { apply lookup_lt_Some in Hj. rewrite length_take in Hj. lia. }
  rewrite lookup_take_lt in Hj by done.
  pose proof (NoDup_lookup _ _ _ _ Hnd Hj Hh). lia.
Qed.

(** The keys of the dictionary [positions] returns. *)
Lemma positions_keys pad screens hwnds mode cols rows pos :
  positions pad screens hwnds mode cols rows = Return pos →
  NoDup pos.*1 ∧
  (∀ h, h ∈ pos.*1 ↔ h ∈ take (S (Z.to_nat (Z.max 1 cols * Z.max 1 rows))) hwnds) ∧
  (NoDup hwnds → pos.*1 = take (S (Z.to_nat (Z.max 1 cols * Z.max 1 rows))) hwnds).
Proof.
  unfold positions. destruct hwnds as [|main slaves].
  { intros [= <-]. split; [apply NoDup_nil_2|]. split; [|done]. intros h. by rewrite take_nil. }
  destruct (pick_monitors _ _) as [[main_mon slave_mon]|e]; cbn [mbind outcome_bind]; [|done].
  destruct (regions _ _ _ _) as [[pos0 [[[sx sy] sw] sh]]|e] eqn:Hreg;
    cbn [mbind outcome_bind]; [|done].
  apply regions_spec in Hreg. cbn [take].
  destruct slaves as [|s1 slaves'] eqn:Hslaves.
  { intros [= <-]. rewrite Hreg, take_nil.
    split; [apply NoDup_singleton|]. split; [done|done]. }
  rewrite <- Hslaves. clear Hslaves s1 slaves'.
  destruct (builtin (int_truediv (sw - _) _)) as [cell_w|e]; cbn [mbind outcome_bind]; [|done].
  destruct (builtin (int_truediv (sh - _) _)) as [cell_h|e]; cbn [mbind outcome_bind]; [|done].
  destruct (grid_loop _ _ _ _ _ _ _ _ _) as [st|e] eqn:Hgrid; cbn [mbind outcome_bind]; [|done].
  intros [= <-].
  assert (Hn : ∀ idx, idx = (0 + ((length (seqZ 0 (Z.max 1 rows)) *
                 length (seqZ 0 (Z.max 1 cols))) `min` (length slaves - 0)))%nat →
               take idx slaves = take (Z.to_nat (Z.max 1 cols * Z.max 1 rows)) slaves).
  { intros idx ->. rewrite !length_seqZ.
    replace (Z.to_nat (Z.max 1 rows) * Z.to_nat (Z.max 1 cols))%nat
      with (Z.to_nat (Z.max 1 cols * Z.max 1 rows)) by lia.
    destruct (Nat.le_gt_cases (Z.to_nat (Z.max 1 cols * Z.max 1 rows)) (length slaves)).
    - f_equal. lia.
    - rewrite !take_ge by lia. done. }
  split; [|split].
  - pose proof (grid_loop_inv pad sx sy cell_w cell_h slaves (λ pos _, NoDup pos.*1)) as Hinv.
    eapply Hinv in Hgrid as [Hnd _]; [done| |].
    + intros pos idx h v Hnd _. by apply dict_set_keys.
    + rewrite Hreg. apply NoDup_singleton.
  - pose proof (grid_loop_inv pad sx sy cell_w cell_h slaves
      (λ pos idx, ∀ h, h ∈ pos.*1 ↔ h ∈ main :: take idx slaves)) as Hinv.
    eapply Hinv in Hgrid as [Hkeys Hidx]; [| |].
    + intros h. rewrite Hkeys, !elem_of_cons, (Hn _ Hidx). done.
    + intros pos idx h v Hpos Hh h'.
      rewrite dict_set_fst, Hpos, (take_S_r _ _ _ Hh), !elem_of_cons, elem_of_app,
        list_elem_of_singleton. tauto.
    + intros h. by rewrite Hreg, take_0.
  - intros [Hmain Hnd]%NoDup_cons.
    pose proof (grid_loop_inv pad sx sy cell_w cell_h slaves
      (λ pos idx, pos.*1 = main :: take idx slaves)) as Hinv.
    eapply Hinv in Hgrid as [Hkeys Hidx]; [| |].
    + by rewrite Hkeys, (Hn _ Hidx).
    + intros pos idx h v Hpos Hh.
      rewrite dict_set_fresh, Hpos, (take_S_r _ _ _ Hh); [done|].
      rewrite Hpos. apply not_elem_of_cons. split.
      * intros ->. apply Hmain. by eapply list_elem_of_lookup_2.
      * by apply take_lookup_fresh.
    + by rewrite Hreg, take_0.
Qed.

(** X22. Which windows the layout engine positions.  The dictionary that
    [positions] returns has the first [1 + max(1, cols) * max(1, rows)]
    windows of [hwnds] as its keys, each once, and in that order when
    [hwnds] has no duplicates: the main window and as many of the others as
    the grid has cells.  A window beyond the grid gets no position, so the
    layout never moves it. *)
Theorem positions_windows pad screens hwnds mode cols rows pos
    (Hpos : positions pad screens hwnds mode cols rows = Return pos) :
  NoDup pos.*1 ∧
  (∀ h, h ∈ pos.*1 ↔ h ∈ take (S (Z.to_nat (Z.max 1 cols * Z.max 1 rows))) hwnds) ∧
  (NoDup hwnds → pos.*1 = take (S (Z.to_nat (Z.max 1 cols * Z.max 1 rows))) hwnds) ∧
  (∀ i h, (Z.max 1 cols * Z.max 1 rows < Z.of_nat i) → hwnds !! i = Some h →
     h ∉ take i hwnds → h ∉ pos.*1).
Proof.
  destruct (positions_keys _ _ _ _ _ _ _ Hpos) as (Hnd & Hkeys & Hord).
  split; [done|]. split; [done|]. split; [done|].
  intros i h Hi Hh Hfresh. rewrite Hkeys. intros Hin. apply Hfresh.
  apply elem_of_take in Hin as (j & Hj & Hlt). apply elem_of_take. exists j.
  split; [done|lia].
Qed.

Lemma positions_windows_witness :
  let pos : list (Z * rect) :=
    [(101, (0, 0, 1152, 1080)); (102, (1152, 0, 382, 1080)); (103, (1538, 0, 382, 1080))] in
  positions 4 [Samples.full_hd] Samples.five_clients "main_left_slaves_right" 2 1
    = Return pos ∧
  104 ∉ pos.*1.
Proof.
  intros pos.
  assert (Hpos : positions 4 [Samples.full_hd] Samples.five_clients
                   "main_left_slaves_right" 2 1 = Return pos) by (vm_compute; reflexivity).
  split; [exact Hpos|].
  apply (positions_windows _ _ _ _ _ _ _ Hpos) with (i := 3%nat).
  - lia.
  - reflexivity.
  - cbn. intros Hin. repeat (apply elem_of_cons in Hin as [Hin|Hin]; [discriminate|]).
    by apply elem_of_nil in Hin.
Defined.

(** X23. What [positions] can raise.  It raises [IndexError] exactly when
    there is a window to place and no monitor; it never raises
    [ZeroDivisionError], whatever the grid size, since the columns and rows
    are raised to 1; everything else it can raise is an [OverflowError] or
    a [ValueError] of the float arithmetic; and without windows it returns
    the empty dictionary, before looking at the monitors. *)
Theorem positions_exceptions pad screens hwnds mode cols rows :
  (positions pad screens hwnds mode cols rows = Raised IndexError ↔
     hwnds ≠ [] ∧ screens = []) ∧
  (∀ e, positions pad screens hwnds mode cols rows = Raised (Builtin e) →
     e = OverflowError ∨ e = ValueError) ∧
  (hwnds = [] → positions pad screens hwnds mode cols rows = Return []).
Proof.
  assert (Hraise : ∀ e, positions pad screens hwnds mode cols rows = Raised e →
            (e = IndexError ∧ hwnds ≠ [] ∧ screens = []) ∨
            e = Builtin OverflowError ∨ e = Builtin ValueError).
  { intros e. unfold positions. destruct hwnds as [|main slaves]; [done|].
    destruct (pick_monitors_raises mode (monitors screens)) as [Hnil Hcons].
    destruct (decide (monitors screens = [])) as [Hm|Hm].
    { rewrite (Hnil Hm). cbn [mbind outcome_bind]. intros [= <-]. left.
      apply (proj1 (monitors_nil _)) in Hm. by repeat split. }
    destruct (Hcons Hm) as [[main_mon slave_mon] ->]. cbn [mbind outcome_bind].
    destruct (regions _ _ _ _) as [[pos0 [[[sx sy] sw] sh]]|e'] eqn:Hreg;
      cbn [mbind outcome_bind].
    2:{ intros [= <-]. right. by apply regions_spec in Hreg. }
    destruct slaves as [|s1 slaves']; [done|].
    destruct (int_truediv (sw - _) _) as [cell_w|e1] eqn:H1; cbn [builtin mbind outcome_bind].
    2:{ intros [= <-]. right. apply arith_only_truediv in H1 as [->| ->]; [tauto..|lia]. }
    destruct (int_truediv (sh - _) _) as [cell_h|e2] eqn:H2; cbn [builtin mbind outcome_bind].
    2:{ intros [= <-]. right. apply arith_only_truediv in H2 as [->| ->]; [tauto..|lia]. }
    destruct (grid_loop _ _ _ _ _ _ _ _ _) as [st|e3] eqn:Hgrid; cbn [mbind outcome_bind];
      [done|].
    intros [= <-]. right. by apply grid_loop_raises in Hgrid. }
  split; [split|split].
  - intros H. apply Hraise in H as [(_ & ? & ?)|[?|?]]; done.
  - intros [Hne ->]. unfold positions. destruct hwnds as [|main slaves]; done.
  - intros e H. apply Hraise in H as [(? & _)|[[= ->]|[= ->]]]; [done|tauto..].
  - by intros ->.
Qed.

End Layout.


(** *** The steps of a macro *)

Section Steps.

Import MacroSteps Win32.

Variables (bi : Builtins) (d : Desktop) (time_sleep : pyval → option exn)
  (main_hwnd : option Z) (targets : list Z).

Lemma broadcast_char_event_targets char e :
  e ∈ _broadcast_char_event char targets →
  ∃ h code, e = PostMessage h WM_CHAR code ∧ h ∈ targets.
Proof.
  unfold _broadcast_char_event. destruct char as [|c [|c' s]]; try by intros ?%elem_of_nil.
  intros (h & -> & Hh)%list_elem_of_fmap. by eexists _, _.
Qed.

Lemma broadcast_click_targets rx ry button msgs hwnd msg wp lp :
  msgs ∈ _broadcast_click d rx ry button targets → Post hwnd msg wp lp ∈ msgs →
  hwnd ∈ targets.
Proof.
  unfold _broadcast_click. intros (h & -> & Hh)%list_elem_of_fmap Hin.
  apply post_mouse_click_target in Hin as (? & ? & ? & [= -> _ _ _]). done.
Qed.

Lemma pause_actions (x : pyval) (a : action) :
  a ∈ (pause time_sleep x).1 → addresses_targets main_hwnd targets a.
Proof.
  unfold pause. destruct (max0 x) as [seconds|e]; [|by intros ?%elem_of_nil].
  destruct (time_sleep seconds); [by intros ?%elem_of_nil|].
  intros ->%list_elem_of_singleton. split; intros h Hh; by apply elem_of_nil in Hh.
Qed.

Lemma play_body_actions (st : MacroStep) (a : action) :
  a ∈ (play_body bi d main_hwnd targets st).1 →
  addresses_targets main_hwnd targets a.
Proof.
  assert (Hsleep : ∀ q, addresses_targets main_hwnd targets (Event (sleep q))).
  { intros q. split; intros h Hh; by apply elem_of_nil in Hh. }
  assert (Hkeys : ∀ key et, a ∈ Event <$> _broadcast_key_event key targets et →
            addresses_targets main_hwnd targets a).
  { intros key et (e & -> & He)%list_elem_of_fmap.
    split; [|intros h Hh; by apply elem_of_nil in Hh].
    destruct e as [hwnd msg vk|q]; cbn [posts_to]; [|by intros h ?%elem_of_nil].
    intros h ->%list_elem_of_singleton. by eapply broadcast_key_event_targets. }
  unfold play_body.
  destruct (String.eqb (step_type st) "key").
  { generalize (strip (lower (step_value st))). intros key_value.
    destruct (VK_CODE_MAP !! key_value) as [vk|].
    - cbn [fst]. rewrite !elem_of_app.
      intros [?|[Hs|?]]; [by eapply Hkeys| |by eapply Hkeys].
      apply list_elem_of_singleton in Hs as ->. apply Hsleep.
    - destruct (String.length key_value =? 1)%nat; cbn [fst]; [|by intros ?%elem_of_nil].
      intros (e & -> & He)%list_elem_of_fmap.
      apply broadcast_char_event_targets in He as (h & code & -> & Hh).
      split; [|intros h' Hh'; by apply elem_of_nil in Hh'].
      cbn [posts_to]. by intros h' ->%list_elem_of_singleton. }
  destruct (String.eqb (step_type st) "text").
  { cbn [fst]. rewrite !elem_of_app. intros [Hw|Ho].
    - apply list_elem_of_bind in Hw as (hwnd & Ha & Hhwnd).
      repeat (apply elem_of_cons in Ha as [->|Ha]); [| | |by apply elem_of_nil in Ha].
      + split; [by intros h ?%elem_of_nil|]. cbn [raises_window].
        intros h ->%list_elem_of_singleton. by left.
      + apply Hsleep.
      + split; by intros h ?%elem_of_nil.
    - unfold truthy_handle in Ho. destruct main_hwnd as [[|p|p]|];
        try (by apply elem_of_nil in Ho); apply list_elem_of_singleton in Ho as ->;
        (split; [by intros h ?%elem_of_nil|]); cbn [raises_window];
        intros h ->%list_elem_of_singleton; by right. }
  destruct (String.eqb (step_type st) "mouse"); [|by intros ?%elem_of_nil].
  destruct (py_float bi (get (step_mouse st) "x" _)) as [rx|e]; [|by intros ?%elem_of_nil].
  destruct (py_float bi (get (step_mouse st) "y" _)) as [ry|e]; [|by intros ?%elem_of_nil].
  cbn [fst]. intros (msgs & -> & Hm)%list_elem_of_fmap.
  split; [|by intros h ?%elem_of_nil]. cbn [posts_to].
  intros h ([hwnd msg wp lp] & -> & Hin)%list_elem_of_fmap.
  by eapply broadcast_click_targets.
Qed.

(** What one step does, action by action. *)
Lemma play_step_actions (st : MacroStep) (a : action) :
  a ∈ (play_step bi d time_sleep main_hwnd targets st).1 →
  addresses_targets main_hwnd targets a.
Proof.
  unfold play_step. destruct (String.eqb (step_type st) "delay"); [apply pause_actions|].
  destruct (truthy (step_delay st)).
  - destruct (pause time_sleep (step_delay st)) as [slept [e|]] eqn:Hp.
    + cbn [fst]. intros Ha. apply (pause_actions (step_delay st)). by rewrite Hp.
    + destruct (play_body bi d main_hwnd targets st) as [acts r] eqn:Hb. cbn [fst].
      rewrite elem_of_app. intros [Ha|Ha].
      * apply (pause_actions (step_delay st)). by rewrite Hp.
      * apply (play_body_actions st). by rewrite Hb.
  - destruct (play_body bi d main_hwnd targets st) as [acts r] eqn:Hb. cbn [fst app].
    intros Ha. apply (play_body_actions st). by rewrite Hb.
Qed.

Lemma play_steps_cons (st : MacroStep) (steps : list MacroStep) :
  play_steps bi d time_sleep main_hwnd targets (st :: steps)
  = match (play_step bi d time_sleep main_hwnd targets st).2 with
    | Some e => ((play_step bi d time_sleep main_hwnd targets st).1, Some e)
    | None =>
        ((play_step bi d time_sleep main_hwnd targets st).1
           ++ (play_steps bi d time_sleep main_hwnd targets steps).1,
         (play_steps bi d time_sleep main_hwnd targets steps).2)
    end.
Proof.
  cbn [play_steps]. destruct (play_step _ _ _ _ _ st) as [acts [e|]]; [done|].
  by destruct (play_steps _ _ _ _ _ steps).
Qed.

Lemma play_steps_actions (steps : list MacroStep) (a : action) :
  a ∈ (play_steps bi d time_sleep main_hwnd targets steps).1 →
  addresses_targets main_hwnd targets a.
Proof.
  induction steps as [|st steps IH]; [by intros ?%elem_of_nil|].
  rewrite play_steps_cons.
  destruct (play_step _ _ _ _ _ st).2 eqn:Hr; cbn [fst].
  - apply (play_step_actions st).
  - rewrite elem_of_app. intros [?|?]; [by apply (play_step_actions st)|by apply IH].
Qed.

Lemma pause_result (x : pyval) :
  ((pause time_sleep x).2 = None ↔ sleeps time_sleep x) ∧
  (∀ e, (pause time_sleep x).2 = Some e → step_exception time_sleep e).
Proof.
  unfold pause, sleeps. destruct (max0 x) as [seconds|e] eqn:Hmax.
  - destruct (time_sleep seconds) as [e|] eqn:Hsleep; cbn [snd].
    + split; [|intros e' [= <-]; right; by exists seconds].
      split; [done|]. intros (s & [= <-] & Hs). congruence.
    + split; [|done]. split; [|done]. intros _. by exists seconds.
  - cbn [snd]. split.
    + split; [done|]. by intros (s & [=] & _).
    + intros e' [= <-]. left. unfold max0, py_gt, py_order in Hmax.
      destruct (as_number x) as [n|]; cbn in Hmax.
      * destruct (number_compare _ _); done.
      * destruct x; try done; injection Hmax as <-; apply elem_of_cons; by left.
Qed.

Lemma play_body_result (st : MacroStep) :
  ((play_body bi d main_hwnd targets st).2 = None ↔
   (step_type st = "mouse" →
    is_ok (py_float bi (get (step_mouse st) "x" (PFloat one_half))) = true ∧
    is_ok (py_float bi (get (step_mouse st) "y" (PFloat one_half))) = true)) ∧
  (∀ e, (play_body bi d main_hwnd targets st).2 = Some e →
     step_exception time_sleep e).
Proof.
  assert (Hfloat : ∀ v e, py_float bi v = Raise e → step_exception time_sleep e).
  { intros v e Hv. left. destruct v as [|b|z|f|s]; cbn [py_float] in Hv.
    - injection Hv as <-. apply elem_of_cons. by left.
    - unfold float_of_int, overflow_check in Hv.
      destruct (binary_normalize _ _ _ _ _); try done. injection Hv as <-.
      do 2 (apply elem_of_cons; right). apply elem_of_cons. by left.
    - unfold float_of_int, overflow_check in Hv.
      destruct (binary_normalize _ _ _ _ _); try done. injection Hv as <-.
      do 2 (apply elem_of_cons; right). apply elem_of_cons. by left.
    - done.
    - destruct (float_of_str bi s); [done|]. injection Hv as <-.
      apply elem_of_cons; right. apply elem_of_cons. by left. }
  unfold play_body.
  destruct (String.eqb_spec (step_type st) "key") as [Hk|_].
  { split; [|repeat case_match; done].
    split; [|repeat case_match; done]. intros _ Hm. by rewrite Hk in Hm. }
  destruct (String.eqb_spec (step_type st) "text") as [Ht|_].
  { split; [|done]. split; [|done]. intros _ Hm. by rewrite Ht in Hm. }
  destruct (String.eqb_spec (step_type st) "mouse") as [Hm|Hm]; [|by split].
  destruct (py_float bi (get (step_mouse st) "x" _)) as [rx|ex] eqn:Hx.
  - destruct (py_float bi (get (step_mouse st) "y" _)) as [ry|ey] eqn:Hy.
    + split; [|done]. by split.
    + split; [|intros e [= <-]; by eapply Hfloat].
      split; [done|]. intros Hp. by destruct (Hp Hm).
  - split; [|intros e [= <-]; by eapply Hfloat].
    split; [done|]. intros Hp. by destruct (Hp Hm).
Qed.

(** When one step ends the macro. *)
Lemma play_step_result (st : MacroStep) :
  ((play_step bi d time_sleep main_hwnd targets st).2 = None ↔
   playable bi time_sleep st) ∧
  (∀ e, (play_step bi d time_sleep main_hwnd targets st).2 = Some e →
     step_exception time_sleep e).
Proof.
  unfold play_step, playable.
  destruct (String.eqb (step_type st) "delay"); [apply pause_result|].
  destruct (play_body_result st) as [Hbody Hbody_e].
  destruct (truthy (step_delay st)).
  - destruct (pause_result (step_delay st)) as [Hpause Hpause_e].
    destruct (pause time_sleep (step_delay st)) as [slept [e|]]; cbn [snd] in *.
    + split; [|intros e' [= <-]; by apply Hpause_e].
      split; [done|]. intros [Hs _]. by apply Hpause in Hs.
    + destruct (play_body bi d main_hwnd targets st) as [acts r]. cbn [snd] in *.
      split; [|done]. rewrite Hbody. split; [|tauto].
      intros Hm. split; [|done]. intros _. by apply Hpause.
  - destruct (play_body bi d main_hwnd targets st) as [acts r]. cbn [snd] in *.
    split; [|done]. rewrite Hbody. split; [|tauto]. intros Hm. by split.
Qed.

Lemma play_steps_result (steps : list MacroStep) :
  ((play_steps bi d time_sleep main_hwnd targets steps).2 = None ↔
   Forall (playable bi time_sleep) steps) ∧
  (∀ e, (play_steps bi d time_sleep main_hwnd targets steps).2 = Some e →
     step_exception time_sleep e).
Proof.
  induction steps as [|st steps [IH1 IH2]]; [by split|].
  rewrite play_steps_cons. destruct (play_step_result st) as [Hst1 Hst2].
  destruct (play_step _ _ _ _ _ st).2 as [e|] eqn:Hr; cbn [snd].
  - split; [|intros e' [= <-]; by apply Hst2].
    split; [done|]. intros [Hp _]%Forall_cons. apply Hst1 in Hp. done.
  - split; [|done]. rewrite Forall_cons, IH1. split; [|tauto].
    intros. split; [by apply Hst1|done].
Qed.

End Steps.

(** X24. What the steps of a macro do.  Every key, character and click
    message goes to one of the target windows; a window that is brought to
    the front is a target or the (non-null) main window.  The steps are
    played to the end exactly when every step is playable: its pause, if it
    has one, has a length that compares with [0.0] and that [time.sleep]
    accepts, and the coordinates of a mouse step convert to floats.
    Otherwise the macro ends at the first step that is not playable, the
    steps after it not being played, with the [TypeError] of the comparison,
    the [TypeError], [ValueError] or [OverflowError] of a conversion, or
    the exception of [time.sleep]: a delay step of infinite length ends the
    macro with [OverflowError] before anything is sent. *)
Theorem macro_steps_windows bi d time_sleep main_hwnd targets steps :
  (∀ a h, a ∈ (MacroSteps.play_steps bi d time_sleep main_hwnd targets steps).1 →
     h ∈ MacroSteps.posts_to a → h ∈ targets) ∧
  (∀ a h, a ∈ (MacroSteps.play_steps bi d time_sleep main_hwnd targets steps).1 →
     h ∈ MacroSteps.raises_window a → h ∈ targets ∨ (main_hwnd = Some h ∧ h ≠ 0)) ∧
  ((MacroSteps.play_steps bi d time_sleep main_hwnd targets steps).2 = None ↔
     Forall (MacroSteps.playable bi time_sleep) steps) ∧
  (∀ e, (MacroSteps.play_steps bi d time_sleep main_hwnd targets steps).2 = Some e →
     e ∈ [TypeError; ValueError; OverflowError] ∨ ∃ seconds, time_sleep seconds = Some e) ∧
  (∀ pre st rest, steps = pre ++ st :: rest →
     Forall (MacroSteps.playable bi time_sleep) pre →
     ¬ MacroSteps.playable bi time_sleep st →
     MacroSteps.play_steps bi d time_sleep main_hwnd targets steps
     = MacroSteps.play_steps bi d time_sleep main_hwnd targets (pre ++ [st])) ∧
  MacroSteps.play_steps bi d Samples.finite_sleep main_hwnd targets Samples.wait_forever
  = ([], Some OverflowError).
Proof.
  split; [|split; [|split; [|split; [|split]]]].
  - intros a h Ha.
    exact (proj1 (play_steps_actions bi d time_sleep main_hwnd targets steps a Ha) h).
  - intros a h Ha.
    exact (proj2 (play_steps_actions bi d time_sleep main_hwnd targets steps a Ha) h).
  - apply play_steps_result.
  - apply play_steps_result.
  - intros pre st rest -> Hpre Hst. induction pre as [|p pre IH].
    + cbn [app]. rewrite !play_steps_cons.
      destruct (play_step_result bi d time_sleep main_hwnd targets st) as [Hst1 _].
      destruct (MacroSteps.play_step _ _ _ _ _ st).2 as [e|]; [done|].
      exfalso. by apply Hst, Hst1.
    + apply Forall_cons in Hpre as [Hp Hpre]. cbn [app]. rewrite !play_steps_cons.
      by rewrite (IH Hpre).
  - reflexivity.
Qed.

(** X25. Target policy and steps together.  Whatever its steps are, a
    macro for [all_except_main] posts messages only to registered windows
    other than the main one; a macro for [main] posts only to the main
    window; a round-robin macro posts only to registered windows, and to
    the main window only when no other window is registered; and under
    every policy other than [main] and [slots] the messages go to
    registered windows. *)
Theorem macro_posts_by_policy bi d time_sleep self m steps a h
    (Ha : a ∈ (MacroSteps.run_macro bi d time_sleep self m steps).1)
    (Hh : h ∈ MacroSteps.posts_to a) :
  (target m = "all_except_main" → h ∈ hwnds self ∧ Some h ≠ main_hwnd self) ∧
  (target m = "main" → main_hwnd self = Some h ∧ h ≠ 0) ∧
  (target m = "round_robin" →
     h ∈ hwnds self ∧ (Some h = main_hwnd self → non_main self = [])) ∧
  (target m ∉ ["main"; "slots"] → h ∈ hwnds self).
Proof.
  unfold MacroSteps.run_macro in Ha.
  destruct (_run_macro_body self m) as [[r self'] m'] eqn:Hbody.
  destruct r as [targets|]; [|by apply elem_of_nil in Ha].
  assert (Hin : h ∈ targets) by exact (proj1 (play_steps_actions _ _ _ _ _ _ _ Ha) h Hh).
  clear Ha Hh.
  assert (Hnr : target m ≠ "round_robin" →
            match (_targets_for self (target m) (slots m)).1 with
            | [] => None
            | targets => Some targets
            end = Some targets).
  { intros Hne. rewrite (run_macro_body_not_round_robin _ _ Hne) in Hbody. congruence. }
  assert (Hrr : target m = "round_robin" →
            h ∈ hwnds self ∧ (Some h = main_hwnd self → non_main self = [])).
  { intros Ht. destruct (decide (hwnds self = [])) as [Hnil|Hne].
    { unfold _run_macro_body, _targets_for in Hbody. by rewrite Hnil in Hbody. }
    destruct (run_macro_body_round_robin self m Hne Ht) as (h' & Hr & Hlook & _).
    rewrite Hbody in Hr. cbn [fst] in Hr. injection Hr as ->.
    apply list_elem_of_singleton in Hin as ->.
    apply list_elem_of_lookup_2 in Hlook. unfold rr_array in Hlook.
    destruct (non_main self) as [|x l] eqn:Hnm.
    - split; [|done]. by apply elem_of_take in Hlook as (i & ?%list_elem_of_lookup_2 & _).
    - rewrite <- Hnm in Hlook. split; [by apply non_main_subset|].
      intros Hmain. unfold non_main in Hlook.
      by apply list_elem_of_filter in Hlook as [Hneq _]. }
  assert (Hall : ∀ l : list Z,
            match l with [] => None | z :: l' => Some (z :: l') end = Some targets →
            l = targets).
  { intros [|x l]; [done|]. by intros [= <-]. }
  split; [|split; [|split]].
  - intros Ht. rewrite Ht in Hnr. specialize (Hnr ltac:(done)).
    unfold _targets_for in Hnr. destruct (hwnds self) as [|h0 l] eqn:Hw; [done|].
    cbn [String.eqb Ascii.eqb Bool.eqb fst] in Hnr. apply Hall in Hnr as <-.
    split; [rewrite <- Hw; by apply non_main_subset|].
    unfold non_main in Hin. by apply list_elem_of_filter in Hin as [Hneq _].
  - intros Ht. rewrite Ht in Hnr. specialize (Hnr ltac:(done)).
    unfold _targets_for in Hnr. destruct (hwnds self) as [|h0 l] eqn:Hw; [done|].
    cbn [String.eqb Ascii.eqb Bool.eqb fst] in Hnr. apply Hall in Hnr as <-.
    unfold truthy_handle in Hin. destruct (main_hwnd self) as [[|p|p]|];
      try (by apply elem_of_nil in Hin); by apply list_elem_of_singleton in Hin as ->.
  - done.
  - intros Ht. destruct (decide (target m = "round_robin")) as [Hr|Hr]; [by apply Hrr|].
    specialize (Hnr Hr). unfold _targets_for in Hnr.
    destruct (hwnds self) as [|h0 l] eqn:Hw; [done|]. rewrite <- Hw in *.
    destruct (String.eqb_spec (target m) "main") as [Hm|_].
    { exfalso. apply Ht. rewrite Hm. apply elem_of_cons. by left. }
    destruct (String.eqb_spec (target m) "all") as [_|_];
      [cbn [fst] in Hnr; by apply Hall in Hnr as <-|].
    destruct (String.eqb_spec (target m) "all_except_main") as [_|_];
      [cbn [fst] in Hnr; apply Hall in Hnr as <-; by apply non_main_subset|].
    destruct (String.eqb_spec (target m) "slots") as [Hs|_].
    { exfalso. apply Ht. rewrite Hs. apply elem_of_cons. right. apply elem_of_cons. by left. }
    destruct (String.eqb_spec (target m) "round_robin") as [?|_]; [done|].
    cbn [fst] in Hnr. by apply Hall in Hnr as <-.
Qed.

Lemma macro_posts_by_policy_witness :
  11 ∈ hwnds Samples.four_windows ∧ Some 11 ≠ main_hwnd Samples.four_windows.
Proof.
  apply (macro_posts_by_policy Samples.no_builtins Samples.two_clients
           Samples.finite_sleep Samples.four_windows
           Samples.followers_macro Samples.press_then_click
           (MacroSteps.Event (PostMessage 11 WM_KEYDOWN 0x31)) 11).
  - vm_compute. apply elem_of_cons. by left.
  - cbn. apply elem_of_cons. by left.
  - reflexivity.
Defined.


(** *** Hotkey strings *)

Section HotkeyStrings.

Import Hotkeys Win32.

Lemma append_nil (b : string) : "" +:+ b = b.
Proof. reflexivity. Qed.

Lemma append_cons (c : ascii) (a b : string) : String c a +:+ b = String c (a +:+ b).
Proof. reflexivity. Qed.

Lemma append_length (a b : string) :
  String.length (a +:+ b) = (String.length a + String.length b)%nat.
Proof.
  induction a as [|c a IH]; [done|]. rewrite append_cons. cbn [String.length].
  by rewrite IH.
Qed.

Lemma prefix_append (a b : string) : String.prefix a (a +:+ b) = true.
Proof.
  induction a as [|c a IH]; [by destruct b|]. rewrite append_cons. cbn [String.prefix].
  by destruct (ascii_dec c c).
Qed.

Lemma split_plain (sep : ascii) (s : string) :
  string_forall (λ c, negb (Ascii.eqb c sep)) s = true → split sep s = [s].
Proof.
  induction s as [|c s IH]; [done|]. cbn [string_forall split].
  intros [Hc Hs]%andb_true_iff. apply negb_true_iff in Hc. rewrite Hc, (IH Hs). done.
Qed.

Lemma split_app (sep : ascii) (a b : string) :
  string_forall (λ c, negb (Ascii.eqb c sep)) a = true →
  split sep (a +:+ String sep b) = a :: split sep b.
Proof.
  induction a as [|c a IH]; rewrite ?append_nil, ?append_cons; cbn [string_forall split].
  - intros _. by rewrite Ascii.eqb_refl.
  - intros [Hc Ha]%andb_true_iff. apply negb_true_iff in Hc. by rewrite Hc, (IH Ha).
Qed.

(** Splitting undoes joining. *)
Lemma split_join (sep : ascii) (ps : list string) :
  ps ≠ [] → Forall (λ p, string_forall (λ c, negb (Ascii.eqb c sep)) p = true) ps →
  split sep (join (String sep EmptyString) ps) = ps.
Proof.
  induction ps as [|p ps IH]; [done|]. intros _ [Hp Hps]%Forall_cons.
  destruct ps as [|q ps]; [by apply split_plain|].
  change (join (String sep "") (p :: q :: ps))
    with (p +:+ String sep (join (String sep "") (q :: ps))).
  rewrite split_app by done. by rewrite IH.
Qed.

Lemma string_forall_app (P : ascii → bool) (a b : string) :
  string_forall P (a +:+ b) = string_forall P a && string_forall P b.
Proof.
  induction a as [|c a IH]; [done|]. rewrite append_cons. cbn [string_forall].
  by rewrite IH, andb_assoc.
Qed.

Lemma string_forall_join (P : ascii → bool) (sep : string) (ps : list string) :
  string_forall P sep = true → Forall (λ p, string_forall P p = true) ps →
  string_forall P (join sep ps) = true.
Proof.
  intros Hsep. induction ps as [|p ps IH]; [done|]. intros [Hp Hps]%Forall_cons.
  destruct ps as [|q ps]; [done|].
  change (join sep (p :: q :: ps)) with (p +:+ sep +:+ join sep (q :: ps)).
  by rewrite !string_forall_app, Hp, Hsep, IH.
Qed.

Lemma string_forall_impl (P Q : ascii → bool) (s : string) :
  (∀ c, P c = true → Q c = true) → string_forall P s = true → string_forall Q s = true.
Proof.
  intros HPQ. induction s as [|c s IH]; [done|]. cbn [string_forall].
  intros [Hc Hs]%andb_true_iff. by rewrite (HPQ c Hc), IH.
Qed.

Lemma lower_stable (s : string) : string_forall stable s = true → lower s = s.
Proof.
  induction s as [|c s IH]; [done|]. cbn [string_forall lower].
  intros [[_ Hc]%andb_true_iff Hs]%andb_true_iff.
  apply Ascii.eqb_eq in Hc. by rewrite Hc, IH.
Qed.

Lemma remove_spaces_stable (s : string) :
  string_forall stable s = true → remove_spaces s = s.
Proof.
  induction s as [|c s IH]; [done|]. cbn [string_forall remove_spaces].
  intros [[Hc _]%andb_true_iff Hs]%andb_true_iff.
  destruct (Ascii.eqb_spec c " ") as [->|_]; [done|]. by rewrite IH.
Qed.

Lemma rstrip_stable (s : string) :
  string_forall stable s = true → MacroSteps.rstrip s = s.
Proof.
  induction s as [|c s IH]; [done|]. cbn [string_forall MacroSteps.rstrip].
  intros [[Hc _]%andb_true_iff Hs]%andb_true_iff.
  apply negb_true_iff in Hc. by rewrite Hc, IH.
Qed.

Lemma strip_stable (s : string) : string_forall stable s = true → MacroSteps.strip s = s.
Proof.
  intros Hs. unfold MacroSteps.strip.
  assert (MacroSteps.lstrip s = s) as ->; [|by apply rstrip_stable].
  destruct s as [|c s]; [done|]. cbn [string_forall MacroSteps.lstrip] in *.
  apply andb_true_iff in Hs as [[Hc _]%andb_true_iff _].
  apply negb_true_iff in Hc. by rewrite Hc.
Qed.

Lemma join_length (sep : string) (ps : list string) (p : string) :
  p ∈ ps → (String.length p ≤ String.length (join sep ps))%nat.
Proof.
  induction ps as [|q ps IH]; [by intros ?%elem_of_nil|].
  destruct ps as [|r ps]; [by intros ->%list_elem_of_singleton|].
  change (join sep (q :: r :: ps)) with (q +:+ sep +:+ join sep (r :: ps)).
  rewrite !append_length. intros [->|Hin]%elem_of_cons; [lia|].
  specialize (IH Hin). lia.
Qed.

(** The loop of [_parse_hotkey] over modifier names. *)
Lemma parse_modifiers (ms : list string) :
  Forall (λ m, m ∈ ["ctrl"; "alt"; "shift"; "win"]) ms →
  ∀ mods key btn,
    foldl parse_part (mods, key, btn) ms = (list_to_set ms ∪ mods, key, btn).
Proof.
  induction ms as [|m ms IH]; intros Hms mods key btn.
  - cbn [foldl list_to_set]. f_equal. f_equal. set_solver.
  - apply Forall_cons in Hms as [Hm Hms]. cbn [foldl]. unfold parse_part at 2.
    rewrite bool_decide_true by set_solver.
    assert (String.eqb m "windows" = false) as ->.
    { repeat (apply elem_of_cons in Hm as [->|Hm]; [done|]). by apply elem_of_nil in Hm. }
    rewrite (IH Hms). cbn [list_to_set]. f_equal. f_equal. set_solver.
Qed.

(** The invariant of the loop of [_parse_hotkey]. *)
Lemma parse_part_inv (st : parsed) (p : string) :
  (∀ m, m ∈ st.1.1 → m ∈ ["ctrl"; "alt"; "shift"; "win"]) ∧ st.2 ≠ Some "x1" ∧
  st.1.2 ≠ Some "" →
  p ≠ "" →
  (∀ m, m ∈ (parse_part st p).1.1 → m ∈ ["ctrl"; "alt"; "shift"; "win"]) ∧
  (parse_part st p).2 ≠ Some "x1" ∧ (parse_part st p).1.2 ≠ Some "".
Proof.
  destruct st as [[mods key] btn]. cbn [fst snd]. intros (Hmods & Hbtn & Hkey) Hp.
  unfold parse_part. case_bool_decide as Hm.
  - cbn [fst snd]. split; [|done]. intros m [Hin|Hin]%elem_of_union; [|by apply Hmods].
    apply elem_of_singleton in Hin as ->.
    repeat (apply elem_of_cons in Hm as [->|Hm]; [cbn; set_solver|]).
    by apply elem_of_nil in Hm.
  - destruct (String.prefix "mouse:" p); [|cbn [fst snd]; split; [done|split; congruence]].
    destruct (after_first ":" p) as [b|]; [|done]. cbn [fst snd]. split; [done|].
    split; [|done]. case_bool_decide as Hb; [|intros [= ->]; apply Hb; set_solver].
    destruct (String.eqb_spec b "x1") as [->|Hne]; [done|congruence].
Qed.

Lemma parse_parts_inv (ps : list string) :
  Forall (λ p, p ≠ "") ps →
  ∀ st,
    (∀ m, m ∈ st.1.1 → m ∈ ["ctrl"; "alt"; "shift"; "win"]) ∧ st.2 ≠ Some "x1" ∧
    st.1.2 ≠ Some "" →
    (∀ m, m ∈ (foldl parse_part st ps).1.1 → m ∈ ["ctrl"; "alt"; "shift"; "win"]) ∧
    (foldl parse_part st ps).2 ≠ Some "x1" ∧ (foldl parse_part st ps).1.2 ≠ Some "".
Proof.
  induction ps as [|p ps IH]; [done|]. intros [Hp Hps]%Forall_cons st Hst. cbn [foldl].
  apply (IH Hps). by apply parse_part_inv.
Qed.

(** The modifier names [_compose] writes are those [on_mouse] reads. *)
Lemma compose_parts (d : Desktop) (main : string) (is_mouse : bool) (hk : string) :
  _compose d main is_mouse = Some hk →
  ∃ pressed,
    mods_now d = Some pressed ∧
    Forall (λ m, m ∈ ["ctrl"; "alt"; "shift"; "win"]) pressed ∧
    hk = join "+" (pressed ++ [if is_mouse then "mouse:" +:+ main else main]).
Proof.
  unfold _compose, mods_now.
  destruct (is_pressed d "ctrl") as [ctrl|]; [|done].
  destruct (is_pressed d "alt") as [alt|]; [|done].
  destruct (is_pressed d "shift") as [shift|]; [|done].
  destruct (is_pressed d "windows") as [win|]; [|done].
  cbn [mbind option_bind]. intros [= <-]. eexists. split; [done|].
  split; [|by rewrite <- !app_assoc].
  destruct ctrl, alt, shift, win; cbn [app];
    repeat (apply List.Forall_cons; [set_solver|]); apply List.Forall_nil.
Qed.

(** X26. A captured mouse hotkey parses back.  For a button name without
    upper-case letters, white space and [+], the string that the capture
    dialog composes parses to exactly the modifiers that were pressed at
    the capture, as the mouse hook reads them, to no key, and to the same
    button, [x1] being renamed to [x]. *)
Theorem captured_mouse_hotkey_parses (d : Desktop) (btn hk : string)
    (Hbtn : string_forall plain btn = true)
    (Hhk : _compose d btn true = Some hk) :
  ∃ pressed,
    mods_now d = Some pressed ∧
    _parse_hotkey (Some hk)
    = (list_to_set pressed, None, Some (if String.eqb btn "x1" then "x" else btn)).
Proof.
  apply compose_parts in Hhk as (pressed & Hnow & Hpressed & ->).
  exists pressed. split; [done|].
  set (parts := pressed ++ ["mouse:" +:+ btn]).
  assert (Hparts : Forall (λ p, string_forall plain p = true) parts).
  { apply Forall_app. split; [|by apply List.Forall_cons; [|apply List.Forall_nil]].
    eapply Forall_impl; [exact Hpressed|]. intros m Hm. cbn beta in Hm.
    repeat (apply elem_of_cons in Hm as [->|Hm]; [done|]). by apply elem_of_nil in Hm. }
  assert (Hstable : string_forall stable (join "+" parts) = true).
  { apply string_forall_join; [done|]. eapply Forall_impl; [exact Hparts|].
    intros p. apply string_forall_impl. by intros c [? _]%andb_true_iff. }
  assert (Hsplit : split "+" (join "+" parts) = parts).
  { apply split_join; [by destruct pressed|]. eapply Forall_impl; [exact Hparts|].
    intros p. apply string_forall_impl. by intros c [_ ?]%andb_true_iff. }
  unfold _parse_hotkey. cbn [default from_option id].
  rewrite (strip_stable _ Hstable), (lower_stable _ Hstable),
    (remove_spaces_stable _ Hstable), Hsplit.
  assert (String.eqb (join "+" parts) "" = false) as ->.
  { apply String.eqb_neq. intros Hnil.
    assert (Hlen : (String.length ("mouse:" +:+ btn) ≤ String.length (join "+" parts))%nat).
    { apply join_length. unfold parts. apply elem_of_app. right.
      by apply list_elem_of_singleton. }
    rewrite Hnil, append_length in Hlen. cbn [String.length] in Hlen. lia. }
  assert (filter (λ p : string, p ≠ "") parts = parts) as ->.
  { unfold parts. rewrite filter_app.
    assert (filter (λ p : string, p ≠ "") pressed = pressed) as ->.
    { clear -Hpressed. induction pressed as [|m ms IH]; [done|].
      apply Forall_cons in Hpressed as [Hm Hms]. rewrite filter_cons_True, (IH Hms); [done|].
      intros ->. set_solver. }
    done. }
  unfold parts. rewrite foldl_app, (parse_modifiers _ Hpressed). cbn [foldl].
  unfold parse_part. rewrite bool_decide_false.
  2:{ intros Hin. repeat (apply elem_of_cons in Hin as [Hin|Hin]; [discriminate|]).
      by apply elem_of_nil in Hin. }
  rewrite prefix_append.
  change (after_first ":" ("mouse:" +:+ btn)) with (Some btn).
  cbv beta iota. f_equal; [f_equal; set_solver|]. f_equal.
  case_bool_decide as Hb; [done|].
  destruct (String.eqb_spec btn "x1") as [->|_]; [|done].
  exfalso. apply Hb. do 4 (apply elem_of_cons; right). apply elem_of_cons. by left.
Qed.

Lemma captured_mouse_hotkey_parses_witness :
  ∃ pressed,
    mods_now Samples.two_clients = Some pressed ∧
    _parse_hotkey (Some "ctrl+mouse:x1") = (list_to_set pressed, None, Some "x").
Proof.
  apply (captured_mouse_hotkey_parses Samples.two_clients "x1" "ctrl+mouse:x1");
    reflexivity.
Defined.

(** X27. What [_parse_hotkey] can return, for every string: the modifiers
    are among [ctrl], [alt], [shift] and [win] (never [windows]), the mouse
    button is never [x1], and the key is never the empty string. *)
Theorem parse_hotkey_result (hk : option string) :
  (∀ m, m ∈ (_parse_hotkey hk).1.1 → m ∈ ["ctrl"; "alt"; "shift"; "win"]) ∧
  (_parse_hotkey hk).2 ≠ Some "x1" ∧
  (_parse_hotkey hk).1.2 ≠ Some "".
Proof.
  unfold _parse_hotkey. destruct (String.eqb _ ""); [cbn; set_solver|].
  apply parse_parts_inv.
  - apply Forall_forall. by intros p [Hp _]%list_elem_of_filter.
  - cbn. set_solver.
Qed.

End HotkeyStrings.


(** *** CPU affinity as text *)

Section AffinityText.

Import Hotkeys Affinity.

Lemma string_of_uint_digits (d : Decimal.uint) :
  string_forall is_digit (NilEmpty.string_of_uint d) = true.
Proof. induction d as [|d IH|d IH|d IH|d IH|d IH|d IH|d IH|d IH|d IH|d IH]; done. Qed.

Lemma revapp_nil (d acc : Decimal.uint) :
  Decimal.revapp d acc = Decimal.Nil → d = Decimal.Nil ∧ acc = Decimal.Nil.
Proof.
  revert acc. induction d as [|d IH|d IH|d IH|d IH|d IH|d IH|d IH|d IH|d IH|d IH];
    intros acc; cbn [Decimal.revapp]; [done|..]; by intros [_ [=]]%IH.
Qed.

Lemma to_little_uint_nonnil (p : positive) : Pos.to_little_uint p ≠ Decimal.Nil.
Proof.
  induction p as [p IH|p IH|]; cbn [Pos.to_little_uint]; [| |done].
  - by destruct (Pos.to_little_uint p).
  - by destruct (Pos.to_little_uint p).
Qed.

Lemma to_uint_nonnil (p : positive) : Pos.to_uint p ≠ Decimal.Nil.
Proof.
  unfold Pos.to_uint, Decimal.rev. intros [Hnil _]%revapp_nil.
  by apply to_little_uint_nonnil in Hnil.
Qed.

(** [str(v)] for a natural number [v]: digits, and at least one. *)
Lemma str_nonneg (bi : Builtins) (v : Z) :
  0 ≤ v →
  string_forall is_digit (py_str bi (PInt v)) = true ∧ py_str bi (PInt v) ≠ "".
Proof.
  intros Hv. cbn [py_str]. destruct v as [|p|p]; [done| |lia].
  cbn [Z.to_int NilEmpty.string_of_int]. split; [apply string_of_uint_digits|].
  pose proof (to_uint_nonnil p) as Hnil.
  by destruct (Pos.to_uint p).
Qed.

Lemma digit_stable (c : ascii) : is_digit c = true → stable c = true.
Proof.
  destruct c as [[] [] [] [] [] [] [] []]; try done.
Qed.

Lemma digit_no_comma (c : ascii) : is_digit c = true → negb (Ascii.eqb c ",") = true.
Proof.
  destruct c as [[] [] [] [] [] [] [] []]; try done.
Qed.

(** The loop of [parse_affinity] over the texts of natural numbers. *)
Lemma parse_numbers (bi : Builtins) (int : string → option Z) (aff : list Z) :
  Forall (λ v, 0 ≤ v ∧ int (py_str bi (PInt v)) = Some v) aff →
  ∀ out,
    foldl
      (λ out part,
         if String.eqb part "" then out
         else
           match int part with
           | Some v => if 0 <=? v then out ++ [v] else out
           | None => out
           end)
      out ((λ i, py_str bi (PInt i)) <$> aff)
    = out ++ aff.
Proof.
  induction aff as [|v aff IH]; intros Haff out; [by rewrite app_nil_r|].
  apply Forall_cons in Haff as [[Hv Hint] Haff]. cbn [fmap list_fmap foldl].
  destruct (str_nonneg bi v Hv) as [_ Hne]. apply String.eqb_neq in Hne.
  cbn [py_str] in *. rewrite Hne, Hint.
  replace (0 <=? v) with true by (symmetry; by apply Z.leb_le).
  fold (fmap (M:=list) (λ i, py_str bi (PInt i))). cbn [py_str].
  rewrite (IH Haff). by rewrite <- app_assoc.
Qed.

Lemma parse_nonneg (int : string → option Z) (parts : list string) :
  ∀ out, Forall (λ v, 0 ≤ v) out →
    Forall (λ v, 0 ≤ v)
      (foldl
         (λ out part,
            if String.eqb part "" then out
            else
              match int part with
              | Some v => if 0 <=? v then out ++ [v] else out
              | None => out
              end)
         out parts).
Proof.
  induction parts as [|p parts IH]; intros out Hout; [done|]. cbn [foldl]. apply IH.
  destruct (String.eqb p ""); [done|]. destruct (int p) as [v|]; [|done].
  destruct (Z.leb_spec 0 v); [|done]. apply Forall_app. split; [done|].
  by apply List.Forall_cons.
Qed.

(** X28. Round trip of the affinity text.  For a list of natural numbers
    that [int] reads back from their decimal text, [parse_affinity] applied
    to the text that [affinity_to_text] writes gives the list back; for
    every text the numbers that [parse_affinity] returns are non-negative;
    and [parse_affinity] does not see the spaces of its text. *)
Theorem affinity_round_trip (bi : Builtins) (int : string → option Z) (aff : list Z)
    (Haff : Forall (λ v, 0 ≤ v ∧ int (py_str bi (PInt v)) = Some v) aff) :
  parse_affinity int (affinity_to_text bi aff) = aff ∧
  (∀ text, Forall (λ v, 0 ≤ v) (parse_affinity int text)) ∧
  (∀ text, parse_affinity int (remove_spaces text) = parse_affinity int text).
Proof.
  split; [|split].
  - unfold parse_affinity, affinity_to_text.
    set (parts := (λ i, py_str bi (PInt i)) <$> aff).
    assert (Hdigits : Forall (λ p, string_forall is_digit p = true) parts).
    { unfold parts. apply Forall_fmap. eapply Forall_impl; [exact Haff|].
      intros v [Hv _]. by apply str_nonneg. }
    destruct aff as [|v0 aff']; [done|].
    rewrite remove_spaces_stable.
    2:{ apply string_forall_join; [done|]. eapply Forall_impl; [exact Hdigits|].
        intros p. apply string_forall_impl, digit_stable. }
    rewrite split_join.
    + by apply (parse_numbers bi int _ Haff []).
    + done.
    + eapply Forall_impl; [exact Hdigits|].
      intros p. apply string_forall_impl, digit_no_comma.
  - intros text. by apply parse_nonneg.
  - intros text. unfold parse_affinity. f_equal. f_equal.
    induction text as [|c text IH]; [done|]. cbn [remove_spaces].
    destruct (Ascii.eqb_spec c " ") as [->|Hc]; [done|]. cbn [remove_spaces].
    destruct (Ascii.eqb_spec c " "); [done|]. by rewrite IH.
Qed.

Lemma affinity_round_trip_witness :
  parse_affinity Samples.int_of_numeral (affinity_to_text Samples.no_builtins [0; 2; 4; 6])
  = [0; 2; 4; 6].
Proof.
  apply (affinity_round_trip Samples.no_builtins Samples.int_of_numeral [0; 2; 4; 6]).
  repeat (apply List.Forall_cons; [split; [lia|reflexivity]|]). apply List.Forall_nil.
Defined.

End AffinityText.
